(** * Social-media analytics core: aggregation cache and engagement metrics

    A shallow embedding of
    - [src/services/data-servise.tsx] (class [DataService]: the refresh
      coordinator and the three aggregation functions),
    - the engagement controllers of [src/lib/types.tsx] ([getPopularPosts],
      [getTrendingTopics], [getUserEngagementComparison]),
    - the token handling of [src/lib/api.tsx] and [truncateText],
    followed by the properties of the specification that concern them
    and by further properties of the code.

    Conventions of the embedding.
    - A JavaScript [number] is an exact rational, or one of NaN, +Infinity,
      -Infinity ([JS.number]).  The code computes on doubles and rounds
      after each operation; the model does not, so that a value which
      the code rounds to two decimals can differ from the model's by one
      hundredth when the exact value lies on a tie (14.375 is reported
      as 14.37 by the code).  What is stated about such values is
      therefore a bound, a sign, or an equation between the same
      operations.  The sign of zero is not represented.  Counts (array
      lengths, Prisma [_count] fields, map counters) are natural numbers.
    - [Map<string, V>] that is only read through [get] is a [gmap string V];
      the maps that the code iterates ([userPostsMap], [topicsMap]) are
      insertion-ordered association lists.
    - [Array.prototype.sort] is a stable sort (ECMAScript 2019), embedded
      as a stable insertion sort driven by the sign of the comparator.
      The order that an engine produces is determined by the standard
      when the comparator is a consistent order; what is proved about
      the order of a sorted array is proved under that condition.
    - A [Date] is its time value, a number of milliseconds since the
      epoch.  Local time, and the time value of a string that is not in
      the standard format, are those of the host ([JS.Host]), which is a
      parameter of every definition that reads a date.
    - [async] methods are run by an event loop: a call executes up to its
      first suspension, and later events settle promises and resume
      continuations. *)

From Stdlib Require Import ZArith QArith Qround Qabs Lqa Lia Ascii String Sorted.
From stdpp Require Import gmap strings list fin_maps sorting.

Local Open Scope Z_scope.

(** ** The JavaScript runtime model *)

Module JS.

(** *** Numbers *)

Inductive number : Type :=
| Fin (q : Q)
| PosInf
| NegInf
| NaN.

Definition of_Z (n : Z) : number := Fin (inject_Z n).
Definition of_nat (n : nat) : number := of_Z (Z.of_nat n).

Definition is_finite (x : number) : bool :=
  match x with Fin _ => true | _ => false end.

Definition is_nan (x : number) : bool :=
  match x with NaN => true | _ => false end.

Definition sign_neg (q : Q) : bool := negb (Qle_bool 0 q).

(** [x * y] *)
Definition mul (x y : number) : number :=
  match x, y with
  | NaN, _ | _, NaN => NaN
  | Fin a, Fin b => Fin (a * b)%Q
  | Fin a, PosInf | PosInf, Fin a =>
      if Qeq_bool a 0 then NaN else if sign_neg a then NegInf else PosInf
  | Fin a, NegInf | NegInf, Fin a =>
      if Qeq_bool a 0 then NaN else if sign_neg a then PosInf else NegInf
  | PosInf, PosInf | NegInf, NegInf => PosInf
  | PosInf, NegInf | NegInf, PosInf => NegInf
  end.

(** [x / y]: a zero divisor gives NaN for [0 / 0] and an infinity
    otherwise. *)
Definition div (x y : number) : number :=
  match x, y with
  | NaN, _ | _, NaN => NaN
  | Fin a, Fin b =>
      if Qeq_bool b 0 then
        if Qeq_bool a 0 then NaN
        else if sign_neg a then NegInf else PosInf
      else Fin (a / b)%Q
  | Fin _, (PosInf | NegInf) => Fin 0
  | PosInf, Fin b => if sign_neg b then NegInf else PosInf
  | NegInf, Fin b => if sign_neg b then PosInf else NegInf
  | (PosInf | NegInf), (PosInf | NegInf) => NaN
  end.

(** [x + y] *)
Definition add (x y : number) : number :=
  match x, y with
  | NaN, _ | _, NaN => NaN
  | Fin a, Fin b => Fin (a + b)%Q
  | PosInf, NegInf | NegInf, PosInf => NaN
  | PosInf, _ | _, PosInf => PosInf
  | NegInf, _ | _, NegInf => NegInf
  end.

(** [x >= y]; every comparison with NaN is false. *)
Definition ge (x y : number) : bool :=
  match x, y with
  | NaN, _ | _, NaN => false
  | Fin a, Fin b => Qle_bool b a
  | PosInf, _ => true
  | _, NegInf => true
  | _, _ => false
  end.

(** [x - y] *)
Definition sub (x y : number) : number :=
  match x, y with
  | NaN, _ | _, NaN => NaN
  | Fin a, Fin b => Fin (a - b)%Q
  | Fin _, PosInf => NegInf
  | Fin _, NegInf => PosInf
  | PosInf, Fin _ | PosInf, NegInf => PosInf
  | NegInf, Fin _ | NegInf, PosInf => NegInf
  | PosInf, PosInf | NegInf, NegInf => NaN
  end.

(** [parseFloat(x.toFixed(2))] on a finite value: the integer [n] with
    [n / 100] nearest to [x], the larger in magnitude on a tie.  The
    code applies this to the double that its arithmetic produced, the
    model to the exact value. *)
Definition round2_pos (q : Q) : Q :=
  (inject_Z (Qfloor (q * 100 + (1 # 2))) / 100)%Q.

Definition round2 (q : Q) : Q :=
  if Qle_bool 0 q then round2_pos q else (- round2_pos (- q))%Q.

(** [parseFloat(x.toFixed(2))]: "NaN" and "Infinity" parse back to
    themselves. *)
Definition toFixed2 (x : number) : number :=
  match x with
  | Fin q => Fin (round2 q)
  | other => other
  end.

(** *** Arrays *)

(** The sign test that [sort] applies to a comparator result
    [v = cmp x y]: [x] stays before [y] when [v <= 0]; a NaN result
    counts as [+0]. *)
Definition nonpositive (v : number) : bool :=
  match v with
  | Fin q => Qle_bool q 0
  | PosInf => false
  | NegInf => true
  | NaN => true
  end.

Section Arrays.
Context {A : Type}.

(** [insert_sorted cmp x l]: [x], which precedes the elements of [l]
    in the array, moves past [y] only when [cmp x y > 0], so elements
    that compare equal keep their order. *)
Fixpoint insert_sorted (cmp : A -> A -> number) (x : A) (l : list A)
  : list A :=
  match l with
  | [] => [x]
  | y :: l' =>
      if nonpositive (cmp x y) then x :: y :: l'
      else y :: insert_sorted cmp x l'
  end.

(** [x] may stay before [y]. *)
Definition inOrder (cmp : A -> A -> number) (x y : A) : Prop :=
  nonpositive (cmp x y) = true.

(** [arr.sort(cmp)] *)
Definition sort (cmp : A -> A -> number) (l : list A) : list A :=
  foldr (fun x acc => insert_sorted cmp x acc) [] l.

(** [arr.slice(0, n)]: a negative [n] counts from the end. *)
Definition slice0 (n : Z) (l : list A) : list A :=
  if 0 <=? n then take (Z.to_nat n) l
  else take (length l - Z.to_nat (- n)) l.

(** [arr.findIndex(p)], with [None] for [-1]. *)
Fixpoint findIndex (p : A -> bool) (l : list A) : option nat :=
  match l with
  | [] => None
  | x :: l' => if p x then Some O else S <$> findIndex p l'
  end.
End Arrays.

(** *** Dates

    A [Date] is its time value: milliseconds since 1970-01-01T00:00:00Z.
    [Day], [TimeWithinDay], [YearFromTime], [MonthFromTime],
    [DateFromTime], [MakeDay], [MakeTime], [MakeDate], [LocalTime] and
    [UTC] are the abstract operations of ECMA-262 (21.4.1).  What the
    standard leaves to the implementation is a parameter of the model,
    the [Host]: the offset of local time, and the time value of a
    string that is not in the standard date-time format. *)

Definition Date : Type := Z.

Record Host := {
  (* [LocalTZA(t, isUTC)]: the offset of local time in milliseconds, at
     the UTC time [t] when [isUTC] holds and at the local time [t]
     otherwise. *)
  LocalTZA : Z -> bool -> Z;
  (* [Date.parse] on a string that is not in the date-time string
     format; [None] is NaN. *)
  parseFallback : string -> option Z;
}.

Definition LocalTime (host : Host) (t : Date) : Z := t + LocalTZA host t true.
Definition UTC (host : Host) (t : Z) : Date := t - LocalTZA host t false.

Definition msPerDay : Z := 86400000.

Definition Day (t : Z) : Z := t / msPerDay.
Definition TimeWithinDay (t : Z) : Z := t mod msPerDay.

(** Day number of the civil date [y]-[m]-[d], [m] in 1..12, in the
    proleptic Gregorian calendar; years are counted from March. *)
Definition days_from_civil (y m d : Z) : Z :=
  let y' := if m <=? 2 then y - 1 else y in
  let era := y' / 400 in
  let yoe := y' - era * 400 in
  let mp := if 2 <? m then m - 3 else m + 9 in
  let doy := (153 * mp + 2) / 5 + d - 1 in
  let doe := yoe * 365 + yoe / 4 - yoe / 100 + doy in
  era * 146097 + doe - 719468.

(** The civil date (year, month 1..12, day 1..31) of a day number. *)
Definition civil_from_days (z : Z) : Z * Z * Z :=
  let z' := z + 719468 in
  let era := z' / 146097 in
  let doe := z' - era * 146097 in
  let yoe := (doe - doe / 1460 + doe / 36524 - doe / 146096) / 365 in
  let doy := doe - (365 * yoe + yoe / 4 - yoe / 100) in
  let mp := (5 * doy + 2) / 153 in
  let d := doy - (153 * mp + 2) / 5 + 1 in
  let m := if mp <? 10 then mp + 3 else mp - 9 in
  let y := yoe + era * 400 in
  (if m <=? 2 then y + 1 else y, m, d).

Definition YearFromTime (t : Z) : Z := (civil_from_days (Day t)).1.1.
(** [MonthFromTime] is zero-based. *)
Definition MonthFromTime (t : Z) : Z := (civil_from_days (Day t)).1.2 - 1.
Definition DateFromTime (t : Z) : Z := (civil_from_days (Day t)).2.

(** [MakeDay]: month and day overflow are carried into the year and the
    following months. *)
Definition MakeDay (year month date : Z) : Z :=
  let ym := year + month / 12 in
  let mn := month mod 12 in
  days_from_civil ym (mn + 1) 1 + date - 1.

Definition MakeTime (hour min sec ms : Z) : Z :=
  ((hour * 60 + min) * 60 + sec) * 1000 + ms.

Definition MakeDate (day time : Z) : Z := day * msPerDay + time.

(** The accessors read the fields of the local time; the setters
    replace one field of the local time and convert back. *)
Definition getFullYear (host : Host) (t : Date) : Z :=
  YearFromTime (LocalTime host t).
Definition getMonth (host : Host) (t : Date) : Z :=
  MonthFromTime (LocalTime host t).
Definition getDate (host : Host) (t : Date) : Z :=
  DateFromTime (LocalTime host t).

Definition setDate (host : Host) (t : Date) (dt : Z) : Date :=
  let lt := LocalTime host t in
  UTC host (MakeDate (MakeDay (YearFromTime lt) (MonthFromTime lt) dt)
                     (TimeWithinDay lt)).

Definition setMonth (host : Host) (t : Date) (m : Z) : Date :=
  let lt := LocalTime host t in
  UTC host (MakeDate (MakeDay (YearFromTime lt) m (DateFromTime lt))
                     (TimeWithinDay lt)).

Definition setFullYear (host : Host) (t : Date) (y : Z) : Date :=
  let lt := LocalTime host t in
  UTC host (MakeDate (MakeDay y (MonthFromTime lt) (DateFromTime lt))
                     (TimeWithinDay lt)).

(** [new Date(s).getTime()].  A string in the date-time string format
    of ECMA-262 (21.4.1.32) has the time value that the standard
    prescribes: [YYYY], [YYYY-MM] and [YYYY-MM-DD] are dates in UTC; a
    date [YYYY-MM-DD] followed by [THH:mm], [THH:mm:ss] or
    [THH:mm:ss.sss] is a time in UTC when [Z] follows, a time at the
    given offset when [+HH:mm] or [-HH:mm] follows, and a local time
    when nothing follows.  The fields must be in range, the day within
    the month; [24:00:00] is the end of the day.  The time value of
    every other string is the host's. *)
Definition digit (c : ascii) : option Z :=
  let n := Z.of_nat (nat_of_ascii c) in
  if (48 <=? n) && (n <=? 57) then Some (n - 48) else None.

Fixpoint digits (acc : Z) (cs : list ascii) : option Z :=
  match cs with
  | [] => Some acc
  | c :: cs' => d ← digit c; digits (acc * 10 + d) cs'
  end.

(** The next [n] characters read as a decimal number, and the rest. *)
Definition number_of (n : nat) (cs : list ascii) : option (Z * list ascii) :=
  if bool_decide (n <= length cs)%nat
  then v ← digits 0 (take n cs); Some (v, drop n cs)
  else None.

(** What follows the character [c], when the text starts with it. *)
Definition after (c : ascii) (cs : list ascii) : option (list ascii) :=
  match cs with
  | c' :: cs' => if bool_decide (c' = c) then Some cs' else None
  | [] => None
  end.

Definition validDate (y mo d : Z) : bool :=
  (1 <=? mo) && (mo <=? 12) && (1 <=? d)
  && (d <=? MakeDay y mo 1 - MakeDay y (mo - 1) 1).

Definition validTime (hour min sec ms : Z) : bool :=
  ((hour <=? 23) && (min <=? 59) && (sec <=? 59))
  || ((hour =? 24) && (min =? 0) && (sec =? 0) && (ms =? 0)).

(** [HH:mm], [HH:mm:ss] or [HH:mm:ss.sss]: the time within the day, and
    the rest. *)
Definition parseTime (cs : list ascii) : option (Z * list ascii) :=
  '(hour, r1) ← number_of 2 cs;
  r2 ← after ":" r1;
  '(min, r3) ← number_of 2 r2;
  '(sec, ms, r) ←
    match after ":" r3 with
    | None => Some (0, 0, r3)
    | Some r4 =>
        '(sec, r5) ← number_of 2 r4;
        match after "." r5 with
        | None => Some (sec, 0, r5)
        | Some r6 => '(ms, r7) ← number_of 3 r6; Some (sec, ms, r7)
        end
    end;
  if validTime hour min sec ms then Some (MakeTime hour min sec ms, r)
  else None.

(** The UTC offset representation that ends the string: [Some None]
    when it is absent, [Some (Some o)] for an offset of [o]
    milliseconds. *)
Definition parseOffset (cs : list ascii) : option (option Z) :=
  match cs with
  | [] => Some None
  | c :: cs' =>
      if bool_decide (c = "Z"%char) then
        if bool_decide (cs' = []) then Some (Some 0) else None
      else
        sign ← (if bool_decide (c = "+"%char) then Some 1
                else if bool_decide (c = "-"%char) then Some (-1)
                else None);
        '(oh, r1) ← number_of 2 cs';
        r2 ← after ":" r1;
        '(om, r3) ← number_of 2 r2;
        if bool_decide (r3 = []) && (oh <=? 23) && (om <=? 59)
        then Some (Some (sign * MakeTime oh om 0 0))
        else None
  end.

Definition parseISO (host : Host) (s : string) : option Z :=
  let cs := list_ascii_of_string s in
  '(y, r1) ← number_of 4 cs;
  match after "-" r1 with
  | None =>
      if bool_decide (r1 = []) then Some (MakeDate (MakeDay y 0 1) 0) else None
  | Some r2 =>
      '(mo, r3) ← number_of 2 r2;
      match after "-" r3 with
      | None =>
          if bool_decide (r3 = []) && validDate y mo 1
          then Some (MakeDate (MakeDay y (mo - 1) 1) 0)
          else None
      | Some r4 =>
          '(d, r5) ← number_of 2 r4;
          if validDate y mo d then
            let day := MakeDay y (mo - 1) d in
            match after "T" r5 with
            | None =>
                if bool_decide (r5 = []) then Some (MakeDate day 0) else None
            | Some r6 =>
                '(time, r7) ← parseTime r6;
                offset ← parseOffset r7;
                Some (match offset with
                      | Some o => MakeDate day time - o
                      | None => UTC host (MakeDate day time)
                      end)
            end
          else None
      end
  end.

(** [Date.parse(s)], with [None] for NaN. *)
Definition Date_parse (host : Host) (s : string) : option Z :=
  match parseISO host s with
  | Some t => Some t
  | None => parseFallback host s
  end.

Definition Date_getTime (host : Host) (s : string) : number :=
  match Date_parse host s with
  | Some t => Fin (inject_Z t)
  | None => NaN
  end.

End JS.

(** ** [services/data-servise.tsx]: the cached aggregation service *)

Module DataService.

(** *** Data model ([lib/types.tsx]) *)

Record User := {
  user_id : string;
  user_name : string;
  user_email : string;
}.

Record Post := {
  post_id : string;
  post_userId : string;
  post_title : string;
  post_content : string;
  post_timestamp : string;
}.

Record Comment := {
  comment_id : string;
  comment_postId : string;
  comment_userId : string;
  comment_content : string;
  comment_timestamp : string;
}.

(** [{ ...user, postCount }] *)
Record UserWithStats := {
  uws_user : User;
  postCount : nat;
}.

(** [{ ...post, commentCount, userName }]; [userName] is optional. *)
Record PostWithStats := {
  pws_post : Post;
  commentCount : nat;
  userName : option string;
}.

Record RawData := {
  users : list User;
  posts : list Post;
  comments : list Comment;
}.

Record Computed := {
  topUsers : list UserWithStats;
  latestPosts : list PostWithStats;
  popularPosts : list PostWithStats;
}.

Record CacheData := {
  rawData : RawData;
  computed : Computed;
  lastFetched : Z;
}.

Definition CACHE_DURATION : Z := 10 * 1000.

(** The cache built by the constructor. *)
Definition initialCache : CacheData :=
  {| rawData := {| users := []; posts := []; comments := [] |};
     computed := {| topUsers := []; latestPosts := []; popularPosts := [] |};
     lastFetched := 0 |}.

Definition getCacheExpiry (c : CacheData) : Z :=
  lastFetched c + CACHE_DURATION.

Definition isCacheFresh (now : Z) (c : CacheData) : bool :=
  (0 <? lastFetched c) && (now <? getCacheExpiry c).

(** *** Aggregation *)

(** The counting loop
    [m.set(k, (m.get(k) || 0) + 1)] over the keys of a list. *)
Definition countInto {A} (key : A -> string) (m : gmap string nat) (x : A)
  : gmap string nat :=
  <[key x := (default 0%nat (m !! key x) + 1)%nat]> m.

Definition countBy {A} (key : A -> string) (l : list A) : gmap string nat :=
  foldl (countInto key) ∅ l.

(** [users.forEach((user) => userMap.set(user.id, user))] *)
Definition buildUserMap (us : list User) : gmap string User :=
  foldl (fun m u => <[user_id u := u]> m) ∅ us.

Definition set_topUsers (v : list UserWithStats) (c : CacheData) : CacheData :=
  {| rawData := rawData c;
     computed := {| topUsers := v;
                    latestPosts := latestPosts (computed c);
                    popularPosts := popularPosts (computed c) |};
     lastFetched := lastFetched c |}.

Definition set_latestPosts (v : list PostWithStats) (c : CacheData) : CacheData :=
  {| rawData := rawData c;
     computed := {| topUsers := topUsers (computed c);
                    latestPosts := v;
                    popularPosts := popularPosts (computed c) |};
     lastFetched := lastFetched c |}.

Definition set_popularPosts (v : list PostWithStats) (c : CacheData) : CacheData :=
  {| rawData := rawData c;
     computed := {| topUsers := topUsers (computed c);
                    latestPosts := latestPosts (computed c);
                    popularPosts := v |};
     lastFetched := lastFetched c |}.

Definition byPostCountDesc (a b : UserWithStats) : JS.number :=
  JS.sub (JS.of_nat (postCount b)) (JS.of_nat (postCount a)).

Definition computeTopUsers (c : CacheData) : CacheData :=
  let userPostCounts := countBy post_userId (posts (rawData c)) in
  let usersWithCounts :=
    map (fun user =>
           {| uws_user := user;
              postCount := default 0%nat (userPostCounts !! user_id user) |})
        (users (rawData c)) in
  set_topUsers (take 5 (JS.sort byPostCountDesc usersWithCounts)) c.

Definition withStats (postCommentCounts : gmap string nat)
    (userMap : gmap string User) (post : Post) : PostWithStats :=
  {| pws_post := post;
     commentCount := default 0%nat (postCommentCounts !! post_id post);
     userName := user_name <$> (userMap !! post_userId post) |}.

Definition byTimestampDesc (host : JS.Host) (a b : Post) : JS.number :=
  JS.sub (JS.Date_getTime host (post_timestamp b))
         (JS.Date_getTime host (post_timestamp a)).

Definition computeLatestPosts (host : JS.Host) (c : CacheData) : CacheData :=
  let userMap := buildUserMap (users (rawData c)) in
  let postCommentCounts := countBy comment_postId (comments (rawData c)) in
  set_latestPosts
    (map (withStats postCommentCounts userMap)
         (take 5 (JS.sort (byTimestampDesc host) (posts (rawData c)))))
    c.

(** The scan [if (count > maxCommentCount) maxCommentCount = count]. *)
Definition maxOf (counts : list nat) : nat :=
  foldl (fun mx count => if (mx <? count)%nat then count else mx) 0%nat counts.

Definition computePopularPosts (c : CacheData) : CacheData :=
  let userMap := buildUserMap (users (rawData c)) in
  let postCommentCounts := countBy comment_postId (comments (rawData c)) in
  (* [Array.from(postCommentCounts.values())]; the maximum does not
     depend on the order in which the values are visited. *)
  let countsArray := (map_to_list postCommentCounts).*2 in
  let maxCommentCount := maxOf countsArray in
  set_popularPosts
    (map (withStats postCommentCounts userMap)
         (filter (fun post =>
                    default 0%nat (postCommentCounts !! post_id post)
                    = maxCommentCount)
                 (posts (rawData c))))
    c.

(** *** The refresh coordinator

    [fetchAllData] either yields the three collections (each possibly
    absent, hence [users || []]) or throws.  The host is the one that
    runs the service: [computeLatestPosts] reads dates. *)

Definition Error : Type := string.

Inductive FetchResult : Type :=
| FetchOk (us : option (list User)) (ps : option (list Post))
          (cs : option (list Comment))
| FetchErr (e : Error).

Inductive Settled : Type :=
| Fulfilled
| Rejected (e : Error).

Inductive PromiseState : Type :=
| Pending
| Done (s : Settled).

(** One invocation of [performRefresh]: the state of the promise it
    returned, and whether the [refreshData] call that created it has
    run its [finally] block. *)
Record Refresh := {
  state : PromiseState;
  resumed : bool;
}.

(** The service object together with the bookkeeping of the event loop:
    promises are named by their index in [refreshes]; [fetchCalls]
    counts the invocations of [apiClient.fetchAllData]. *)
Record World := {
  cache : CacheData;
  refreshPromise : option nat;
  refreshes : list Refresh;
  fetchCalls : nat;
}.

Definition newService : World :=
  {| cache := initialCache; refreshPromise := None;
     refreshes := []; fetchCalls := 0 |}.

(** What a caller of [refreshData] holds: a promise already resolved
    (cache hit), the in-flight promise it was handed, or the promise of
    the refresh it started itself. *)
Inductive Handle : Type :=
| Returned
| Joined (p : nat)
| Started (p : nat).

(** [performRefresh] up to [await this.apiClient.fetchAllData()]. *)
Definition performRefresh_call (w : World) : World * nat :=
  ({| cache := cache w;
      refreshPromise := refreshPromise w;
      refreshes := refreshes w ++ [{| state := Pending; resumed := false |}];
      fetchCalls := S (fetchCalls w) |},
   length (refreshes w)).

(** [performRefresh] after the [await]: on success the raw data is
    replaced, the three views are recomputed and [lastFetched] is set;
    on failure the [catch] block rethrows. *)
Definition performRefresh_body (host : JS.Host) (r : FetchResult) (now : Z)
    (c : CacheData) : CacheData * Settled :=
  match r with
  | FetchOk us ps cs =>
      let c1 := {| rawData := {| users := default [] us;
                                 posts := default [] ps;
                                 comments := default [] cs |};
                   computed := computed c;
                   lastFetched := lastFetched c |} in
      let c2 :=
        computePopularPosts (computeLatestPosts host (computeTopUsers c1)) in
      ({| rawData := rawData c2; computed := computed c2;
          lastFetched := now |}, Fulfilled)
  | FetchErr e => (c, Rejected e)
  end.

Definition performRefresh_settle (host : JS.Host) (p : nat) (r : FetchResult)
    (now : Z) (w : World) : World :=
  let '(c, s) := performRefresh_body host r now (cache w) in
  {| cache := c;
     refreshPromise := refreshPromise w;
     refreshes :=
       match refreshes w !! p with
       | Some r0 => <[p := {| state := Done s; resumed := resumed r0 |}]> (refreshes w)
       | None => refreshes w
       end;
     fetchCalls := fetchCalls w |}.

(** [refreshData(force)] up to its first suspension. *)
Definition refreshData (force : bool) (now : Z) (w : World) : World * Handle :=
  if negb force && isCacheFresh now (cache w) then (w, Returned)
  else
    match refreshPromise w with
    | Some p => (w, Joined p)
    | None =>
        let '(w1, p) := performRefresh_call w in
        ({| cache := cache w1; refreshPromise := Some p;
            refreshes := refreshes w1; fetchCalls := fetchCalls w1 |},
         Started p)
    end.

(** The [finally] block of the call that started refresh [p]. *)
Definition refreshData_finally (p : nat) (w : World) : World :=
  {| cache := cache w;
     refreshPromise := None;
     refreshes :=
       match refreshes w !! p with
       | Some r => <[p := {| state := state r; resumed := true |}]> (refreshes w)
       | None => refreshes w
       end;
     fetchCalls := fetchCalls w |}.

(** The events of the loop: a call of [refreshData], the completion of
    the upstream fetch of refresh [p], and the resumption of the call
    that awaits the refresh [p] it started. *)
Inductive Event : Type :=
| Call (force : bool) (now : Z)
| FetchSettles (p : nat) (r : FetchResult) (now : Z)
| Resume (p : nat).

Definition step (host : JS.Host) (w : World) (e : Event) : option World :=
  match e with
  | Call force now => Some (refreshData force now w).1
  | FetchSettles p r now =>
      match refreshes w !! p with
      | Some {| state := Pending |} =>
          Some (performRefresh_settle host p r now w)
      | _ => None
      end
  | Resume p =>
      match refreshes w !! p with
      | Some {| state := Done _; resumed := false |} =>
          Some (refreshData_finally p w)
      | _ => None
      end
  end.

Fixpoint run (host : JS.Host) (w : World) (evs : list Event) : option World :=
  match evs with
  | [] => Some w
  | e :: evs' => w' ← step host w e; run host w' evs'
  end.

(** A refresh is in flight when its upstream fetch has not completed. *)
Definition inFlight (w : World) (p : nat) : Prop :=
  exists r, refreshes w !! p = Some r /\ state r = Pending.

(** The outcome a caller observes, once its promise has settled. *)
Definition outcome (w : World) (h : Handle) : option Settled :=
  match h with
  | Returned => Some Fulfilled
  | Joined p =>
      match refreshes w !! p with
      | Some {| state := Done s |} => Some s
      | _ => None
      end
  | Started p =>
      match refreshes w !! p with
      | Some {| state := Done s; resumed := true |} => Some s
      | _ => None
      end
  end.

(** *** Read accessors: [await this.refreshData(); return this.cache...] *)

Definition accessor_return {V} (view : Computed -> V) (w : World) (h : Handle)
  : option (Error + V) :=
  s ← outcome w h;
  match s with
  | Fulfilled => Some (inr (view (computed (cache w))))
  | Rejected e => Some (inl e)
  end.

Definition getTopUsers (now : Z) (w : World) : World * Handle :=
  refreshData false now w.
Definition getTopUsers_return := accessor_return topUsers.

Definition getLatestPosts (now : Z) (w : World) : World * Handle :=
  refreshData false now w.
Definition getLatestPosts_return := accessor_return latestPosts.

Definition getPopularPosts (now : Z) (w : World) : World * Handle :=
  refreshData false now w.
Definition getPopularPosts_return := accessor_return popularPosts.

End DataService.

(** ** The engagement controller: [getPopularPosts] and
    [getUserEngagementComparison] *)

Module Engagement.

(** *** The record store, as the Prisma queries see it *)

(** [post._count] *)
Record Counts := {
  likes : nat;
  comments : nat;
  shares : nat;
  views : nat;
}.

Record DbUser := {
  user_id : string;
  username : string;
}.

Record DbPost := {
  id : string;
  userId : string;
  createdAt : JS.Date;
  _count : Counts;
}.

Record Db := {
  db_users : list DbUser;
  db_posts : list DbPost;
}.

Record PostEngagement := {
  postId : string;
  totalEngagements : nat;
  pe_likes : nat;
  pe_comments : nat;
  pe_shares : nat;
  pe_views : nat;
  engagementRate : JS.number;
}.

(** [{ ...post, engagementMetrics }] *)
Record PostWithEngagement := {
  post : DbPost;
  engagementMetrics : PostEngagement;
}.

(** [x || d] on a query parameter: absent and empty strings are falsy. *)
Definition orDefault (x : option string) (d : string) : string :=
  match x with
  | Some s => if decide (s = "") then d else s
  | None => d
  end.

(** [parseInt(...) || 10]: [None] is the NaN of an unparsable
    parameter; NaN and 0 are falsy. *)
Definition limitOrDefault (parsed : option Z) : Z :=
  match parsed with
  | Some n => if n =? 0 then 10 else n
  | None => 10
  end.

(** *** Window resolution

    [endDate] and the initial [startDate] are two readings of the
    clock; [getDate], [setDate] and the like work on the local time of
    the host.  The [switch] of [getPopularPosts] (and of
    [getTrendingTopics]) has a case for every period; the one of
    [getUserEngagementComparison] has none for ["all"]. *)

Definition getPopularPosts_startDate (host : JS.Host) (period : string)
    (endDate startDate : JS.Date) : JS.Date :=
  if decide (period = "day") then
    JS.setDate host startDate (JS.getDate host endDate - 1)
  else if decide (period = "week") then
    JS.setDate host startDate (JS.getDate host endDate - 7)
  else if decide (period = "month") then
    JS.setMonth host startDate (JS.getMonth host endDate - 1)
  else if decide (period = "year") then
    JS.setFullYear host startDate (JS.getFullYear host endDate - 1)
  else if decide (period = "all") then
    0
  else
    JS.setDate host startDate (JS.getDate host endDate - 7).

Definition getUserEngagementComparison_startDate (host : JS.Host)
    (period : string) (endDate startDate : JS.Date) : JS.Date :=
  if decide (period = "day") then
    JS.setDate host startDate (JS.getDate host endDate - 1)
  else if decide (period = "week") then
    JS.setDate host startDate (JS.getDate host endDate - 7)
  else if decide (period = "month") then
    JS.setMonth host startDate (JS.getMonth host endDate - 1)
  else if decide (period = "year") then
    JS.setFullYear host startDate (JS.getFullYear host endDate - 1)
  else
    JS.setMonth host startDate (JS.getMonth host endDate - 1).

(** *** Queries *)

(** [createdAt: { gte: startDate, lte: endDate }] *)
Definition inWindow (startDate endDate : JS.Date) (p : DbPost) : bool :=
  (startDate <=? createdAt p) && (createdAt p <=? endDate).

(** Prisma's [take]: a negative count selects from the end. *)
Definition prisma_take {A} (n : Z) (l : list A) : list A :=
  if 0 <=? n then take (Z.to_nat n) l
  else drop (length l - Z.to_nat (- n)) l.

(** [if (userId) whereClause.userId = userId] *)
Definition matchesUser (userId : option string) (p : DbPost) : bool :=
  match userId with
  | Some u => if decide (u = "") then true else bool_decide (Engagement.userId p = u)
  | None => true
  end.

(** [prisma.post.findUnique({ where: { id } })?.userId] *)
Definition findPostUserId (db : Db) (i : string) : option string :=
  userId <$> List.find (fun p => bool_decide (id p = i)) (db_posts db).

(** *** Per-post metrics *)

Definition postEngagements (p : DbPost) : nat :=
  (likes (_count p) + comments (_count p) + shares (_count p))%nat.

(** [v > 0 ? (e / v) * 100 : 0] *)
Definition rateOf (engagements views : nat) : JS.number :=
  if (0 <? views)%nat then
    JS.mul (JS.div (JS.of_nat engagements) (JS.of_nat views)) (JS.of_Z 100)
  else JS.of_Z 0.

Definition withEngagement (p : DbPost) : PostWithEngagement :=
  let totalEngagements := postEngagements p in
  let engagementRate := rateOf totalEngagements (views (_count p)) in
  {| post := p;
     engagementMetrics :=
       {| postId := id p;
          totalEngagements := totalEngagements;
          pe_likes := likes (_count p);
          pe_comments := comments (_count p);
          pe_shares := shares (_count p);
          pe_views := views (_count p);
          engagementRate := JS.toFixed2 engagementRate |} |}.

(** The comparator of the ranking. *)
Definition byEngagement (a b : PostWithEngagement) : JS.number :=
  if decide (totalEngagements (engagementMetrics b)
             = totalEngagements (engagementMetrics a))
  then JS.sub (engagementRate (engagementMetrics b))
              (engagementRate (engagementMetrics a))
  else JS.sub (JS.of_nat (totalEngagements (engagementMetrics b)))
              (JS.of_nat (totalEngagements (engagementMetrics a))).

(** [postsWithEngagement.sort(...).slice(0, limit)] over the posts that
    the query returned. *)
Definition rankPosts (limit : Z) (posts : list DbPost)
  : list PostWithEngagement :=
  JS.slice0 limit (JS.sort byEngagement (map withEngagement posts)).

Record PopularPostsResponse := {
  pp_period : string;
  pp_from : JS.Date;
  pp_to : JS.Date;
  pp_totalPosts : nat;
  averageEngagementRate : JS.number;
  pp_posts : list PostWithEngagement;
}.

Definition getPopularPosts (host : JS.Host) (db : Db)
    (endDate startDate0 : JS.Date)
    (qUserId qPeriod : option string) (qLimit : option Z)
  : PopularPostsResponse :=
  let period := orDefault qPeriod "week" in
  let limit := limitOrDefault qLimit in
  let startDate :=
    getPopularPosts_startDate host period endDate startDate0 in
  let posts :=
    prisma_take (limit * 3)
      (List.filter (fun p => inWindow startDate endDate p && matchesUser qUserId p)
                   (db_posts db)) in
  let popularPosts := rankPosts limit posts in
  let totalPosts := length popularPosts in
  let totalEngagementRate :=
    foldl (fun acc p => JS.add acc (engagementRate (engagementMetrics p)))
          (JS.of_Z 0) popularPosts in
  {| pp_period := period;
     pp_from := startDate;
     pp_to := endDate;
     pp_totalPosts := totalPosts;
     averageEngagementRate :=
       if (0 <? totalPosts)%nat
       then JS.toFixed2 (JS.div totalEngagementRate (JS.of_nat totalPosts))
       else JS.of_Z 0;
     pp_posts := popularPosts |}.

(** *** Percentile ranking *)

Definition sumEngagements (ps : list DbPost) : nat :=
  foldl (fun acc p => (acc + postEngagements p)%nat) 0%nat ps.

Definition sumViews (ps : list DbPost) : nat :=
  foldl (fun acc p => (acc + views (_count p))%nat) 0%nat ps.

(** [userPostsMap]: a [Map] in insertion order, with entries
    [{ engagements, views }]. *)
Definition UserTotals : Type := list (string * (nat * nat)).

Fixpoint accumulate (u : string) (e v : nat) (m : UserTotals) : UserTotals :=
  match m with
  | [] => [(u, (e, v))]
  | (u', (e', v')) :: m' =>
      if decide (u' = u) then (u', ((e' + e)%nat, (v' + v)%nat)) :: m'
      else (u', (e', v')) :: accumulate u e v m'
  end.

(** The grouping loop; a post whose author cannot be resolved (or is
    the empty string) is skipped. *)
Definition groupByUser (db : Db) (allPosts : list DbPost) : UserTotals :=
  foldl (fun m p =>
           match findPostUserId db (id p) with
           | Some postUserId =>
               if decide (postUserId = "") then m
               else accumulate postUserId (postEngagements p)
                               (views (_count p)) m
           | None => m
           end) [] allPosts.

Definition ascending (a b : JS.number) : JS.number := JS.sub a b.

Definition percentileOf (userEngagementRate : JS.number)
    (allUserEngagementRates : list JS.number) : JS.number :=
  if (0 <? length allUserEngagementRates)%nat then
    match JS.findIndex (fun rate => JS.ge rate userEngagementRate)
                       allUserEngagementRates with
    | Some position =>
        JS.mul (JS.div (JS.of_nat position)
                       (JS.of_nat (length allUserEngagementRates)))
               (JS.of_Z 100)
    | None => JS.of_Z 100
    end
  else JS.of_Z 0.

(** [(userRate / platformRate) * 100 - 100] *)
Definition comparisonOf (userEngagementRate platformEngagementRate : JS.number)
  : JS.number :=
  JS.sub (JS.mul (JS.div userEngagementRate platformEngagementRate)
                 (JS.of_Z 100))
         (JS.of_Z 100).

Record ComparisonResponse := {
  cr_userId : string;
  cr_username : string;
  cr_period : string;
  cr_from : JS.Date;
  cr_to : JS.Date;
  cr_totalPosts : nat;
  cr_totalEngagements : nat;
  cr_engagementRate : JS.number;
  percentileRank : JS.number;
  platform_engagementRate : JS.number;
  comparison : JS.number;
}.

Inductive Response (A : Type) : Type :=
| Ok (body : A)
| NotFound (message : string).
Arguments Ok {A} body.
Arguments NotFound {A} message.

(** The sorted list of per-author rates. *)
Definition allUserEngagementRates (db : Db) (allPosts : list DbPost)
  : list JS.number :=
  JS.sort ascending
    (map (fun entry => rateOf entry.2.1 entry.2.2) (groupByUser db allPosts)).

(** The posts of [userId] in the window, all posts in the window, and the
    two aggregate rates computed from them. *)
Definition userPostsIn (db : Db) (startDate endDate : JS.Date) (userId : string)
  : list DbPost :=
  List.filter (fun p => bool_decide (Engagement.userId p = userId)
                        && inWindow startDate endDate p)
              (db_posts db).

Definition allPostsIn (db : Db) (startDate endDate : JS.Date) : list DbPost :=
  List.filter (inWindow startDate endDate) (db_posts db).

Definition userEngagementRateOf (db : Db) (startDate endDate : JS.Date)
    (userId : string) : JS.number :=
  let userPosts := userPostsIn db startDate endDate userId in
  rateOf (sumEngagements userPosts) (sumViews userPosts).

Definition platformEngagementRateOf (db : Db) (startDate endDate : JS.Date)
  : JS.number :=
  let allPosts := allPostsIn db startDate endDate in
  rateOf (sumEngagements allPosts) (sumViews allPosts).

Definition getUserEngagementComparison (host : JS.Host) (db : Db)
    (endDate startDate0 : JS.Date) (userId : string) (qPeriod : option string)
  : Response ComparisonResponse :=
  let period := orDefault qPeriod "month" in
  let startDate :=
    getUserEngagementComparison_startDate host period endDate startDate0 in
  match List.find (fun u => bool_decide (user_id u = userId)) (db_users db) with
  | None => NotFound "User not found"
  | Some user =>
      let userPosts := userPostsIn db startDate endDate userId in
      let userTotalEngagements := sumEngagements userPosts in
      let userEngagementRate :=
        userEngagementRateOf db startDate endDate userId in
      let allPosts := allPostsIn db startDate endDate in
      let platformEngagementRate :=
        platformEngagementRateOf db startDate endDate in
      let rank :=
        percentileOf userEngagementRate (allUserEngagementRates db allPosts) in
      Ok {| cr_userId := userId;
            cr_username := username user;
            cr_period := period;
            cr_from := startDate;
            cr_to := endDate;
            cr_totalPosts := length userPosts;
            cr_totalEngagements := userTotalEngagements;
            cr_engagementRate := JS.toFixed2 userEngagementRate;
            percentileRank := JS.toFixed2 rank;
            platform_engagementRate := JS.toFixed2 platformEngagementRate;
            comparison :=
              JS.toFixed2 (comparisonOf userEngagementRate
                                        platformEngagementRate) |}
  end.

End Engagement.

(** ** [lib/api.tsx]: the authenticating client used by [performRefresh] *)

Module ApiClient.

(** [response.data] of the authentication request; [access_token] and
    [expires_in] may be missing. *)
Record AuthResponse := {
  token_type : string;
  access_token : option string;
  expires_in : option Z;
}.

(** The outcome of [axios.post]: it throws, or it returns a response whose
    [data] may be empty. *)
Inductive PostResult : Type :=
| PostFails (e : string)
| PostReturns (data : option AuthResponse).

Record Client := {
  authToken : option string;
  tokenExpiry : Z;
}.

Definition newClient : Client := {| authToken := None; tokenExpiry := 0 |}.

(** A string is truthy when it is present and not empty. *)
Definition truthy (s : option string) : bool :=
  match s with
  | Some t => negb (bool_decide (t = ""))
  | None => false
  end.

(** [expires_in || 3600] *)
Definition lifetime (d : AuthResponse) : Z :=
  match expires_in d with
  | Some n => if n =? 0 then 3600 else n
  | None => 3600
  end.

(** [authenticate], resumed at time [now] with the outcome of the
    request: the new client, and the error thrown if any. *)
Definition authenticate (now : Z) (r : PostResult) (c : Client)
  : Client * option string :=
  match r with
  | PostFails e => (c, Some e)
  | PostReturns (Some d) =>
      if truthy (access_token d) then
        ({| authToken := access_token d;
            tokenExpiry := now + lifetime d * 1000 |}, None)
      else (c, Some "Invalid authentication response")
  | PostReturns None => (c, Some "Invalid authentication response")
  end.

(** [!!this.authToken && Date.now() < this.tokenExpiry - 60000] *)
Definition isTokenValid (now : Z) (c : Client) : bool :=
  truthy (authToken c) && (now <? tokenExpiry c - 60000).

(** [ensureAuthenticated]: [r] is the outcome of the request that is made
    when the token is not valid. *)
Definition ensureAuthenticated (now : Z) (r : PostResult) (c : Client)
  : Client * option string :=
  if isTokenValid now c then (c, None) else authenticate now r c.

End ApiClient.

(** ** [getTrendingTopics] *)

Module Topics.

(** Text is a sequence of UTF-16 code units. *)
Definition Text : Type := list N.

Definition hash : N := 35.
Definition at_sign : N := 64.

Definition between (lo hi c : N) : bool := ((lo <=? c) && (c <=? hi))%N.

(** [\w] *)
Definition isWord (c : N) : bool :=
  between 48 57 c || between 65 90 c || between 97 122 c || (c =? 95)%N.

(** [[\w\u0590-\u05FF\u0621-\u064A\u4E00-\u9FFF\u3040-\u309F\u30A0-\u30FF]] *)
Definition isHashtagChar (c : N) : bool :=
  isWord c || between 0x0590 0x05FF c || between 0x0621 0x064A c
  || between 0x4E00 0x9FFF c || between 0x3040 0x309F c
  || between 0x30A0 0x30FF c.

(** [content.match(/m[cls]+/g) || []] for a marker [m] that is not in the
    class: the scan keeps the run of class characters that follows the
    last marker seen ([cur]), and emits marker and run when the run ends
    and is not empty. *)
Definition emit (marker : N) (cur : option Text) : list Text :=
  match cur with
  | Some (c :: run) => [marker :: c :: run]
  | _ => []
  end.

Fixpoint scan (marker : N) (cls : N -> bool) (cur : option Text) (s : Text)
  : list Text :=
  match s with
  | [] => emit marker cur
  | c :: s' =>
      match cur with
      | Some run =>
          if cls c then scan marker cls (Some (run ++ [c])) s'
          else emit marker cur
               ++ scan marker cls (if (c =? marker)%N then Some [] else None) s'
      | None =>
          scan marker cls (if (c =? marker)%N then Some [] else None) s'
      end
  end.

Definition hashtagsOf (content : Text) : list Text :=
  scan hash isHashtagChar None content.

Definition mentionsOf (content : Text) : list Text :=
  scan at_sign isWord None content.

Inductive TopicType : Type := hashtag | mention.

Record Topic := {
  text : Text;
  type : TopicType;
  count : nat;
  engagementScore : nat;
}.

Record TopicPost := {
  content : Text;
  tags : option (list Text);
  likes : nat;
  comments : nat;
  shares : nat;
}.

(** [topicsMap], a [Map] in insertion order keyed by the topic text: an
    existing topic is updated in place, a new one is appended. *)
Fixpoint bump (key : Text) (ty : TopicType) (totalEngagement : nat)
    (m : list Topic) : list Topic :=
  match m with
  | [] => [{| text := key; type := ty; count := 1;
              engagementScore := totalEngagement |}]
  | t :: m' =>
      if decide (text t = key)
      then {| text := text t; type := type t; count := count t + 1;
              engagementScore := engagementScore t + totalEngagement |} :: m'
      else t :: bump key ty totalEngagement m'
  end.

(** The tokens of one post, in the order in which the loop handles them:
    hashtags and mentions of the content, then [`#${tag}`] for the tags. *)
Definition tokensOf (p : TopicPost) : list (Text * TopicType) :=
  map (fun t => (t, hashtag)) (hashtagsOf (content p))
  ++ map (fun t => (t, mention)) (mentionsOf (content p))
  ++ map (fun tag => (hash :: tag, hashtag)) (default [] (tags p)).

Definition totalEngagement (p : TopicPost) : nat :=
  likes p + comments p + shares p.

Definition processPost (m : list Topic) (p : TopicPost) : list Topic :=
  foldl (fun m tok => bump tok.1 tok.2 (totalEngagement p) m) m (tokensOf p).

Definition byScoreDesc (a b : Topic) : JS.number :=
  JS.sub (JS.of_nat (engagementScore b)) (JS.of_nat (engagementScore a)).

(** The [topics] of the response, for the posts that the query returned. *)
Definition trendingTopics (limit : Z) (posts : list TopicPost) : list Topic :=
  JS.slice0 limit (JS.sort byScoreDesc (foldl processPost [] posts)).

End Topics.

(** ** [lib/utils]: [truncateText] *)

Module Utils.

(** ["..."] *)
Definition ellipsis : list N := [46; 46; 46]%N.

(** [text.length <= maxLength ? text : text.slice(0, maxLength) + "..."] *)
Definition truncateText (text : list N) (maxLength : Z) : list N :=
  if Z.of_nat (length text) <=? maxLength then text
  else JS.slice0 maxLength text ++ ellipsis.

End Utils.


(** ** Vocabulary of the specification *)

(** Number of posts of a raw snapshot written by user [uid]. *)
Definition postsBy (raw : DataService.RawData) (uid : string) : nat :=
  length (filter (fun p => DataService.post_userId p = uid)
                 (DataService.posts raw)).

(** Number of comments of a raw snapshot attached to post id [pid]. *)
Definition commentsOn (raw : DataService.RawData) (pid : string) : nat :=
  length (filter (fun cm => DataService.comment_postId cm = pid)
                 (DataService.comments raw)).

(** The largest comment count among the posts of the snapshot, [0] when
    there is no post. *)
Definition maxCommentsOverPosts (raw : DataService.RawData) : nat :=
  max_list (map (fun p => commentsOn raw (DataService.post_id p))
                (DataService.posts raw)).

(** The largest comment count among the post ids that comments refer to,
    [0] when there is no comment. *)
Definition maxCommentsOverComments (raw : DataService.RawData) : nat :=
  max_list (map (fun cm => commentsOn raw (DataService.comment_postId cm))
                (DataService.comments raw)).

(** Every comment refers to a post of the snapshot. *)
Definition commentsReferToPosts (raw : DataService.RawData) : Prop :=
  Forall (fun cm => DataService.comment_postId cm
                    ∈ map DataService.post_id (DataService.posts raw))
         (DataService.comments raw).

(** What the fetch of a refresh settles its promise with. *)
Definition settledOf (r : DataService.FetchResult) : DataService.Settled :=
  match r with
  | DataService.FetchOk _ _ _ => DataService.Fulfilled
  | DataService.FetchErr e => DataService.Rejected e
  end.

(** A burst of [refreshData] calls, none of which is interleaved with
    another event: the final world and the handle of each caller. *)
Fixpoint callAll (w : DataService.World) (calls : list (bool * Z))
  : DataService.World * list DataService.Handle :=
  match calls with
  | [] => (w, [])
  | (force, now) :: calls' =>
      let '(w1, h) := DataService.refreshData force now w in
      let '(w2, hs) := callAll w1 calls' in
      (w2, h :: hs)
  end.

(** A call passes the freshness gate when it is forced or finds the
    cache stale. *)
Definition triggers (w : DataService.World) (call : bool * Z) : bool :=
  negb (negb call.1 && DataService.isCacheFresh call.2 (DataService.cache w)).

(** The worlds that the event loop can reach from a new service. *)
Definition reachable (host : JS.Host) (w : DataService.World) : Prop :=
  exists evs, DataService.run host DataService.newService evs = Some w.

(** The bookkeeping invariant of the coordinator: a refresh whose
    starter has not run its [finally] block is the one stored in
    [refreshPromise]; a pending refresh has not been resumed; and every
    refresh made exactly one upstream call. *)
Record coordinated (w : DataService.World) : Prop := {
  unresumed_is_current :
    forall p r, DataService.refreshes w !! p = Some r ->
                DataService.resumed r = false ->
                DataService.refreshPromise w = Some p;
  pending_unresumed :
    forall p r, DataService.refreshes w !! p = Some r ->
                DataService.state r = DataService.Pending ->
                DataService.resumed r = false;
  current_unresumed :
    forall p, DataService.refreshPromise w = Some p ->
              exists r, DataService.refreshes w !! p = Some r
                        /\ DataService.resumed r = false;
  one_fetch_per_refresh :
    DataService.fetchCalls w = length (DataService.refreshes w);
}.

(** Two numbers are the same value: rationals are compared by their
    value, not by their representation as a fraction. *)
Definition sameNumber (x y : JS.number) : Prop :=
  match x, y with
  | JS.Fin a, JS.Fin b => (a == b)%Q
  | JS.PosInf, JS.PosInf | JS.NegInf, JS.NegInf | JS.NaN, JS.NaN => True
  | _, _ => False
  end.

(** [q] has at most two decimals and is within half a hundredth of [x]. *)
Definition roundedTo2 (x q : Q) : Prop :=
  (exists n : Z, q == inject_Z n / 100)%Q /\ (Qabs (q - x) <= 1 # 200)%Q.

(** The order of the engagement ranking: more engagements first, and
    among equal engagements the rate that is not smaller first. *)
Definition ranksBefore (a b : Engagement.PostWithEngagement) : Prop :=
  let ma := Engagement.engagementMetrics a in
  let mb := Engagement.engagementMetrics b in
  (Engagement.totalEngagements mb < Engagement.totalEngagements ma)%nat
  \/ (Engagement.totalEngagements ma = Engagement.totalEngagements mb
      /\ JS.ge (Engagement.engagementRate ma) (Engagement.engagementRate mb)
         = true).

(** The entries built by [withEngagement] carry a finite rate. *)
Definition finiteRate (e : Engagement.PostWithEngagement) : Prop :=
  exists q, Engagement.engagementRate (Engagement.engagementMetrics e)
            = JS.Fin q.

Definition finiteNumber (x : JS.number) : Prop := exists q, x = JS.Fin q.

(** [i] is the position of the first rate that is [>= u]. *)
Definition firstAtLeast (u : JS.number) (rates : list JS.number) (i : nat)
  : Prop :=
  (exists r, rates !! i = Some r /\ JS.ge r u = true)
  /\ forall j r, (j < i)%nat -> rates !! j = Some r -> JS.ge r u = false.

(** The timestamp of a post is a date for the host: its time value is a
    number, not NaN. *)
Definition validTimestamp (host : JS.Host) (p : DataService.Post) : Prop :=
  is_Some (JS.Date_parse host (DataService.post_timestamp p)).

(** The time value of a post whose timestamp is a date. *)
Definition postTime (host : JS.Host) (p : DataService.Post) : Z :=
  default 0 (JS.Date_parse host (DataService.post_timestamp p)).

(** The three [compute...] steps of a refresh, in the order of
    [performRefresh]. *)
Definition recompute (host : JS.Host) (c : DataService.CacheData)
  : DataService.CacheData :=
  DataService.computePopularPosts
    (DataService.computeLatestPosts host (DataService.computeTopUsers c)).

(** The views that a refresh computes from a raw snapshot. *)
Definition viewsOf (host : JS.Host) (raw : DataService.RawData)
  : DataService.Computed :=
  DataService.computed
    (recompute host
               {| DataService.rawData := raw;
                  DataService.computed :=
                    DataService.computed DataService.initialCache;
                  DataService.lastFetched := 0 |}).

(** What [performRefresh] stores for a fetched result. *)
Definition fetchedData (us : option (list DataService.User))
    (ps : option (list DataService.Post))
    (cs : option (list DataService.Comment)) : DataService.RawData :=
  {| DataService.users := default [] us;
     DataService.posts := default [] ps;
     DataService.comments := default [] cs |}.

(** No fetch of the service has succeeded so far. *)
Definition neverFetched (w : DataService.World) : Prop :=
  forall p r, DataService.refreshes w !! p = Some r ->
              DataService.state r <> DataService.Done DataService.Fulfilled.

(** Number of rates strictly below [u]. *)
Definition strictlyBelow (u : JS.number) (rates : list JS.number) : nat :=
  length (filter (fun r => JS.ge r u = false) rates).

(** A record store whose post ids are unique. *)
Definition uniquePostIds (db : Engagement.Db) : Prop :=
  NoDup (map Engagement.id (Engagement.db_posts db)).

(** The totals that [userPostsMap] holds for author [u]. *)
Definition totalsOf (u : string) (m : Engagement.UserTotals)
  : option (nat * nat) :=
  snd <$> List.find (fun entry => bool_decide (entry.1 = u)) m.

(** The code units of an ASCII string. *)
Definition codeUnits (s : string) : Topics.Text :=
  map N_of_ascii (list_ascii_of_string s).

(** Every token occurrence of a list of posts, with the engagement of the
    post it occurs in, in processing order. *)
Definition occurrencesOf (posts : list Topics.TopicPost)
  : list (Topics.Text * Topics.TopicType * nat) :=
  flat_map (fun p => map (fun tok => (tok, Topics.totalEngagement p))
                         (Topics.tokensOf p))
           posts.

Definition occurrencesOfText (k : Topics.Text) (posts : list Topics.TopicPost)
  : list (Topics.Text * Topics.TopicType * nat) :=
  filter (fun o => o.1.1 = k) (occurrencesOf posts).

(** The topics map after a list of occurrences has been counted. *)
Definition bumpAll (m : list Topics.Topic)
    (occs : list (Topics.Text * Topics.TopicType * nat)) : list Topics.Topic :=
  foldl (fun m o => Topics.bump o.1.1 o.1.2 o.2 m) m occs.

(** The entry of [topicsMap] with key [k]. *)
Definition topicOf (k : Topics.Text) (m : list Topics.Topic)
  : option Topics.Topic :=
  List.find (fun t => bool_decide (Topics.text t = k)) m.

(** A token: the marker followed by a non-empty run of class characters. *)
Definition wellFormedToken (marker : N) (cls : N -> bool) (tok : Topics.Text)
  : Prop :=
  exists c run, tok = marker :: c :: run /\ Forall (fun x => cls x = true) (c :: run).

(** [tok] is a contiguous part of [s]. *)
Definition partOf (tok s : Topics.Text) : Prop :=
  exists l1 l2, s = l1 ++ tok ++ l2.

(** The change of the zone offset of the host over the [len]
    milliseconds of local time that end at [t]: the offset at [t] minus
    the offset at the local time [len] earlier. *)
Definition zoneShift (host : JS.Host) (t len : Z) : Z :=
  JS.LocalTZA host t true
  - JS.LocalTZA host (JS.LocalTime host t - len) false.

(** A host whose local time is at the same offset from UTC at all
    times. *)
Definition fixedOffset (host : JS.Host) : Prop :=
  forall t t' isUTC isUTC',
    JS.LocalTZA host t isUTC = JS.LocalTZA host t' isUTC'.

(** ** Hosts used in examples *)

(** A host whose local time is UTC and whose [Date] parser knows the
    standard format only. *)
Definition utcHost : JS.Host :=
  {| JS.LocalTZA := fun _ _ => 0; JS.parseFallback := fun _ => None |}.

(** New York in 2023: local time is UTC-5, and UTC-4 from
    2023-03-12T07:00:00Z to 2023-11-05T06:00:00Z.  A local time that a
    transition skips or repeats is read with the offset before the
    transition. *)
Definition newYork2023 : JS.Host :=
  {| JS.LocalTZA := fun t isUTC =>
       if isUTC then
         if (1678604400000 <=? t) && (t <? 1699164000000)
         then -14400000 else -18000000
       else
         if (1678590000000 <=? t) && (t <? 1699149600000)
         then -14400000 else -18000000;
     JS.parseFallback := fun _ => None |}.

(** ** Concrete snapshots used in examples *)

Definition mkUser (i name : string) : DataService.User :=
  {| DataService.user_id := i; DataService.user_name := name;
     DataService.user_email := "" |}.

Definition mkPost (i u : string) : DataService.Post :=
  {| DataService.post_id := i; DataService.post_userId := u;
     DataService.post_title := ""; DataService.post_content := "";
     DataService.post_timestamp := "2024-01-01T00:00:00Z" |}.

Definition mkComment (i p : string) : DataService.Comment :=
  {| DataService.comment_id := i; DataService.comment_postId := p;
     DataService.comment_userId := ""; DataService.comment_content := "";
     DataService.comment_timestamp := "2024-01-02T00:00:00Z" |}.

Definition cacheOf (raw : DataService.RawData) : DataService.CacheData :=
  {| DataService.rawData := raw;
     DataService.computed := DataService.computed DataService.initialCache;
     DataService.lastFetched := 0 |}.

(** One post with one comment, and two comments on a post id that the
    snapshot does not contain. *)
Definition orphanSnapshot : DataService.RawData :=
  {| DataService.users := [mkUser "u1" "ann"];
     DataService.posts := [mkPost "p1" "u1"];
     DataService.comments :=
       [mkComment "c1" "p1"; mkComment "c2" "gone"; mkComment "c3" "gone"] |}.

(** Comments, and no post at all. *)
Definition noPosts : DataService.RawData :=
  {| DataService.users := [mkUser "u1" "ann"];
     DataService.posts := [];
     DataService.comments := [mkComment "c1" "p1"; mkComment "c2" "p1"] |}.

(** The scenario of the specification: p1 has 3 comments, p2 and p3 have
    5 each. *)
Definition tiedSnapshot : DataService.RawData :=
  {| DataService.users := [mkUser "u1" "ann"];
     DataService.posts := [mkPost "p1" "u1"; mkPost "p2" "u1"; mkPost "p3" "u2"];
     DataService.comments :=
       [mkComment "c1" "p1"; mkComment "c2" "p2"; mkComment "c3" "p3";
        mkComment "c4" "p1"; mkComment "c5" "p2"; mkComment "c6" "p3";
        mkComment "c7" "p1"; mkComment "c8" "p2"; mkComment "c9" "p3";
        mkComment "c10" "p2"; mkComment "c11" "p3";
        mkComment "c12" "p2"; mkComment "c13" "p3"] |}.

Definition mkPostAt (i u timestamp : string) : DataService.Post :=
  {| DataService.post_id := i; DataService.post_userId := u;
     DataService.post_title := ""; DataService.post_content := "";
     DataService.post_timestamp := timestamp |}.

(** Seven posts, in no order of time, with timestamps in the forms of
    the date-time string format. *)
Definition sevenPosts : DataService.RawData :=
  {| DataService.users := [mkUser "u1" "ann"];
     DataService.posts :=
       [mkPostAt "p1" "u1" "2024-01-05T10:00:00Z";
        mkPostAt "p2" "u1" "2024-01-07";
        mkPostAt "p3" "u1" "2024-01-06T12:30:00.500+05:30";
        mkPostAt "p4" "u1" "2024-01-06T12:30";
        mkPostAt "p5" "u1" "2024-01-05T24:00:00Z";
        mkPostAt "p6" "u1" "2024-01";
        mkPostAt "p7" "u1" "2023-12-31T23:59:59.999Z"];
     DataService.comments := [mkComment "c1" "p4"] |}.

(** A service on [utcHost] whose cache was filled by a first successful
    refresh (started at 1000, completed at 1200). *)
Definition warmUp : list DataService.Event :=
  [DataService.Call false 1000;
   DataService.FetchSettles 0
     (DataService.FetchOk (Some (DataService.users tiedSnapshot))
                          (Some (DataService.posts tiedSnapshot))
                          (Some (DataService.comments tiedSnapshot)))
     1200;
   DataService.Resume 0].

Definition warmWorld : DataService.World :=
  default DataService.newService
          (DataService.run utcHost DataService.newService warmUp).

(** The warm service at 5000, when the background timer has just forced a
    refresh (promise 1) whose fetch is still in flight. *)
Definition busyWorld : DataService.World :=
  default DataService.newService
          (DataService.run utcHost DataService.newService
                           (warmUp ++ [DataService.Call true 5000])).

(** ** Concrete record stores used in examples *)

Definition mkDbPost (i u : string) (t : Z) (l c sh v : nat) : Engagement.DbPost :=
  {| Engagement.id := i; Engagement.userId := u; Engagement.createdAt := t;
     Engagement._count :=
       {| Engagement.likes := l; Engagement.comments := c;
          Engagement.shares := sh; Engagement.views := v |} |}.

Definition mkDbUser (i name : string) : Engagement.DbUser :=
  {| Engagement.user_id := i; Engagement.username := name |}.

(** 2023-11-14T22:13:20Z *)
Definition clock : JS.Date := 1700000000000.

(** Two authors with one recent post each: u1 has rate 50, u2 rate 10. *)
Definition twoAuthors : Engagement.Db :=
  {| Engagement.db_users := [mkDbUser "u1" "ann"; mkDbUser "u2" "bob"];
     Engagement.db_posts :=
       [mkDbPost "p1" "u1" 1699900000000 3 1 1 10;
        mkDbPost "p2" "u2" 1699900000000 1 0 0 10] |}.

(** A user whose only recent post has not been viewed. *)
Definition unseenPost : Engagement.Db :=
  {| Engagement.db_users := [mkDbUser "u1" "ann"];
     Engagement.db_posts := [mkDbPost "p1" "u1" 1699900000000 0 0 0 0] |}.

(** A user whose only post dates from 2020-09-13. *)
Definition oldPost : Engagement.Db :=
  {| Engagement.db_users := [mkDbUser "u1" "ann"];
     Engagement.db_posts := [mkDbPost "p1" "u1" 1600000000000 4 1 0 10] |}.

(** Three recent posts with 5, 2 and 1 engagements. *)
Definition threePosts : Engagement.Db :=
  {| Engagement.db_users := [mkDbUser "u1" "ann"];
     Engagement.db_posts :=
       [mkDbPost "p1" "u1" 1699900000000 1 0 0 10;
        mkDbPost "p2" "u1" 1699900000000 5 0 0 10;
        mkDbPost "p3" "u1" 1699900000000 2 0 0 10] |}.

(** Four recent posts of one author; the last one has the most
    engagements. *)
Definition fourPosts : Engagement.Db :=
  {| Engagement.db_users := [mkDbUser "u1" "ann"];
     Engagement.db_posts :=
       [mkDbPost "p1" "u1" 1699900000000 1 0 0 10;
        mkDbPost "p2" "u1" 1699900000000 2 0 0 10;
        mkDbPost "p3" "u1" 1699900000000 3 0 0 10;
        mkDbPost "p4" "u1" 1699900000000 9 0 0 10] |}.

(** An author with the empty id: the grouping loop skips that author's
    posts, so the author's own rate is not in the list of rates. *)
Definition unlistedAuthor : Engagement.Db :=
  {| Engagement.db_users := [mkDbUser "" "anon"; mkDbUser "u2" "bob"];
     Engagement.db_posts :=
       [mkDbPost "p1" "" 1699900000000 3 1 1 10;
        mkDbPost "p2" "u2" 1699900000000 1 0 0 10] |}.

(** * Properties *)

(** ** Facts about the runtime model *)

Section RuntimeExamples.

(** Equal keys keep their order; larger keys come first under a
    descending comparator. *)
Example sort_stable_example :
  JS.sort (fun a b => JS.sub (JS.of_nat b.1) (JS.of_nat a.1))
          [(1, "a"); (2, "b"); (1, "c"); (2, "d")]%nat
  = [(2, "b"); (2, "d"); (1, "a"); (1, "c")]%nat.
Proof. reflexivity. Qed.

Example slice0_examples :
  JS.slice0 2 [1; 2; 3] = [1; 2] /\ JS.slice0 5 [1; 2; 3] = [1; 2; 3]
  /\ JS.slice0 (-1) [1; 2; 3] = [1; 2] /\ JS.slice0 (-4) [1; 2; 3] = [].
Proof. repeat split. Qed.

(** 2024-03-31 with the month set to February is 2024-03-02; January
    minus one month is December of the year before. *)
Example setMonth_examples :
  JS.civil_from_days (JS.Day (JS.setMonth utcHost 1711843200000 1))
  = (2024, 3, 2)
  /\ JS.civil_from_days (JS.Day (JS.setMonth utcHost 1705276800000 (-1)))
     = (2023, 12, 15)
  /\ JS.civil_from_days (JS.Day (JS.setDate utcHost 1709251200000 0))
     = (2024, 2, 29).
Proof. vm_compute. repeat split. Qed.

(** The forms of the date-time string format: a time in UTC, a date, a
    time at an offset, a local time, the end of a day, a month; a day
    that the month does not have and free text are left to the host,
    for which [utcHost] answers NaN. *)
Example Date_parse_examples :
  JS.Date_parse utcHost "2023-11-14T22:13:20Z" = Some 1700000000000
  /\ JS.Date_parse utcHost "2024-01-07" = Some 1704585600000
  /\ JS.Date_parse utcHost "2024-01-06T12:30:00.500+05:30"
     = Some 1704524400500
  /\ JS.Date_parse utcHost "2024-01-06T12:30" = Some 1704544200000
  /\ JS.Date_parse utcHost "2024-01-05T24:00:00Z" = Some 1704499200000
  /\ JS.Date_parse utcHost "2024-01" = Some 1704067200000
  /\ JS.Date_parse newYork2023 "2023-07-01T12:00" = Some 1688227200000
  /\ JS.Date_parse newYork2023 "2023-07-01T12:00Z" = Some 1688212800000
  /\ JS.parseISO utcHost "2023-02-30" = None
  /\ JS.parseISO utcHost "yesterday" = None
  /\ JS.Date_getTime utcHost "yesterday" = JS.NaN.
Proof. vm_compute. repeat split. Qed.

(** Local time in New York: noon UTC is 08:00 on a summer day and 07:00
    on a winter day; the day of the month is the local one. *)
Example local_time_examples :
  JS.LocalTime newYork2023 1688212800000 = 1688212800000 - 4 * 3600000
  /\ JS.LocalTime newYork2023 1699185600000 = 1699185600000 - 5 * 3600000
  /\ JS.getDate newYork2023 1688180400000 = 30
  /\ JS.getDate utcHost 1688180400000 = 1.
Proof. vm_compute. repeat split. Qed.

(** The UTC host has a fixed offset; New York has not. *)
Example fixedOffset_examples :
  fixedOffset utcHost /\ ~ fixedOffset newYork2023.
Proof.
  split; [intros t t' b b'; reflexivity|].
  intros H. specialize (H 0 1688212800000 true true).
  vm_compute in H. discriminate.
Qed.

Example division_examples :
  JS.div (JS.of_Z 0) (JS.of_Z 0) = JS.NaN
  /\ JS.div (JS.of_Z 3) (JS.of_Z 0) = JS.PosInf
  /\ JS.toFixed2 JS.NaN = JS.NaN.
Proof. repeat split. Qed.

End RuntimeExamples.

Section SortFacts.
Context {A : Type} (cmp : A -> A -> JS.number).

Local Abbreviation inOrder := (JS.inOrder cmp).

Lemma insert_sorted_Permutation x l :
  JS.insert_sorted cmp x l ≡ₚ x :: l.
Proof.
  induction l as [|y l IH]; simpl; [done|].
  destruct (JS.nonpositive (cmp x y)); [done|].
  rewrite IH. apply Permutation_swap.
Qed.

Lemma sort_Permutation l : JS.sort cmp l ≡ₚ l.
Proof.
  induction l as [|x l IH]; simpl; [done|].
  unfold JS.sort in *. simpl.
  rewrite insert_sorted_Permutation. by rewrite IH.
Qed.

Lemma sort_length l : length (JS.sort cmp l) = length l.
Proof. apply Permutation_length, sort_Permutation. Qed.

(** Sortedness needs a comparator that is total and transitive on the
    elements of the array. *)
Section Sorted.
Variable Inv : A -> Prop.
Hypothesis total : forall a b, Inv a -> Inv b -> inOrder a b \/ inOrder b a.
Hypothesis trans :
  forall a b c, Inv a -> Inv b -> Inv c ->
                inOrder a b -> inOrder b c -> inOrder a c.

Lemma insert_sorted_StronglySorted x l :
  Inv x -> Forall Inv l ->
  StronglySorted inOrder l ->
  StronglySorted inOrder (JS.insert_sorted cmp x l).
Proof.
  intros Hx Hl Hs. induction Hs as [|y l Hs IH Hy]; simpl.
  - repeat constructor.
  - apply Forall_cons in Hl as [Iy Il].
    destruct (JS.nonpositive (cmp x y)) eqn:E.
    + constructor; [by constructor|].
      constructor; [exact E|].
      rewrite Forall_forall in Hy, Il |- *. intros z Hz.
      apply (trans x y z); [done|done|by apply Il|exact E|by apply Hy].
    + constructor; [by apply IH|].
      rewrite insert_sorted_Permutation. constructor; [|done].
      destruct (total x y Hx Iy) as [H|H]; [|done].
      unfold JS.inOrder in H. congruence.
Qed.

Lemma sort_StronglySorted l :
  Forall Inv l -> StronglySorted inOrder (JS.sort cmp l).
Proof.
  induction 1 as [|x l Hx Hl IH]; [constructor|].
  unfold JS.sort in *. simpl.
  apply insert_sorted_StronglySorted; [done| |done].
  fold (JS.sort cmp l). by rewrite sort_Permutation.
Qed.
End Sorted.

(** Stability: a class [P] of elements none of which is ordered
    strictly after another keeps its order. *)
Section Stable.
Variable P : A -> Prop.
Context `{!forall x, Decision (P x)}.
Hypothesis tied : forall a b, P a -> P b -> inOrder a b.

Lemma insert_sorted_filter x l :
  filter P (JS.insert_sorted cmp x l) = filter P (x :: l).
Proof.
  induction l as [|y l IH]; simpl; [done|].
  destruct (JS.nonpositive (cmp x y)) eqn:E; [done|].
  rewrite filter_cons, IH, !filter_cons.
  destruct (decide (P y)) as [Py|], (decide (P x)) as [Px|]; try done.
  specialize (tied x y Px Py). unfold JS.inOrder in tied. congruence.
Qed.

Lemma sort_filter l : filter P (JS.sort cmp l) = filter P l.
Proof.
  induction l as [|x l IH]; [done|].
  unfold JS.sort in *. simpl.
  rewrite insert_sorted_filter, !filter_cons. by rewrite IH.
Qed.
End Stable.
End SortFacts.

Section ListFacts.
Context {A : Type}.

Lemma StronglySorted_mono (R R' : A -> A -> Prop) l :
  (forall a b, R a b -> R' a b) ->
  StronglySorted R l -> StronglySorted R' l.
Proof.
  intros HR. induction 1 as [|x l _ IH Hx]; constructor; [done|].
  eapply Forall_impl; [exact Hx|]. auto.
Qed.

Lemma StronglySorted_mono_on (Inv : A -> Prop) (R R' : A -> A -> Prop) l :
  (forall a b, Inv a -> Inv b -> R a b -> R' a b) ->
  Forall Inv l -> StronglySorted R l -> StronglySorted R' l.
Proof.
  intros HR Hl. induction 1 as [|x l _ IH Hx]; constructor.
  - apply IH. by apply Forall_cons in Hl as [_ ?].
  - apply Forall_cons in Hl as [Ix Il].
    rewrite Forall_forall in Hx, Il |- *. intros y Hy. apply HR; auto.
Qed.

Lemma StronglySorted_take (R : A -> A -> Prop) n l :
  StronglySorted R l -> StronglySorted R (take n l).
Proof.
  intros Hs. rewrite <- (take_drop n l) in Hs.
  by apply StronglySorted_app_1_l in Hs.
Qed.

Lemma filter_take_prefix (P : A -> Prop) `{!forall x, Decision (P x)} n l :
  filter P (take n l) `prefix_of` filter P l.
Proof.
  rewrite <- (take_drop n l) at 2. rewrite filter_app.
  by apply prefix_app_r.
Qed.

Lemma prefix_map {B} (f : A -> B) (l1 l2 : list A) :
  l1 `prefix_of` l2 -> map f l1 `prefix_of` map f l2.
Proof. intros [k ->]. exists (map f k). apply map_app. Qed.

Lemma filter_fmap_comm {B} (f : A -> B) (P : B -> Prop)
    `{!forall y, Decision (P y)} l :
  filter P (map f l) = map f (filter (fun x => P (f x)) l).
Proof.
  induction l as [|x l IH]; [done|]. simpl.
  rewrite !filter_cons. destruct (decide (P (f x))); simpl; by rewrite IH.
Qed.
End ListFacts.

Section NumberFacts.

Lemma nonpositive_sub_of_nat (a b : nat) :
  JS.nonpositive (JS.sub (JS.of_nat a) (JS.of_nat b)) = true <-> (a <= b)%nat.
Proof.
  unfold JS.of_nat, JS.of_Z. simpl. rewrite Qle_bool_iff.
  unfold Qminus. rewrite <- inject_Z_opp, <- inject_Z_plus.
  change 0%Q with (inject_Z 0). rewrite <- Zle_Qle. lia.
Qed.

End NumberFacts.

(** ** Aggregation engine *)

Section Counting.
Context {A : Type} (key : A -> string).

Lemma countBy_foldl (l : list A) (m : gmap string nat) (k : string) :
  default 0%nat (foldl (DataService.countInto key) m l !! k)
  = (default 0%nat (m !! k) + length (filter (fun x => key x = k) l))%nat.
Proof.
  revert m. induction l as [|x l IH]; intros m; simpl; [lia|].
  rewrite IH, filter_cons. unfold DataService.countInto.
  destruct (decide (key x = k)) as [->|Hne].
  - rewrite lookup_insert_eq. simpl. lia.
  - by rewrite lookup_insert_ne.
Qed.

(** The counter of [k] is the number of elements with key [k]. *)
Lemma countBy_lookup (l : list A) (k : string) :
  default 0%nat (DataService.countBy key l !! k)
  = length (filter (fun x => key x = k) l).
Proof. unfold DataService.countBy. by rewrite countBy_foldl, lookup_empty. Qed.
End Counting.

Section TopUsers.
Import DataService.

Lemma topUsers_unfold (c : CacheData) :
  topUsers (computed (computeTopUsers c))
  = take 5 (JS.sort byPostCountDesc
              (map (fun u => {| uws_user := u;
                                postCount := postsBy (rawData c) (user_id u) |})
                   (users (rawData c)))).
Proof.
  unfold computeTopUsers, set_topUsers. simpl. do 2 f_equal.
  apply map_ext. intros u. f_equal. apply countBy_lookup.
Qed.

Lemma byPostCountDesc_inOrder (a b : UserWithStats) :
  JS.inOrder byPostCountDesc a b <-> (postCount b <= postCount a)%nat.
Proof. apply nonpositive_sub_of_nat. Qed.

(** The scenario of the specification: one user with two posts. *)
Example topUsers_scenario :
  topUsers (computed (computeTopUsers
    (cacheOf {| users := [mkUser "u1" "ann"];
                posts := [mkPost "p1" "u1"; mkPost "p2" "u1"];
                comments := [] |})))
  = [{| uws_user := mkUser "u1" "ann"; postCount := 2 |}].
Proof. vm_compute. reflexivity. Qed.

(** C9. For every raw snapshot, [topUsers] has at most 5 entries, is
    sorted non-increasing by [postCount], and, for every count [k], the
    entries with [postCount = k] are an initial segment of the snapshot
    users that wrote [k] posts, in snapshot order. *)
Theorem topUsers_bounded_sorted_stable (c : CacheData) :
  let top := topUsers (computed (computeTopUsers c)) in
  (length top <= 5)%nat
  /\ StronglySorted (fun a b => (postCount b <= postCount a)%nat) top
  /\ forall k : nat,
       map uws_user (filter (fun u => postCount u = k) top)
       `prefix_of`
       filter (fun u => postsBy (rawData c) (user_id u) = k)
              (users (rawData c)).
Proof.
  cbv zeta. rewrite topUsers_unfold. split; [|split].
  - rewrite length_take. lia.
  - apply StronglySorted_take.
    eapply StronglySorted_mono;
      [intros a b; apply byPostCountDesc_inOrder|].
    apply (sort_StronglySorted _ (fun _ => True)).
    + intros a b _ _. rewrite !byPostCountDesc_inOrder. lia.
    + intros a b d _ _ _. rewrite !byPostCountDesc_inOrder. lia.
    + by apply Forall_true.
  - intros k.
    set (mk := fun u => {| uws_user := u;
                           postCount := postsBy (rawData c) (user_id u) |}).
    assert (filter (fun u => postsBy (rawData c) (user_id u) = k)
                   (users (rawData c))
            = map uws_user
                (filter (fun u => postCount u = k)
                        (JS.sort byPostCountDesc (map mk (users (rawData c))))))
      as ->.
    { rewrite sort_filter.
      - rewrite filter_fmap_comm, <- list_fmap_compose.
        symmetry. apply list_fmap_id.
      - intros a b Ha Hb. apply byPostCountDesc_inOrder. lia. }
    apply prefix_map, filter_take_prefix.
Qed.
End TopUsers.

Section PopularPosts.
Import DataService.

Lemma maxOf_foldl (l : list nat) (acc : nat) :
  foldl (fun mx count => if (mx <? count)%nat then count else mx) acc l
  = (acc `max` max_list l)%nat.
Proof.
  revert acc. induction l as [|x l IH]; intros acc; simpl; [lia|].
  rewrite IH. destruct (Nat.ltb_spec acc x); lia.
Qed.

Lemma maxOf_max_list (l : list nat) : maxOf l = max_list l.
Proof. unfold maxOf. by rewrite maxOf_foldl. Qed.

Lemma max_list_le (l : list nat) (b : nat) :
  Forall (fun x => (x <= b)%nat) l -> (max_list l <= b)%nat.
Proof. induction 1; simpl; lia. Qed.

(** A positive count has a witness. *)
Lemma commentsOn_pos (raw : RawData) (pid : string) :
  (0 < commentsOn raw pid)%nat ->
  exists cm, cm ∈ comments raw /\ comment_postId cm = pid.
Proof.
  unfold commentsOn. intros H.
  destruct (filter _ (comments raw)) as [|cm l] eqn:E; [simpl in H; lia|].
  assert (cm ∈ filter (fun cm => comment_postId cm = pid) (comments raw))
    as Hin by (rewrite E; left).
  apply list_elem_of_filter in Hin as [Hk Hin]. by exists cm.
Qed.

Lemma commentsOn_self (raw : RawData) (cm : Comment) :
  cm ∈ comments raw -> (0 < commentsOn raw (comment_postId cm))%nat.
Proof.
  intros H. unfold commentsOn.
  assert (cm ∈ filter (fun x => comment_postId x = comment_postId cm)
                      (comments raw)) as Hin
    by (by apply list_elem_of_filter).
  destruct (filter _ (comments raw)); [by apply not_elem_of_nil in Hin|].
  simpl. lia.
Qed.

(** The maximum found by the scan over the counter map is the largest
    count of a post id that occurs in the comments. *)
Lemma maxCommentCount_spec (raw : RawData) :
  maxOf (map_to_list (countBy comment_postId (comments raw))).*2
  = maxCommentsOverComments raw.
Proof.
  rewrite maxOf_max_list. unfold maxCommentsOverComments.
  set (m := countBy comment_postId (comments raw)).
  assert (Hm : forall k, default 0%nat (m !! k) = commentsOn raw k)
    by (intros k; apply countBy_lookup).
  apply Nat.le_antisymm; apply max_list_le, Forall_forall.
  - intros v Hv. apply list_elem_of_fmap in Hv as [[k v'] [-> Hkv]].
    apply elem_of_map_to_list in Hkv. simpl.
    specialize (Hm k). rewrite Hkv in Hm. simpl in Hm.
    destruct (decide (v' = 0%nat)) as [->|Hpos]; [lia|].
    destruct (commentsOn_pos raw k) as (cm & Hcm & Hk); [lia|].
    apply max_list_elem_of_le, list_elem_of_fmap.
    exists cm. by rewrite Hk.
  - intros v Hv. apply list_elem_of_fmap in Hv as (cm & -> & Hcm).
    pose proof (commentsOn_self raw cm Hcm) as Hpos.
    specialize (Hm (comment_postId cm)).
    destruct (m !! comment_postId cm) as [n|] eqn:E; simpl in Hm; [|lia].
    subst n. apply max_list_elem_of_le, list_elem_of_fmap.
    exists (comment_postId cm, commentsOn raw (comment_postId cm)).
    split; [done|]. by apply elem_of_map_to_list.
Qed.

(** What [computePopularPosts] stores, for every snapshot: the posts
    that have as many comments as the most commented post id. *)
Lemma popularPosts_unfold (c : CacheData) :
  popularPosts (computed (computePopularPosts c))
  = map (withStats (countBy comment_postId (comments (rawData c)))
                   (buildUserMap (users (rawData c))))
        (filter (fun p => commentsOn (rawData c) (post_id p)
                          = maxCommentsOverComments (rawData c))
                (posts (rawData c))).
Proof.
  unfold computePopularPosts, set_popularPosts. simpl. f_equal.
  rewrite maxCommentCount_spec.
  apply list_filter_iff. intros p. by rewrite countBy_lookup.
Qed.

(** When every comment refers to a snapshot post, that maximum is the
    maximum over the posts. *)
Lemma maxComments_agree (raw : RawData) :
  commentsReferToPosts raw ->
  maxCommentsOverComments raw = maxCommentsOverPosts raw.
Proof.
  intros Href. unfold maxCommentsOverComments, maxCommentsOverPosts.
  apply Nat.le_antisymm; apply max_list_le, Forall_forall.
  - intros v Hv. apply list_elem_of_fmap in Hv as (cm & -> & Hcm).
    unfold commentsReferToPosts in Href. rewrite Forall_forall in Href.
    specialize (Href cm Hcm).
    apply list_elem_of_fmap in Href as (p & Hp & Hin).
    apply max_list_elem_of_le, list_elem_of_fmap.
    exists p. by rewrite Hp.
  - intros v Hv. apply list_elem_of_fmap in Hv as (p & -> & Hp).
    destruct (decide (commentsOn raw (post_id p) = 0%nat)) as [->|Hpos];
      [lia|].
    destruct (commentsOn_pos raw (post_id p)) as (cm & Hcm & Hk); [lia|].
    apply max_list_elem_of_le, list_elem_of_fmap.
    exists cm. by rewrite Hk.
Qed.

(** C1, as the code has it.  For every raw snapshot in which every
    comment refers to a snapshot post, [popularPosts] holds exactly the
    posts whose comment count equals the maximum comment count over all
    posts, each with its comment count; for every raw snapshot whatever,
    an empty post list gives an empty [popularPosts]. *)
Theorem popularPosts_tied_for_max (c : CacheData) :
  let popular := popularPosts (computed (computePopularPosts c)) in
  (commentsReferToPosts (rawData c) ->
   map pws_post popular
   = filter (fun p => commentsOn (rawData c) (post_id p)
                      = maxCommentsOverPosts (rawData c))
            (posts (rawData c))
   /\ Forall (fun e => commentCount e
                       = commentsOn (rawData c) (post_id (pws_post e)))
             popular)
  /\ (posts (rawData c) = [] -> popular = []).
Proof.
  cbv zeta. rewrite popularPosts_unfold. split.
  - intros Href. rewrite maxComments_agree by done. split.
    + rewrite <- list_fmap_compose. apply list_fmap_id.
    + apply Forall_fmap, Forall_forall. intros p _. simpl.
      apply countBy_lookup.
  - intros ->. done.
Qed.

Lemma popularPosts_tied_for_max_witness :
  map (fun e => post_id (pws_post e))
      (popularPosts (computed (computePopularPosts (cacheOf tiedSnapshot))))
  = ["p2"; "p3"]
  /\ popularPosts (computed (computePopularPosts (cacheOf noPosts))) = [].
Proof.
  split.
  - destruct (popularPosts_tied_for_max (cacheOf tiedSnapshot)) as [H _].
    destruct H as [H _].
    + unfold commentsReferToPosts. simpl. repeat constructor; set_solver.
    + rewrite <- (map_map pws_post post_id). rewrite H. reflexivity.
  - apply (popularPosts_tied_for_max (cacheOf noPosts)). reflexivity.
Defined.

(** With comments on a post id that is not in the snapshot, the only
    post has the maximum comment count over all posts and is not in
    [popularPosts]. *)
Lemma popularPosts_orphan_comments :
  let c := cacheOf orphanSnapshot in
  commentsOn (rawData c) "p1" = maxCommentsOverPosts (rawData c)
  /\ popularPosts (computed (computePopularPosts c)) = []
  /\ map pws_post (popularPosts (computed (computePopularPosts c)))
     <> filter (fun p => commentsOn (rawData c) (post_id p)
                         = maxCommentsOverPosts (rawData c))
               (posts (rawData c)).
Proof. vm_compute. repeat split; discriminate. Qed.
End PopularPosts.

(** ** Refresh coordinator *)

Section Coordinator.
Import DataService.

Lemma coordinated_new : coordinated newService.
Proof. split; simpl; try done; intros p r H; by rewrite lookup_nil in H. Qed.

Lemma refreshData_joins (w : World) (p : nat) (force : bool) (now : Z) :
  refreshPromise w = Some p ->
  refreshData force now w
  = (w, if negb force && isCacheFresh now (cache w) then Returned
        else Joined p).
Proof.
  intros Hp. unfold refreshData. rewrite Hp.
  by destruct (negb force && isCacheFresh now (cache w)).
Qed.

Lemma inFlight_current (w : World) (p : nat) :
  coordinated w -> inFlight w p -> refreshPromise w = Some p.
Proof.
  intros Hw (r & Hr & Hs). eapply unresumed_is_current; eauto.
  eapply pending_unresumed; eauto.
Qed.

Lemma coordinated_call (w : World) (force : bool) (now : Z) :
  coordinated w -> coordinated (refreshData force now w).1.
Proof.
  intros Hw. unfold refreshData.
  destruct (negb force && isCacheFresh now (cache w)); [done|].
  destruct (refreshPromise w) as [p|] eqn:Hp; [done|]. simpl.
  split; simpl.
  - intros q r Hq Hres.
    apply lookup_app_Some in Hq as [Hq|[Hlen Hq]].
    + pose proof (unresumed_is_current w Hw q r Hq Hres). congruence.
    + apply list_lookup_singleton_Some in Hq as [Hq _].
      f_equal. lia.
  - intros q r Hq Hst.
    apply lookup_app_Some in Hq as [Hq|[Hlen Hq]].
    + eapply pending_unresumed; eauto.
    + apply list_lookup_singleton_Some in Hq as [_ <-]. done.
  - intros q [= <-]. eexists. split.
    + rewrite lookup_app_r by lia. rewrite Nat.sub_diag. reflexivity.
    + reflexivity.
  - rewrite length_app. simpl. rewrite (one_fetch_per_refresh w Hw). lia.
Qed.

Lemma coordinated_settle {host : JS.Host} (w : World) p r0 res now :
  coordinated w -> refreshes w !! p = Some r0 ->
  coordinated (performRefresh_settle host p res now w).
Proof.
  intros Hw Hp. unfold performRefresh_settle.
  destruct (performRefresh_body host res now (cache w)) as [c s].
  rewrite Hp. pose proof (lookup_lt_Some _ _ _ Hp) as Hlt.
  split; simpl.
  - intros q r Hq Hres. destruct (decide (q = p)) as [->|Hne].
    + rewrite list_lookup_insert_eq in Hq by done.
      injection Hq as <-. simpl in Hres.
      eapply unresumed_is_current; eauto.
    + rewrite list_lookup_insert_ne in Hq by done.
      eapply unresumed_is_current; eauto.
  - intros q r Hq Hst. destruct (decide (q = p)) as [->|Hne].
    + rewrite list_lookup_insert_eq in Hq by done.
      injection Hq as <-. done.
    + rewrite list_lookup_insert_ne in Hq by done.
      eapply pending_unresumed; eauto.
  - intros q Hq. destruct (current_unresumed w Hw q Hq) as (r & Hr & Hres).
    destruct (decide (q = p)) as [->|Hne].
    + rewrite list_lookup_insert_eq by done. eexists. split; [done|].
      simpl. congruence.
    + rewrite list_lookup_insert_ne by done. eauto.
  - rewrite length_insert. apply Hw.
Qed.

Lemma coordinated_finally (w : World) p r0 s :
  coordinated w -> refreshes w !! p = Some r0 ->
  state r0 = Done s -> resumed r0 = false ->
  coordinated (refreshData_finally p w).
Proof.
  intros Hw Hp Hst Hres. unfold refreshData_finally. rewrite Hp.
  pose proof (lookup_lt_Some _ _ _ Hp) as Hlt.
  pose proof (unresumed_is_current w Hw p r0 Hp Hres) as Hcur.
  split; simpl.
  - intros q r Hq Hr. destruct (decide (q = p)) as [->|Hne].
    + rewrite list_lookup_insert_eq in Hq by done.
      injection Hq as <-. done.
    + rewrite list_lookup_insert_ne in Hq by done.
      pose proof (unresumed_is_current w Hw q r Hq Hr). congruence.
  - intros q r Hq Hr. destruct (decide (q = p)) as [->|Hne].
    + rewrite list_lookup_insert_eq in Hq by done.
      injection Hq as <-. simpl in Hr. congruence.
    + rewrite list_lookup_insert_ne in Hq by done.
      eapply pending_unresumed; eauto.
  - done.
  - rewrite length_insert. apply Hw.
Qed.

Lemma coordinated_step {host : JS.Host} (w w' : World) (e : Event) :
  coordinated w -> step host w e = Some w' -> coordinated w'.
Proof.
  intros Hw Hstep. destruct e as [force now|p res now|p]; simpl in Hstep.
  - injection Hstep as <-. by apply coordinated_call.
  - destruct (refreshes w !! p) as [[st rs]|] eqn:Hp; [|done].
    destruct st; [|done]. injection Hstep as <-.
    eapply coordinated_settle; eauto.
  - destruct (refreshes w !! p) as [[st rs]|] eqn:Hp; [|done].
    destruct st as [|s]; [done|]. destruct rs; [done|].
    injection Hstep as <-. eapply coordinated_finally; eauto.
Qed.

Lemma coordinated_run {host : JS.Host} (evs : list Event) (w w' : World) :
  coordinated w -> run host w evs = Some w' -> coordinated w'.
Proof.
  revert w. induction evs as [|e evs IH]; intros w Hw Hrun; simpl in Hrun.
  - by injection Hrun as <-.
  - destruct (step host w e) as [w1|] eqn:Hstep; [|done]. simpl in Hrun.
    eapply IH; [|exact Hrun]. eapply coordinated_step; eauto.
Qed.

Lemma reachable_coordinated {host : JS.Host}
    (w : World) : reachable host w -> coordinated w.
Proof. intros [evs Hrun]. eapply coordinated_run; [apply coordinated_new|done]. Qed.

(** At most one refresh is in flight. *)
Lemma inFlight_unique (host : JS.Host) (w : World) (p q : nat) :
  reachable host w -> inFlight w p -> inFlight w q -> p = q.
Proof.
  intros Hw%reachable_coordinated Hp Hq.
  pose proof (inFlight_current w p Hw Hp).
  pose proof (inFlight_current w q Hw Hq). congruence.
Qed.

Lemma callAll_in_flight (w : World) (p : nat) (calls : list (bool * Z)) :
  refreshPromise w = Some p ->
  callAll w calls
  = (w, map (fun call => if triggers w call then Joined p else Returned) calls).
Proof.
  intros Hp. induction calls as [|[force now] calls IH]; simpl; [done|].
  rewrite (refreshData_joins w p) by done. rewrite IH.
  unfold triggers. simpl.
  by destruct (negb force && isCacheFresh now (cache w)).
Qed.

Lemma outcome_joined_after_settle {host : JS.Host}
    (w : World) (p : nat) res now :
  inFlight w p ->
  outcome (performRefresh_settle host p res now w) (Joined p)
  = Some (settledOf res).
Proof.
  intros (r & Hr & Hst). unfold performRefresh_settle, outcome.
  destruct (performRefresh_body host res now (cache w)) as [c s] eqn:Hb.
  rewrite Hr. simpl.
  rewrite list_lookup_insert_eq by (by eapply lookup_lt_Some).
  f_equal. destruct res; simpl in Hb; by injection Hb as _ <-.
Qed.

(** C2, as the code has it.  While a refresh [p] is in flight, a burst
    of [refreshData] calls, forced or not, starts no upstream fetch and
    leaves the service as it was; a caller that is forced or finds the
    cache stale is handed the in-flight promise [p] and observes the
    outcome of its fetch; a caller that is not forced and finds the
    cache fresh returns at once. *)
Theorem single_flight (host : JS.Host)
    (w : World) (p : nat) (calls : list (bool * Z)) :
  reachable host w -> inFlight w p ->
  (callAll w calls).1 = w
  /\ fetchCalls (callAll w calls).1 = fetchCalls w
  /\ (callAll w calls).2
     = map (fun call => if triggers w call then Joined p else Returned) calls
  /\ forall res now,
       outcome (performRefresh_settle host p res now w) (Joined p)
       = Some (settledOf res).
Proof.
  intros Hw Hp.
  pose proof (inFlight_current w p (reachable_coordinated w Hw) Hp) as Hcur.
  rewrite (callAll_in_flight w p calls Hcur). simpl.
  repeat split. intros res now. by apply outcome_joined_after_settle.
Qed.

(** From an idle service, a burst of calls whose first one passes the
    freshness gate makes exactly one upstream call. *)
Lemma burst_one_fetch (w : World) (first : bool * Z) (rest : list (bool * Z)) :
  coordinated w -> refreshPromise w = None -> triggers w first = true ->
  let p := length (refreshes w) in
  fetchCalls (callAll w (first :: rest)).1 = S (fetchCalls w)
  /\ exists w1, inFlight w1 p /\ cache w1 = cache w
     /\ (callAll w (first :: rest)).2
        = Started p
          :: map (fun call => if triggers w1 call then Joined p else Returned)
                 rest.
Proof.
  intros Hw Hnone Htrig. destruct first as [force now].
  unfold triggers in Htrig. simpl in Htrig. simpl.
  unfold refreshData. rewrite Hnone.
  destruct (negb force && isCacheFresh now (cache w)); [done|]. simpl.
  match goal with |- context [callAll ?x rest] => set (w1 := x) end.
  rewrite (callAll_in_flight w1 (length (refreshes w)) rest) by done.
  simpl. split; [done|]. exists w1. repeat split.
  exists {| state := Pending; resumed := false |}.
  split; [by apply list_lookup_middle|done].
Qed.

(** Once settled, a promise keeps its state. *)
Lemma done_stable_step {host : JS.Host}
    (w w' : World) (e : Event) (p : nat) r s :
  refreshes w !! p = Some r -> state r = Done s ->
  step host w e = Some w' ->
  exists r', refreshes w' !! p = Some r' /\ state r' = Done s.
Proof.
  intros Hp Hst Hstep. destruct e as [force now|q res now|q]; simpl in Hstep.
  - injection Hstep as <-. unfold refreshData.
    destruct (negb force && isCacheFresh now (cache w)); [eauto|].
    destruct (refreshPromise w); [eauto|]. simpl.
    exists r. split; [|done]. apply lookup_app_l_Some, Hp.
  - destruct (refreshes w !! q) as [[st rs]|] eqn:Hq; [|done].
    destruct st; [|done]. injection Hstep as <-.
    unfold performRefresh_settle.
    destruct (performRefresh_body host res now (cache w)) as [c s'].
    rewrite Hq. simpl. destruct (decide (p = q)) as [->|Hne].
    + rewrite Hq in Hp. injection Hp as <-. done.
    + rewrite list_lookup_insert_ne by done. eauto.
  - destruct (refreshes w !! q) as [[st rs]|] eqn:Hq; [|done].
    destruct st as [|s']; [done|]. destruct rs; [done|].
    injection Hstep as <-. unfold refreshData_finally. rewrite Hq. simpl.
    destruct (decide (p = q)) as [->|Hne].
    + rewrite list_lookup_insert_eq by (by eapply lookup_lt_Some).
      rewrite Hq in Hp. injection Hp as <-. eauto.
    + rewrite list_lookup_insert_ne by done. eauto.
Qed.

Lemma done_stable_run {host : JS.Host}
    (evs : list Event) (w w' : World) (p : nat) r s :
  refreshes w !! p = Some r -> state r = Done s ->
  run host w evs = Some w' ->
  exists r', refreshes w' !! p = Some r' /\ state r' = Done s.
Proof.
  revert w r. induction evs as [|e evs IH]; intros w r Hp Hst Hrun;
    simpl in Hrun.
  - injection Hrun as <-. eauto.
  - destruct (step host w e) as [w1|] eqn:Hstep; [|done]. simpl in Hrun.
    destruct (done_stable_step w w1 e p r s Hp Hst Hstep) as (r1 & H1 & H2).
    eapply IH; eauto.
Qed.

(** While a refresh stays in flight nothing happens to the service:
    every enabled event is a call that joins it or hits the cache. *)
Lemma in_flight_frame {host : JS.Host}
    (evs : list Event) (w w' : World) (p : nat) :
  coordinated w -> inFlight w p ->
  run host w evs = Some w' -> inFlight w' p -> w' = w.
Proof.
  intros Hw Hp. induction evs as [|e evs IH]; intros Hrun Hp'; simpl in Hrun.
  - by injection Hrun as <-.
  - destruct (step host w e) as [w1|] eqn:Hstep; [|done]. simpl in Hrun.
    pose proof (inFlight_current w p Hw Hp) as Hcur.
    destruct Hp as (r & Hr & Hst).
    assert (w1 = w) as ->; [|by apply IH].
    destruct e as [force now|q res now|q]; simpl in Hstep.
    + rewrite (refreshData_joins w p) in Hstep by done.
      by injection Hstep as <-.
    + exfalso.
      destruct (refreshes w !! q) as [[st rs]|] eqn:Hq; [|done].
      destruct st; [|done].
      assert (q = p) as ->.
      { pose proof (pending_unresumed w Hw q _ Hq eq_refl) as Hu.
        pose proof (unresumed_is_current w Hw q _ Hq Hu). congruence. }
      injection Hstep as <-.
      assert (exists r1 s,
                 refreshes (performRefresh_settle host p res now w) !! p
                           = Some r1 /\ state r1 = Done s)
        as (r1 & s & H1 & H2).
      { unfold performRefresh_settle.
        destruct (performRefresh_body host res now (cache w)) as [c s].
        rewrite Hq. simpl.
        rewrite list_lookup_insert_eq by (by eapply lookup_lt_Some). eauto. }
      destruct (done_stable_run evs _ w' p r1 s H1 H2 Hrun) as (r2 & H3 & H4).
      destruct Hp' as (r3 & H5 & H6). congruence.
    + exfalso.
      destruct (refreshes w !! q) as [[st rs]|] eqn:Hq; [|done].
      destruct st as [|s]; [done|]. destruct rs; [done|].
      pose proof (unresumed_is_current w Hw q _ Hq eq_refl). 
      assert (q = p) as -> by congruence.
      rewrite Hq in Hr. injection Hr as <-. done.
Qed.

(** C4. A refresh is started from a reachable service; whatever
    happens until its upstream fetch fails, the cache (raw data, the
    three computed views and [lastFetched]) is then exactly the cache
    from before the attempt. *)
Theorem failed_refresh_preserves_cache (host : JS.Host)
    (w w1 w2 w3 : World) (force : bool) (now now' : Z) (p : nat)
    (evs : list Event) (e : Error) :
  reachable host w ->
  refreshData force now w = (w1, Started p) ->
  run host w1 evs = Some w2 ->
  step host w2 (FetchSettles p (FetchErr e) now') = Some w3 ->
  cache w3 = cache w
  /\ rawData (cache w3) = rawData (cache w)
  /\ computed (cache w3) = computed (cache w)
  /\ lastFetched (cache w3) = lastFetched (cache w).
Proof.
  intros Hw Hcall Hrun Hfail.
  assert (cache w3 = cache w) as ->; [|done].
  pose proof (reachable_coordinated w Hw) as Hco.
  pose proof (coordinated_call w force now Hco) as Hco1.
  rewrite Hcall in Hco1. simpl in Hco1.
  assert (cache w1 = cache w /\ inFlight w1 p) as [Hc1 Hp1].
  { unfold refreshData in Hcall.
    destruct (negb force && isCacheFresh now (cache w)); [done|].
    destruct (refreshPromise w); [done|]. simpl in Hcall.
    injection Hcall as <- <-. split; [done|].
    exists {| state := Pending; resumed := false |}.
    split; [by apply list_lookup_middle|done]. }
  simpl in Hfail.
  destruct (refreshes w2 !! p) as [[st rs]|] eqn:Hq; [|done].
  destruct st; [|done]. injection Hfail as <-.
  assert (w2 = w1) as ->.
  { eapply in_flight_frame; eauto. eexists. split; [exact Hq|done]. }
  unfold performRefresh_settle. simpl. exact Hc1.
Qed.

Lemma reachable_warmWorld : reachable utcHost warmWorld.
Proof. exists warmUp. vm_compute. reflexivity. Qed.

Lemma reachable_busyWorld : reachable utcHost busyWorld.
Proof. exists (warmUp ++ [Call true 5000]). vm_compute. reflexivity. Qed.

Lemma inFlight_busyWorld : inFlight busyWorld 1.
Proof.
  exists {| state := Pending; resumed := false |}.
  split; vm_compute; reflexivity.
Qed.

Lemma single_flight_witness :
  (callAll busyWorld [(false, 5001); (true, 5002); (false, 30000)]).2
  = [Returned; Joined 1; Joined 1].
Proof.
  destruct (single_flight utcHost busyWorld 1
              [(false, 5001); (true, 5002); (false, 30000)]
              reachable_busyWorld inFlight_busyWorld) as (_ & _ & H & _).
  rewrite H. vm_compute. reflexivity.
Defined.

(** A reader that calls [refreshData()] at 5001, while the forced
    refresh 1 is in flight and the cache of 1200 is still fresh, is not
    handed the in-flight promise: it returns at once, and when the
    fetch then fails it has observed success where the joiners observe
    the failure. *)
Lemma fresh_caller_does_not_await :
  inFlight busyWorld 1
  /\ refreshData false 5001 busyWorld = (busyWorld, Returned)
  /\ refreshData false 5001 busyWorld <> (busyWorld, Joined 1)
  /\ outcome (performRefresh_settle utcHost 1 (FetchErr "upstream down") 5500
                                    busyWorld)
             (refreshData false 5001 busyWorld).2
     = Some Fulfilled
  /\ outcome (performRefresh_settle utcHost 1 (FetchErr "upstream down") 5500
                                    busyWorld)
             (Joined 1)
     = Some (Rejected "upstream down").
Proof.
  split; [exact inFlight_busyWorld|].
  vm_compute. repeat split; discriminate.
Qed.

Lemma failed_refresh_preserves_cache_witness :
  cache (performRefresh_settle utcHost 1 (FetchErr "upstream down") 5500
                               busyWorld)
  = cache warmWorld.
Proof.
  refine (proj1 (failed_refresh_preserves_cache
                   utcHost warmWorld busyWorld busyWorld _ true 5000 5500 1
                   [Call false 5001; Call true 5002] "upstream down"
                   reachable_warmWorld _ _ _));
    vm_compute; reflexivity.
Defined.

(** *** Read accessors *)

Lemma accessor_return_rejected {V} (view : Computed -> V) (w : World)
    (h : Handle) (e : Error) :
  outcome w h = Some (Rejected e) -> accessor_return view w h = Some (inl e).
Proof. intros H. unfold accessor_return. by rewrite H. Qed.

Lemma accessor_return_fulfilled {V} (view : Computed -> V) (w : World)
    (h : Handle) :
  outcome w h = Some Fulfilled ->
  accessor_return view w h = Some (inr (view (computed (cache w)))).
Proof. intros H. unfold accessor_return. by rewrite H. Qed.

(** The starter of a refresh whose fetch fails observes the failure
    after its [finally] block, and the cache is the one from before. *)
Lemma started_refresh_fails {host : JS.Host}
    (w w1 : World) (now now' : Z) (p : nat) (e : Error) :
  refreshData false now w = (w1, Started p) ->
  let w3 := refreshData_finally p
              (performRefresh_settle host p (FetchErr e) now' w1) in
  outcome w3 (Started p) = Some (Rejected e) /\ cache w3 = cache w.
Proof.
  intros Hcall. unfold refreshData in Hcall.
  destruct (negb false && isCacheFresh now (cache w)); [done|].
  destruct (refreshPromise w); [done|]. simpl in Hcall.
  injection Hcall as <- <-. cbv zeta.
  unfold performRefresh_settle, refreshData_finally, outcome. simpl.
  rewrite list_lookup_middle by done. simpl.
  rewrite list_lookup_insert_eq by (rewrite length_app; simpl; lia). simpl.
  rewrite list_lookup_insert_eq
    by (rewrite length_insert, length_app; simpl; lia).
  done.
Qed.

(** C3, as the code has it.  When the refresh that an accessor call
    triggers fails, the accessor rejects with the error of the fetch,
    whether or not an earlier fetch populated the cache; the cache is
    left as it was.  The cached view is what an accessor returns when
    its refresh is skipped (fresh cache) or succeeds. *)
Theorem accessor_propagates_refresh_failure (host : JS.Host)
    (w w1 : World) (now now' : Z) (p : nat) (e : Error) :
  let w3 := refreshData_finally p
              (performRefresh_settle host p (FetchErr e) now' w1) in
  (getTopUsers now w = (w1, Started p) ->
   getTopUsers_return w3 (Started p) = Some (inl e) /\ cache w3 = cache w)
  /\ (getLatestPosts now w = (w1, Started p) ->
      getLatestPosts_return w3 (Started p) = Some (inl e)
      /\ cache w3 = cache w)
  /\ (getPopularPosts now w = (w1, Started p) ->
      getPopularPosts_return w3 (Started p) = Some (inl e)
      /\ cache w3 = cache w)
  /\ (isCacheFresh now (cache w) = true ->
      getTopUsers now w = (w, Returned)
      /\ getTopUsers_return w Returned
         = Some (inr (topUsers (computed (cache w))))).
Proof.
  cbv zeta. repeat split.
  - apply accessor_return_rejected.
    by destruct (started_refresh_fails (host:=host) w w1 now now' p e H).
  - by destruct (started_refresh_fails (host:=host) w w1 now now' p e H).
  - apply accessor_return_rejected.
    by destruct (started_refresh_fails (host:=host) w w1 now now' p e H).
  - by destruct (started_refresh_fails (host:=host) w w1 now now' p e H).
  - apply accessor_return_rejected.
    by destruct (started_refresh_fails (host:=host) w w1 now now' p e H).
  - by destruct (started_refresh_fails (host:=host) w w1 now now' p e H).
  - unfold getTopUsers, refreshData. by rewrite H.
Qed.

Lemma accessor_propagates_refresh_failure_witness :
  getTopUsers_return
    (refreshData_finally 1
       (performRefresh_settle utcHost 1 (FetchErr "upstream down") 20500
                              (getTopUsers 20000 warmWorld).1))
    (Started 1)
  = Some (inl "upstream down")
  /\ getLatestPosts_return
       (refreshData_finally 1
          (performRefresh_settle utcHost 1 (FetchErr "upstream down") 20500
                                 (getLatestPosts 20000 warmWorld).1))
       (Started 1)
     = Some (inl "upstream down")
  /\ getPopularPosts_return
       (refreshData_finally 1
          (performRefresh_settle utcHost 1 (FetchErr "upstream down") 20500
                                 (getPopularPosts 20000 warmWorld).1))
       (Started 1)
     = Some (inl "upstream down")
  /\ getTopUsers_return warmWorld Returned
     = Some (inr (topUsers (computed (cache warmWorld)))).
Proof.
  destruct (accessor_propagates_refresh_failure
              utcHost warmWorld (getTopUsers 20000 warmWorld).1 20000 20500 1
              "upstream down") as (H1 & H2 & H3 & _).
  destruct (accessor_propagates_refresh_failure
              utcHost warmWorld (getTopUsers 5000 warmWorld).1 5000 20500 1
              "upstream down") as (_ & _ & _ & H4).
  split; [apply H1; vm_compute; reflexivity|].
  split; [apply H2; vm_compute; reflexivity|].
  split; [apply H3; vm_compute; reflexivity|].
  apply H4; vm_compute; reflexivity.
Defined.

(** The cache holds the views of a successful fetch (completed at 1200);
    at 20000 it is stale, [getTopUsers] starts refresh 1, the fetch
    fails, and the accessor rejects with the error instead of returning
    the stale view. *)
Lemma accessor_rejects_despite_populated_cache :
  0 < lastFetched (cache warmWorld)
  /\ topUsers (computed (cache warmWorld)) <> []
  /\ (getTopUsers 20000 warmWorld).2 = Started 1
  /\ getTopUsers_return
       (refreshData_finally 1
          (performRefresh_settle utcHost 1 (FetchErr "upstream down") 20500
                                 (getTopUsers 20000 warmWorld).1))
       (Started 1)
     = Some (inl "upstream down")
  /\ getTopUsers_return
       (refreshData_finally 1
          (performRefresh_settle utcHost 1 (FetchErr "upstream down") 20500
                                 (getTopUsers 20000 warmWorld).1))
       (Started 1)
     <> Some (inr (topUsers (computed (cache warmWorld)))).
Proof. vm_compute. repeat split; discriminate. Qed.
End Coordinator.

(** ** Engagement metrics *)

Section Rounding.

Lemma round2_pos_rounded (x : Q) : roundedTo2 x (JS.round2_pos x).
Proof.
  unfold roundedTo2, JS.round2_pos.
  set (n := Qfloor (x * 100 + (1 # 2))).
  split; [by exists n|].
  pose proof (Qfloor_le (x * 100 + (1 # 2))) as Hlo.
  pose proof (Qlt_floor (x * 100 + (1 # 2))) as Hhi.
  fold n in Hlo, Hhi. rewrite inject_Z_plus in Hhi.
  change (inject_Z 1) with 1%Q in Hhi.
  assert (inject_Z n / 100 == inject_Z n * (1 # 100))%Q as E
    by (unfold Qdiv; reflexivity).
  apply Qabs_Qle_condition. split; rewrite E; lra.
Qed.

Lemma round2_rounded (x : Q) : roundedTo2 x (JS.round2 x).
Proof.
  unfold JS.round2. destruct (Qle_bool 0 x); [apply round2_pos_rounded|].
  destruct (round2_pos_rounded (- x)) as [[n Hn] Habs].
  split.
  - exists (- n)%Z. rewrite Hn, inject_Z_opp. field.
  - rewrite <- Qabs_opp.
    assert (- (- JS.round2_pos (- x) - x) == JS.round2_pos (- x) - - x)%Q
      as -> by ring.
    exact Habs.
Qed.

Lemma round2_zero (x : Q) : (x == 0)%Q -> (JS.round2 x == 0)%Q.
Proof.
  intros Hx. unfold JS.round2.
  assert (Qle_bool 0 x = true) as -> by (apply Qle_bool_iff; lra).
  unfold JS.round2_pos.
  assert (Qfloor (x * 100 + (1 # 2)) = 0%Z) as ->; [|reflexivity].
  assert (x * 100 + (1 # 2) == 1 # 2)%Q as -> by lra. reflexivity.
Qed.

Lemma round2_proper (x y : Q) : (x == y)%Q -> (JS.round2 x == JS.round2 y)%Q.
Proof.
  intros E. unfold JS.round2, JS.round2_pos. rewrite E.
  destruct (Qle_bool 0 y); by rewrite E.
Qed.

End Rounding.

Section Rates.
Import Engagement.

Lemma of_nat_is_zero (n : nat) :
  Qeq_bool (inject_Z (Z.of_nat n)) 0 = true <-> n = 0%nat.
Proof.
  rewrite Qeq_bool_iff. change 0%Q with (inject_Z 0).
  rewrite inject_Z_injective. lia.
Qed.

Lemma rateOf_pos (e v : nat) :
  (0 < v)%nat ->
  rateOf e v
  = JS.Fin (inject_Z (Z.of_nat e) / inject_Z (Z.of_nat v) * inject_Z 100).
Proof.
  intros Hv. unfold rateOf.
  destruct (Nat.ltb_spec 0 v) as [_|]; [|lia]. simpl.
  destruct (Qeq_bool (inject_Z (Z.of_nat v)) 0) eqn:E; [|done].
  apply of_nat_is_zero in E. lia.
Qed.

Lemma rateOf_zero (e : nat) : rateOf e 0 = JS.of_Z 0.
Proof. reflexivity. Qed.

(** A rate is a finite, non-negative number. *)
Lemma rateOf_finite (e v : nat) : exists q, rateOf e v = JS.Fin q /\ (0 <= q)%Q.
Proof.
  destruct v as [|v].
  - exists (inject_Z 0). split; [done|]. unfold Qle. simpl. lia.
  - rewrite rateOf_pos by lia. eexists. split; [done|].
    apply Qmult_le_0_compat; [|done].
    apply Qle_shift_div_l.
    + change 0%Q with (inject_Z 0). rewrite <- Zlt_Qlt. lia.
    + rewrite Qmult_0_l. change 0%Q with (inject_Z 0). rewrite <- Zle_Qle. lia.
Qed.

Lemma ge_Fin (a b : Q) : JS.ge (JS.Fin a) (JS.Fin b) = true <-> (b <= a)%Q.
Proof. simpl. apply Qle_bool_iff. Qed.

Lemma nonpositive_sub_Fin (a b : Q) :
  JS.nonpositive (JS.sub (JS.Fin a) (JS.Fin b)) = true <-> (a <= b)%Q.
Proof. simpl. rewrite Qle_bool_iff. split; intros; lra. Qed.

(** C8. For every post of an engagement computation, [totalEngagements]
    is [likes + comments + shares] (the views are not part of the sum);
    [engagementRate] is a finite number, never NaN; it is 0 when the post
    has no view, and otherwise [totalEngagements / views * 100] rounded
    to two decimals. *)
Theorem engagement_metrics_per_post (p : DbPost) :
  let c := _count p in
  let m := engagementMetrics (withEngagement p) in
  totalEngagements m = (likes c + comments c + shares c)%nat
  /\ JS.is_finite (engagementRate m) = true
  /\ JS.is_nan (engagementRate m) = false
  /\ (views c = 0%nat -> sameNumber (engagementRate m) (JS.of_Z 0))
  /\ ((0 < views c)%nat ->
      exists q, engagementRate m = JS.Fin q
                /\ roundedTo2 (inject_Z (Z.of_nat (totalEngagements m))
                               / inject_Z (Z.of_nat (views c)) * 100) q).
Proof.
  cbv zeta. unfold withEngagement. simpl.
  destruct (rateOf_finite (postEngagements p) (views (_count p)))
    as (q & Hq & _).
  rewrite Hq. simpl. repeat split.
  - intros Hv. rewrite Hv, rateOf_zero in Hq. injection Hq as <-.
    by apply round2_zero.
  - intros Hv. rewrite rateOf_pos in Hq by done. injection Hq as <-.
    eexists. split; [done|]. apply round2_rounded.
Qed.

Lemma engagement_metrics_per_post_witness :
  sameNumber
    (engagementRate
       (engagementMetrics (withEngagement (mkDbPost "p" "u" clock 3 1 1 0))))
    (JS.of_Z 0)
  /\ exists q,
      engagementRate
        (engagementMetrics (withEngagement (mkDbPost "p" "u" clock 1 0 0 8)))
      = JS.Fin q
      /\ roundedTo2 (inject_Z 1 / inject_Z 8 * 100) q.
Proof.
  split.
  - apply (engagement_metrics_per_post (mkDbPost "p" "u" clock 3 1 1 0)).
    reflexivity.
  - apply (engagement_metrics_per_post (mkDbPost "p" "u" clock 1 0 0 8)).
    simpl. lia.
Defined.

End Rates.

Section Ranking.
Import Engagement.

Lemma withEngagement_finiteRate (p : DbPost) : finiteRate (withEngagement p).
Proof.
  unfold finiteRate, withEngagement. simpl.
  destruct (rateOf_finite (postEngagements p) (views (_count p)))
    as (q & -> & _).
  by eexists.
Qed.

Lemma byEngagement_inOrder (a b : PostWithEngagement) :
  finiteRate a -> finiteRate b ->
  JS.inOrder byEngagement a b <-> ranksBefore a b.
Proof.
  intros [qa Ha] [qb Hb]. unfold JS.inOrder, byEngagement, ranksBefore.
  cbv zeta. rewrite Ha, Hb.
  destruct (decide (totalEngagements (engagementMetrics b)
                    = totalEngagements (engagementMetrics a))) as [E|N].
  - rewrite nonpositive_sub_Fin, ge_Fin. split.
    + intros H. right. split; [done|exact H].
    + intros [H|[_ H]]; [lia|exact H].
  - rewrite nonpositive_sub_of_nat. split.
    + intros H. left. lia.
    + intros [H|[H _]]; [lia|congruence].
Qed.

Lemma ranksBefore_total (a b : PostWithEngagement) :
  finiteRate a -> finiteRate b -> ranksBefore a b \/ ranksBefore b a.
Proof.
  intros [qa Ha] [qb Hb]. unfold ranksBefore. cbv zeta. rewrite Ha, Hb.
  rewrite !ge_Fin.
  destruct (lt_eq_lt_dec (totalEngagements (engagementMetrics a))
                         (totalEngagements (engagementMetrics b)))
    as [[H|H]|H]; [by right; left| |by left; left].
  destruct (Qlt_le_dec qa qb) as [Hq|Hq].
  - right. right. split; [done|]. lra.
  - left. right. done.
Qed.

Lemma ranksBefore_trans (a b c : PostWithEngagement) :
  finiteRate a -> finiteRate b -> finiteRate c ->
  ranksBefore a b -> ranksBefore b c -> ranksBefore a c.
Proof.
  intros [qa Ha] [qb Hb] [qc Hc]. unfold ranksBefore. cbv zeta.
  rewrite Ha, Hb, Hc, !ge_Fin.
  intros [H1|[H1 Q1]] [H2|[H2 Q2]]; try (left; lia).
  right. split; [lia|lra].
Qed.

Lemma sorted_by_engagement (l : list PostWithEngagement) :
  Forall finiteRate l -> StronglySorted ranksBefore (JS.sort byEngagement l).
Proof.
  intros Hl.
  assert (Forall finiteRate (JS.sort byEngagement l)) as Hs
    by (by rewrite sort_Permutation).
  pose proof (sort_StronglySorted byEngagement finiteRate) as H.
  cut (StronglySorted (JS.inOrder byEngagement) (JS.sort byEngagement l)).
  - intros Hsorted. clear H. induction Hsorted as [|x k _ IH Hx];
      constructor.
    + apply IH. by apply Forall_cons in Hs as [_ ?].
    + apply Forall_cons in Hs as [Ix Ik].
      rewrite Forall_forall in Hx, Ik |- *. intros y Hy.
      apply byEngagement_inOrder; auto.
  - apply H; [| |done].
    + intros a b Ia Ib. rewrite !byEngagement_inOrder by done.
      by apply ranksBefore_total.
    + intros a b c Ia Ib Ic. rewrite !byEngagement_inOrder by done.
      by apply ranksBefore_trans.
Qed.

(** [slice(0, n)] keeps an initial segment, for every [n]. *)
Lemma slice0_take {A} (n : Z) (l : list A) :
  exists k, JS.slice0 n l = take k l.
Proof. unfold JS.slice0. destruct (0 <=? n); eauto. Qed.

Lemma slice0_length {A} (n : Z) (l : list A) :
  0 <= n -> Z.of_nat (length (JS.slice0 n l)) <= n.
Proof.
  intros Hn. unfold JS.slice0.
  destruct (Z.leb_spec 0 n); [|lia]. rewrite length_take. lia.
Qed.

(** The ranking of the rows that the query returned: sorted, made of
    these rows, and closed under strictly higher engagement. *)
Lemma rankPosts_ranking (limit : Z) (posts : list DbPost) :
  let out := rankPosts limit posts in
  StronglySorted ranksBefore out
  /\ (forall c r,
        c ∈ map withEngagement posts -> r ∈ out ->
        (totalEngagements (engagementMetrics r)
         < totalEngagements (engagementMetrics c))%nat ->
        c ∈ out)
  /\ (forall r, r ∈ out -> r ∈ map withEngagement posts).
Proof.
  cbv zeta. unfold rankPosts.
  set (cands := map withEngagement posts).
  assert (Forall finiteRate cands) as Hfin.
  { apply Forall_fmap, Forall_forall. intros p _.
    apply withEngagement_finiteRate. }
  pose proof (sorted_by_engagement cands Hfin) as Hsorted.
  destruct (slice0_take limit (JS.sort byEngagement cands)) as [k Hk].
  split; [|split].
  - rewrite Hk. by apply StronglySorted_take.
  - rewrite Hk. intros c r Hc Hr Hlt.
    rewrite <- (sort_Permutation byEngagement) in Hc.
    rewrite <- (take_drop k (JS.sort byEngagement cands)) in Hc, Hsorted.
    apply elem_of_app in Hc as [Hc|Hc]; [done|]. exfalso.
    pose proof (StronglySorted_app_1_elem_of _ _ _ r c Hsorted Hr Hc) as Hrc.
    destruct Hrc as [H|[H _]]; lia.
  - rewrite Hk. intros r Hr.
    rewrite <- (sort_Permutation byEngagement cands).
    by apply (subseteq_take k).
Qed.

Lemma rankPosts_length (limit : Z) (posts : list DbPost) :
  length (rankPosts limit posts)
  = if 0 <=? limit then (Z.to_nat limit `min` length posts)%nat
    else (length posts - Z.to_nat (- limit))%nat.
Proof.
  unfold rankPosts, JS.slice0.
  destruct (0 <=? limit); rewrite length_take, !sort_length, !length_map; lia.
Qed.

(** C7, as the code has it.  The posts that are ranked are the rows that
    the query fetched: of the stored posts that lie in the window and
    pass the user filter, in the order of the store, the first
    [3 * limit] (the last [3 * |limit|] for a negative limit).  The
    output is made of fetched rows with their metrics, is sorted
    descending by [totalEngagements] with ties ordered by descending
    [engagementRate], and contains every fetched row that has strictly
    more engagements than a returned one.  For a limit that is not
    negative it has [min limit m] entries, [m] being the number of
    matching posts; for a negative limit [slice(0, limit)] drops the
    last [|limit|] of the ranked rows instead. *)
Theorem popular_posts_ranking (host : JS.Host) (db : Db)
    (endDate startDate0 : JS.Date) (qUserId qPeriod : option string)
    (qLimit : option Z) :
  let r := getPopularPosts host db endDate startDate0 qUserId qPeriod qLimit in
  let limit := limitOrDefault qLimit in
  let matching :=
    List.filter (fun p => inWindow (pp_from r) (pp_to r) p
                          && matchesUser qUserId p)
                (db_posts db) in
  let fetched := prisma_take (limit * 3) matching in
  StronglySorted ranksBefore (pp_posts r)
  /\ (forall e, e ∈ pp_posts r ->
                post e ∈ fetched /\ e = withEngagement (post e))
  /\ (forall p e,
        p ∈ fetched -> e ∈ pp_posts r ->
        (totalEngagements (engagementMetrics e) < postEngagements p)%nat ->
        withEngagement p ∈ pp_posts r)
  /\ (0 <= limit ->
      fetched = take (Z.to_nat (limit * 3)) matching
      /\ length (pp_posts r) = (Z.to_nat limit `min` length matching)%nat
      /\ Z.of_nat (length (pp_posts r)) <= limit)
  /\ (limit < 0 ->
      fetched = drop (length matching - Z.to_nat (- (limit * 3))) matching
      /\ length (pp_posts r) = (length fetched - Z.to_nat (- limit))%nat).
Proof.
  cbv zeta. unfold getPopularPosts.
  cbn [pp_posts pp_from pp_to].
  set (limit := limitOrDefault qLimit).
  set (startDate := getPopularPosts_startDate host _ endDate startDate0).
  set (matching := List.filter _ (db_posts db)).
  set (fetched := prisma_take (limit * 3) matching).
  destruct (rankPosts_ranking limit fetched) as (Hsorted & Hclosed & Hsub).
  cbv zeta in Hsorted, Hclosed, Hsub.
  pose proof (rankPosts_length limit fetched) as Hlen.
  split; [done|]. split; [|split; [|split]].
  - intros e He. apply Hsub, list_elem_of_fmap in He as (p & -> & Hp). done.
  - intros p e Hp He Hlt. apply (Hclosed _ e); [|done|done].
    apply list_elem_of_fmap. by exists p.
  - intros Hpos. unfold fetched, prisma_take in *.
    destruct (Z.leb_spec 0 (limit * 3)); [|lia].
    destruct (Z.leb_spec 0 limit); [|lia].
    rewrite length_take in Hlen. split; [done|]. lia.
  - intros Hneg. unfold fetched, prisma_take in *.
    destruct (Z.leb_spec 0 (limit * 3)); [lia|].
    destruct (Z.leb_spec 0 limit); [lia|]. done.
Qed.

(** Three matching posts and a limit of 2: two posts are returned. *)
Lemma popular_posts_ranking_witness :
  length (pp_posts (getPopularPosts utcHost threePosts clock clock
                                    None None (Some 2)))
  = 2%nat.
Proof.
  destruct (popular_posts_ranking utcHost threePosts clock clock
                                  None None (Some 2))
    as (_ & _ & _ & Hpos & _).
  destruct Hpos as (_ & Hlen & _); [vm_compute; discriminate|].
  rewrite Hlen. reflexivity.
Defined.

(** Four posts of the last week and [?limit=1]: the query fetches the
    first three rows, p3 is the best of them and is returned; p4, which
    lies in the window and has 9 engagements against the 3 of p3, was
    not fetched and is not returned. *)
Lemma unfetched_post_is_not_ranked :
  let r := getPopularPosts utcHost fourPosts clock clock None None (Some 1) in
  map (fun e => postId (engagementMetrics e)) (pp_posts r) = ["p3"]
  /\ map (fun e => totalEngagements (engagementMetrics e)) (pp_posts r)
     = [3%nat]
  /\ exists p,
      p ∈ db_posts fourPosts
      /\ id p = "p4"
      /\ inWindow (pp_from r) (pp_to r) p = true
      /\ postEngagements p = 9%nat
      /\ withEngagement p ∉ pp_posts r.
Proof.
  cbv zeta. split; [vm_compute; reflexivity|].
  split; [vm_compute; reflexivity|].
  exists (mkDbPost "p4" "u1" 1699900000000 9 0 0 10).
  split; [unfold fourPosts; simpl; set_solver|].
  split; [reflexivity|]. split; [vm_compute; reflexivity|].
  split; [reflexivity|].
  intros Hin.
  apply (list_elem_of_fmap_2 (fun e => postId (engagementMetrics e))) in Hin.
  vm_compute in Hin. apply list_elem_of_singleton in Hin. discriminate.
Qed.

(** With [?limit=-1] the limit is -1, the query returns the three posts
    and [slice(0, -1)] keeps two of them: more entries than the limit. *)
Lemma negative_limit_not_a_bound :
  limitOrDefault (Some (-1)) = -1
  /\ map (fun e => postId (engagementMetrics e))
         (pp_posts (getPopularPosts utcHost threePosts clock clock
                                    None None (Some (-1))))
     = ["p2"; "p3"]
  /\ ~ (Z.of_nat (length (pp_posts (getPopularPosts utcHost threePosts
                                      clock clock None None (Some (-1)))))
        <= -1).
Proof.
  vm_compute. repeat split; try reflexivity.
  intros H. by apply H.
Qed.

End Ranking.

(** ** Percentile ranking *)

Section Percentile.
Import Engagement.

Lemma findIndex_first {A} (p : A -> bool) (l : list A) (i : nat) :
  JS.findIndex p l = Some i
  <-> (exists x, l !! i = Some x /\ p x = true)
      /\ forall j x, (j < i)%nat -> l !! j = Some x -> p x = false.
Proof.
  revert i. induction l as [|y l IH]; intros i; simpl.
  - split; [done|]. intros [(x & Hx & _) _]. by rewrite lookup_nil in Hx.
  - destruct (p y) eqn:Hy.
    + split.
      * intros [= <-]. split; [by exists y|]. intros j x Hj. lia.
      * intros [_ Hfirst]. destruct i as [|i]; [done|].
        specialize (Hfirst 0%nat y). simpl in Hfirst.
        rewrite Hfirst in Hy; [done|lia|done].
    + split.
      * intros H. apply fmap_Some in H as (k & Hk & ->).
        apply IH in Hk as [Hx Hfirst]. split; [done|].
        intros [|j] x Hj Hl; simpl in Hl.
        -- by injection Hl as <-.
        -- apply (Hfirst j); [lia|done].
      * intros [(x & Hx & Hpx) Hfirst]. destruct i as [|i].
        -- simpl in Hx. injection Hx as <-. congruence.
        -- apply fmap_Some. exists i. split; [|done].
           apply IH. split; [by exists x|].
           intros j z Hj Hl. apply (Hfirst (S j)); [lia|done].
Qed.

Lemma findIndex_none {A} (p : A -> bool) (l : list A) :
  (forall x, x ∈ l -> p x = false) -> JS.findIndex p l = None.
Proof.
  induction l as [|y l IH]; intros H; simpl; [done|].
  rewrite (H y) by left. rewrite IH; [done|]. intros x Hx. apply H. by right.
Qed.

Lemma ascending_inOrder (a b : JS.number) :
  finiteNumber a -> finiteNumber b ->
  JS.inOrder ascending a b <-> JS.ge b a = true.
Proof.
  intros [qa ->] [qb ->]. unfold JS.inOrder, ascending.
  by rewrite nonpositive_sub_Fin, ge_Fin.
Qed.

Lemma rates_finite (db : Db) (allPosts : list DbPost) :
  Forall finiteNumber (allUserEngagementRates db allPosts).
Proof.
  unfold allUserEngagementRates. rewrite sort_Permutation.
  apply Forall_fmap, Forall_forall. intros entry _. simpl.
  destruct (rateOf_finite entry.2.1 entry.2.2) as (q & Hq & _).
  by exists q.
Qed.

(** The list that the percentile is read from is in ascending order. *)
Lemma rates_sorted (db : Db) (allPosts : list DbPost) :
  StronglySorted (fun a b => JS.ge b a = true)
                 (allUserEngagementRates db allPosts).
Proof.
  apply (StronglySorted_mono_on finiteNumber (JS.inOrder ascending)).
  - intros a b Ia Ib. by apply ascending_inOrder.
  - apply rates_finite.
  - unfold allUserEngagementRates.
    apply (sort_StronglySorted ascending finiteNumber).
    + intros [] [] [qa Ha] [qb Hb]; try done.
      rewrite !ascending_inOrder, !ge_Fin by (by eexists).
      destruct (Qlt_le_dec q q0); [left; lra|by right].
    + intros [] [] [] [qa Ha] [qb Hb] [qc Hc]; try done.
      rewrite !ascending_inOrder, !ge_Fin by (by eexists). intros; lra.
    + apply Forall_fmap, Forall_forall. intros entry _. simpl.
      destruct (rateOf_finite entry.2.1 entry.2.2) as (q & Hq & _).
      by exists q.
Qed.

Lemma sameNumber_refl (x : JS.number) : sameNumber x x.
Proof. destruct x; simpl; [reflexivity|done..]. Qed.

Lemma ge_false_Fin (a b : Q) : JS.ge (JS.Fin a) (JS.Fin b) = false <-> (a < b)%Q.
Proof.
  simpl. destruct (Qle_bool b a) eqn:E.
  - apply Qle_bool_iff in E. split; [done|]. intros. lra.
  - split; [|done]. intros _. apply Qnot_le_lt. intros H.
    apply Qle_bool_iff in H. congruence.
Qed.

Lemma filter_none {A} (P : A -> Prop) `{!forall x, Decision (P x)} (l : list A) :
  (forall x, x ∈ l -> ~ P x) -> filter P l = [].
Proof.
  induction l as [|y l IH]; intros Hall; [done|].
  rewrite filter_cons. destruct (decide (P y)) as [Py|_].
  - destruct (Hall y); [left|done].
  - apply IH. intros x Hx. apply Hall. by right.
Qed.

Lemma findIndex_none_inv {A} (p : A -> bool) (l : list A) :
  JS.findIndex p l = None -> forall x, x ∈ l -> p x = false.
Proof.
  induction l as [|y l IH]; simpl; intros H x Hx.
  - by apply not_elem_of_nil in Hx.
  - destruct (p y) eqn:Hy; [done|].
    destruct (JS.findIndex p l); [done|].
    apply elem_of_cons in Hx as [->|Hx]; [done|]. by apply IH.
Qed.

(** In an ascending list the position of the first rate that reaches
    [u] is the number of rates strictly below [u]. *)
Lemma findIndex_counts_lower (u : JS.number) (rates : list JS.number) :
  finiteNumber u -> Forall finiteNumber rates ->
  StronglySorted (fun a b => JS.ge b a = true) rates ->
  match JS.findIndex (fun r => JS.ge r u) rates with
  | Some i => strictlyBelow u rates = i /\ (i < length rates)%nat
  | None => strictlyBelow u rates = length rates
  end.
Proof.
  intros [qu ->] Hfin Hs. unfold strictlyBelow.
  induction Hs as [|r l Hs IH Hr]; simpl; [done|].
  apply Forall_cons in Hfin as [[qr ->] Hfin]. specialize (IH Hfin).
  rewrite filter_cons.
  destruct (JS.ge (JS.Fin qr) (JS.Fin qu)) eqn:E.
  - destruct (decide (true = false)); [done|]. split; [|simpl; lia].
    apply ge_Fin in E.
    assert (filter (fun r => JS.ge r (JS.Fin qu) = false) l = []) as ->; [|done].
    apply filter_none. intros x Hx.
    rewrite Forall_forall in Hr, Hfin.
    destruct (Hfin x Hx) as [qx ->]. specialize (Hr _ Hx).
    apply ge_Fin in Hr. intros Hlt%ge_false_Fin. lra.
  - destruct (decide (false = false)); [|done].
    destruct (JS.findIndex _ l) as [k|]; simpl.
    + destruct IH as [-> Hk]. split; lia.
    + by rewrite IH.
Qed.

Lemma userRate_finite (db : Db) (s e : JS.Date) (userId : string) :
  finiteNumber (userEngagementRateOf db s e userId).
Proof.
  unfold userEngagementRateOf. cbv zeta.
  destruct (rateOf_finite (sumEngagements (userPostsIn db s e userId))
                          (sumViews (userPostsIn db s e userId)))
    as (q & -> & _).
  by exists q.
Qed.

(** *** The target's own rate is in the list *)

Lemma find_unique (l : list DbPost) (p : DbPost) :
  NoDup (map id l) -> p ∈ l ->
  List.find (fun x => bool_decide (id x = id p)) l = Some p.
Proof.
  induction l as [|y l IH]; simpl; intros Hnd Hp.
  - by apply not_elem_of_nil in Hp.
  - apply NoDup_cons in Hnd as [Hy Hnd].
    apply elem_of_cons in Hp as [->|Hp].
    + by rewrite bool_decide_eq_true_2.
    + rewrite bool_decide_eq_false_2; [by apply IH|].
      intros E. apply Hy. rewrite E. apply list_elem_of_fmap. eauto.
Qed.

Lemma accumulate_totalsOf (u u' : string) (e v : nat) (m : UserTotals) :
  totalsOf u' (accumulate u e v m)
  = if decide (u' = u)
    then Some (match totalsOf u m with
               | Some (e0, v0) => ((e0 + e)%nat, (v0 + v)%nat)
               | None => (e, v)
               end)
    else totalsOf u' m.
Proof.
  unfold totalsOf. destruct (decide (u' = u)) as [->|Hne].
  - induction m as [|[k [e0 v0]] m IH]; simpl.
    + by rewrite bool_decide_eq_true_2.
    + destruct (decide (k = u)) as [->|Hk]; simpl.
      * by rewrite !bool_decide_eq_true_2.
      * rewrite !bool_decide_eq_false_2 by done. exact IH.
  - induction m as [|[k [e0 v0]] m IH]; simpl.
    + by rewrite bool_decide_eq_false_2 by congruence.
    + destruct (decide (k = u)) as [->|Hk]; simpl.
      * rewrite !bool_decide_eq_false_2 by congruence. done.
      * destruct (bool_decide (k = u')); [done|exact IH].
Qed.

(** The totals stored for a named author, after the grouping loop has
    run over posts whose author can be resolved. *)
Lemma groupByUser_foldl (db : Db) (u : string) (l : list DbPost)
    (m : UserTotals) :
  u <> "" ->
  Forall (fun p => findPostUserId db (id p) = Some (userId p)) l ->
  totalsOf u
    (foldl (fun m p =>
              match findPostUserId db (id p) with
              | Some postUserId =>
                  if decide (postUserId = "") then m
                  else accumulate postUserId (postEngagements p)
                                  (views (_count p)) m
              | None => m
              end) m l)
  = match totalsOf u m,
          List.filter (fun p => bool_decide (userId p = u)) l with
    | None, [] => None
    | None, p :: ps =>
        Some (foldl (fun acc p => (acc + postEngagements p)%nat)
                    (postEngagements p) ps,
              foldl (fun acc p => (acc + views (_count p))%nat)
                    (views (_count p)) ps)
    | Some (e0, v0), ps =>
        Some (foldl (fun acc p => (acc + postEngagements p)%nat) e0 ps,
              foldl (fun acc p => (acc + views (_count p))%nat) v0 ps)
    end.
Proof.
  intros Hu Hres. revert m. induction Hres as [|p l Hp _ IH]; intros m; simpl.
  - by destruct (totalsOf u m) as [[e0 v0]|].
  - rewrite Hp, IH. destruct (decide (userId p = "")) as [E|E].
    + rewrite bool_decide_eq_false_2 by congruence. done.
    + rewrite accumulate_totalsOf.
      destruct (decide (u = userId p)) as [->|Hne].
      * rewrite bool_decide_eq_true_2 by done.
        by destruct (totalsOf (userId p) m) as [[e0 v0]|].
      * rewrite bool_decide_eq_false_2 by congruence. done.
Qed.

Lemma filter_andb {A} (f g : A -> bool) (l : list A) :
  List.filter (fun x => f x && g x) l = List.filter f (List.filter g l).
Proof.
  induction l as [|x l IH]; simpl; [done|].
  destruct (g x) eqn:Hg, (f x) eqn:Hf; simpl; rewrite ?Hf, IH; done.
Qed.

(** In a store with unique post ids, a user with a non-empty id and at
    least one post in the window has its own rate in the list of rates. *)
Lemma target_rate_is_listed (db : Db) (s e : JS.Date) (userId : string) :
  uniquePostIds db -> userId <> "" ->
  userPostsIn db s e userId <> [] ->
  userEngagementRateOf db s e userId
  ∈ allUserEngagementRates db (allPostsIn db s e).
Proof.
  intros Hnd Hid Hposts. unfold allUserEngagementRates.
  rewrite sort_Permutation.
  assert (Forall (fun p => findPostUserId db (id p) = Some (Engagement.userId p))
                 (allPostsIn db s e)) as Hres.
  { apply Forall_forall. intros p Hp. unfold allPostsIn in Hp.
    apply list_elem_of_In, filter_In in Hp as [Hp _].
    apply list_elem_of_In in Hp.
    unfold findPostUserId. by rewrite (find_unique _ p Hnd Hp). }
  pose proof (groupByUser_foldl db userId (allPostsIn db s e) [] Hid Hres)
    as Hgroup.
  fold (groupByUser db (allPostsIn db s e)) in Hgroup.
  assert (List.filter (fun p => bool_decide (Engagement.userId p = userId))
                      (allPostsIn db s e)
          = userPostsIn db s e userId) as Hsame
    by (unfold userPostsIn, allPostsIn; by rewrite filter_andb).
  rewrite Hsame in Hgroup. change (totalsOf userId []) with (@None (nat * nat))
    in Hgroup.
  unfold userEngagementRateOf. cbv zeta.
  destruct (userPostsIn db s e userId) as [|p ps] eqn:E; [done|].
  unfold totalsOf in Hgroup.
  destruct (List.find _ (groupByUser db (allPostsIn db s e)))
    as [[k [e0 v0]]|] eqn:Hfind; [|done].
  apply find_some in Hfind as [Hin Hk]. simpl in Hgroup.
  injection Hgroup as -> ->.
  apply list_elem_of_fmap. eexists. split; [|by apply list_elem_of_In].
  reflexivity.
Qed.

(** *** The authors of the window *)

Lemma accumulate_keys (u : string) (e v : nat) (m : UserTotals) :
  map fst (accumulate u e v m)
  = if decide (u ∈ map fst m) then map fst m else map fst m ++ [u].
Proof.
  induction m as [|[k [e0 v0]] m IH]; simpl.
  - destruct (decide (u ∈ [])) as [H|_]; [|done].
    by apply not_elem_of_nil in H.
  - destruct (decide (k = u)) as [->|Hk]; simpl.
    + destruct (decide (u ∈ u :: map fst m)) as [_|H]; [done|].
      destruct H. left.
    + rewrite IH. destruct (decide (u ∈ map fst m)) as [Hin|Hout].
      * destruct (decide (u ∈ k :: map fst m)) as [_|H]; [done|].
        destruct H. by right.
      * destruct (decide (u ∈ k :: map fst m)) as [H|_]; [|done].
        apply elem_of_cons in H as [->|H]; done.
Qed.

(** [userPostsMap] has one entry for each author. *)
Lemma groupByUser_NoDup (db : Db) (allPosts : list DbPost) :
  NoDup (map fst (groupByUser db allPosts)).
Proof.
  unfold groupByUser.
  cut (forall m : UserTotals,
         NoDup (map fst m) ->
         NoDup (map fst
                  (foldl (fun m p =>
                            match findPostUserId db (id p) with
                            | Some postUserId =>
                                if decide (postUserId = "") then m
                                else accumulate postUserId (postEngagements p)
                                                (views (_count p)) m
                            | None => m
                            end) m allPosts))).
  { intros H. apply H. constructor. }
  induction allPosts as [|p l IH]; intros m Hm; simpl; [done|].
  apply IH. destruct (findPostUserId db (id p)) as [a|]; [|done].
  destruct (decide (a = "")); [done|].
  rewrite accumulate_keys. destruct (decide (a ∈ map fst m)); [done|].
  apply NoDup_app. split; [done|]. split; [|apply NoDup_singleton].
  intros x Hx Hx'. apply list_elem_of_singleton in Hx' as ->. done.
Qed.

(** In a store with unique post ids, the entry of a user with a
    non-empty id who posted in the window holds the totals of that
    user's posts. *)
Lemma target_totals (db : Db) (s e : JS.Date) (userId : string) :
  uniquePostIds db -> userId <> "" ->
  userPostsIn db s e userId <> [] ->
  (userId, (sumEngagements (userPostsIn db s e userId),
            sumViews (userPostsIn db s e userId)))
  ∈ groupByUser db (allPostsIn db s e).
Proof.
  intros Hnd Hid Hposts.
  assert (Forall (fun p => findPostUserId db (id p) = Some (Engagement.userId p))
                 (allPostsIn db s e)) as Hres.
  { apply Forall_forall. intros p Hp. unfold allPostsIn in Hp.
    apply list_elem_of_In, filter_In in Hp as [Hp _].
    apply list_elem_of_In in Hp.
    unfold findPostUserId. by rewrite (find_unique _ p Hnd Hp). }
  pose proof (groupByUser_foldl db userId (allPostsIn db s e) [] Hid Hres)
    as Hgroup.
  fold (groupByUser db (allPostsIn db s e)) in Hgroup.
  assert (List.filter (fun p => bool_decide (Engagement.userId p = userId))
                      (allPostsIn db s e)
          = userPostsIn db s e userId) as Hsame
    by (unfold userPostsIn, allPostsIn; by rewrite filter_andb).
  rewrite Hsame in Hgroup. change (totalsOf userId []) with (@None (nat * nat))
    in Hgroup.
  destruct (userPostsIn db s e userId) as [|p ps] eqn:E; [done|].
  unfold totalsOf in Hgroup.
  destruct (List.find _ (groupByUser db (allPostsIn db s e)))
    as [[k [e0 v0]]|] eqn:Hfind; [|done].
  apply find_some in Hfind as [Hin Hk]. simpl in Hgroup, Hk.
  apply bool_decide_eq_true in Hk as ->.
  injection Hgroup as -> ->. by apply list_elem_of_In.
Qed.

(** The number of rates strictly below [u] does not depend on the order
    of the rates. *)
Lemma strictlyBelow_sort (u : JS.number) (rates : list JS.number) :
  strictlyBelow u (JS.sort ascending rates) = strictlyBelow u rates.
Proof. unfold strictlyBelow. by rewrite sort_Permutation. Qed.

Lemma strictlyBelow_all (u : JS.number) (m : UserTotals) :
  (forall a e v, (a, (e, v)) ∈ m -> JS.ge (rateOf e v) u = false) ->
  strictlyBelow u (map (fun entry => rateOf entry.2.1 entry.2.2) m) = length m.
Proof.
  unfold strictlyBelow. induction m as [|[k [e v]] m IH]; intros H; [done|].
  simpl. rewrite filter_cons. simpl.
  destruct (decide (JS.ge (rateOf e v) u = false)) as [_|N].
  - simpl. f_equal. apply IH. intros a e' v' Hin. apply (H a). by right.
  - destruct N. apply (H k). left.
Qed.

(** When the rate of one author reaches [u] and the rate of every other
    author is strictly below [u], all rates but one are strictly below
    [u]. *)
Lemma strictlyBelow_all_but_one (u : JS.number) (userId : string)
    (tv : nat * nat) (m : UserTotals) :
  NoDup (map fst m) -> (userId, tv) ∈ m ->
  JS.ge (rateOf tv.1 tv.2) u = true ->
  (forall a e v, (a, (e, v)) ∈ m -> a <> userId ->
                 JS.ge (rateOf e v) u = false) ->
  strictlyBelow u (map (fun entry => rateOf entry.2.1 entry.2.2) m)
  = (length m - 1)%nat.
Proof.
  intros Hnd Hin Hge Hothers.
  induction m as [|[k [e v]] m IH]; [by apply not_elem_of_nil in Hin|].
  simpl in Hnd. apply NoDup_cons in Hnd as [Hk Hnd].
  pose proof (strictlyBelow_all u m) as Hall.
  unfold strictlyBelow in *. simpl. rewrite filter_cons.
  destruct (decide (k = userId)) as [->|Hne].
  - assert (tv = (e, v)) as ->.
    { apply elem_of_cons in Hin as [[= ->]|Hin]; [done|].
      destruct Hk. apply list_elem_of_fmap. by exists (userId, tv). }
    simpl in Hge. rewrite Hge.
    destruct (decide (true = false)); [done|].
    assert (forall a e' v', (a, (e', v')) ∈ m ->
                            JS.ge (rateOf e' v') u = false) as Hm.
    { intros a e' v' Ha. apply (Hothers a); [by right|].
      intros ->. apply Hk. apply list_elem_of_fmap.
      by exists (userId, (e', v')). }
    rewrite (Hall Hm). simpl. lia.
  - rewrite (Hothers k e v) by (done || left).
    destruct (decide (false = false)); [|done].
    apply elem_of_cons in Hin as [[= -> _]|Hin]; [done|].
    simpl. rewrite IH; [|done|done|].
    + destruct m; [by apply not_elem_of_nil in Hin|]. simpl. lia.
    + intros a e' v' Ha. apply Hothers. by right.
Qed.

Lemma round2_below_100 (q : Q) :
  (0 <= q)%Q -> (q < 99995 # 1000)%Q -> (JS.round2 q < 100)%Q.
Proof.
  intros H0 Hq. unfold JS.round2.
  assert (Qle_bool 0 q = true) as -> by (by apply Qle_bool_iff).
  unfold JS.round2_pos.
  pose proof (Qfloor_le (q * 100 + (1 # 2))) as Hfloor.
  assert (Qfloor (q * 100 + (1 # 2)) < 10000)%Z as Hlt.
  { rewrite Zlt_Qlt. eapply Qle_lt_trans; [exact Hfloor|].
    change (inject_Z 10000) with 10000%Q. lra. }
  assert (inject_Z (Qfloor (q * 100 + (1 # 2))) <= 9999)%Q as Hle.
  { change 9999%Q with (inject_Z 9999). rewrite <- Zle_Qle. lia. }
  assert (inject_Z (Qfloor (q * 100 + (1 # 2))) / 100
          == inject_Z (Qfloor (q * 100 + (1 # 2))) * (1 # 100))%Q as ->
    by (unfold Qdiv; reflexivity).
  lra.
Qed.

(** The share [k / n * 100] of [k] rates among [n]. *)
Lemma share_value (k n : nat) :
  (0 < n)%nat ->
  exists q,
    JS.mul (JS.div (JS.of_nat k) (JS.of_nat n)) (JS.of_Z 100) = JS.Fin q
    /\ (q == inject_Z (Z.of_nat k) / inject_Z (Z.of_nat n) * 100)%Q
    /\ (0 <= q)%Q
    /\ ((k < n)%nat -> (q <= 100 - 100 / inject_Z (Z.of_nat n))%Q).
Proof.
  intros Hn. unfold JS.of_nat, JS.of_Z. simpl.
  destruct (Qeq_bool (inject_Z (Z.of_nat n)) 0) eqn:E.
  { apply of_nat_is_zero in E. lia. }
  eexists. split; [reflexivity|]. split; [reflexivity|].
  assert (0 < inject_Z (Z.of_nat n))%Q as Hpos
    by (change 0%Q with (inject_Z 0); rewrite <- Zlt_Qlt; lia).
  assert (0 <= inject_Z (Z.of_nat k))%Q as Hk
    by (change 0%Q with (inject_Z 0); rewrite <- Zle_Qle; lia).
  change (inject_Z 100) with 100%Q.
  set (a := inject_Z (Z.of_nat k)) in *. set (b := inject_Z (Z.of_nat n)) in *.
  assert (0 <= a / b)%Q as Hab.
  { apply Qle_shift_div_l; [done|]. by rewrite Qmult_0_l. }
  split; [lra|]. intros Hlt.
  assert (a + 1 <= b)%Q as Hk1.
  { unfold a, b. change 1%Q with (inject_Z 1).
    rewrite <- inject_Z_plus, <- Zle_Qle. lia. }
  assert (~ (b == 0)%Q) as Hb by (intros Hb; rewrite Hb in Hpos; lra).
  assert ((a + 1) / b <= 1)%Q as Hdiv.
  { apply Qle_shift_div_r; [done|]. by rewrite Qmult_1_l. }
  assert ((a + 1) / b == a / b + 1 / b)%Q as Hsplit by (by field).
  assert (100 / b == 100 * (1 / b))%Q as H100 by (by field).
  rewrite H100. lra.
Qed.

(** What the response reports, in terms of its own window. *)
Lemma comparison_body {host : JS.Host} (db : Db) (endDate startDate0 : JS.Date)
    (userId : string) (qPeriod : option string) (body : ComparisonResponse) :
  getUserEngagementComparison host db endDate startDate0 userId qPeriod
  = Ok body ->
  cr_to body = endDate
  /\ cr_totalPosts body
     = length (userPostsIn db (cr_from body) (cr_to body) userId)
  /\ percentileRank body
     = JS.toFixed2
         (percentileOf
            (userEngagementRateOf db (cr_from body) (cr_to body) userId)
            (allUserEngagementRates
               db (allPostsIn db (cr_from body) (cr_to body)))).
Proof.
  unfold getUserEngagementComparison.
  destruct (List.find _ (db_users db)) as [user|]; [|done].
  by intros [= <-].
Qed.

Lemma percentileOf_found (u : JS.number) (rates : list JS.number) (i : nat) :
  JS.findIndex (fun rate => JS.ge rate u) rates = Some i ->
  percentileOf u rates
  = JS.mul (JS.div (JS.of_nat i) (JS.of_nat (length rates))) (JS.of_Z 100).
Proof.
  intros Hi. unfold percentileOf. rewrite Hi.
  destruct rates as [|r rates]; [done|]. done.
Qed.

(** The scan of a poster stops at a rate of the list: the position is the
    number of rates strictly below the poster's, which leaves out at
    least the poster's own. *)
Lemma poster_position (db : Db) (s e : JS.Date) (userId : string) :
  uniquePostIds db -> userId <> "" -> userPostsIn db s e userId <> [] ->
  let u := userEngagementRateOf db s e userId in
  let rates := allUserEngagementRates db (allPostsIn db s e) in
  JS.findIndex (fun rate => JS.ge rate u) rates = Some (strictlyBelow u rates)
  /\ (strictlyBelow u rates < length rates)%nat.
Proof.
  intros Hnd Hid Hposts. cbv zeta.
  set (u := userEngagementRateOf db s e userId).
  set (rates := allUserEngagementRates db (allPostsIn db s e)).
  assert (u ∈ rates) as Hin by (by apply target_rate_is_listed).
  pose proof (findIndex_counts_lower u rates (userRate_finite db s e userId)
                (rates_finite db _) (rates_sorted db _)) as Hcount.
  destruct (JS.findIndex _ rates) as [i|] eqn:Hfind.
  - by destruct Hcount as [-> Hi].
  - exfalso. pose proof (findIndex_none_inv _ _ Hfind u Hin) as H.
    destruct (userRate_finite db s e userId) as [q Hq].
    fold u in Hq. rewrite Hq in H. apply ge_false_Fin in H. lra.
Qed.

(** A rate of the list is a number that is not negative. *)
Lemma rates_nonneg (db : Db) (allPosts : list DbPost) :
  Forall (fun r => exists q, r = JS.Fin q /\ (0 <= q)%Q)
         (allUserEngagementRates db allPosts).
Proof.
  unfold allUserEngagementRates. rewrite sort_Permutation.
  apply Forall_fmap, Forall_forall. intros entry _. simpl.
  apply rateOf_finite.
Qed.

(** In a store with unique post ids the scan for a user with a non-empty
    id always stops at a rate of the list, whether the user posted in
    the window (at the user's own rate at the latest) or not (the user's
    rate is then 0, which the first rate reaches). *)
Lemma scan_stops (db : Db) (s e : JS.Date) (userId : string) :
  uniquePostIds db -> userId <> "" ->
  allUserEngagementRates db (allPostsIn db s e) <> [] ->
  exists i,
    (i < length (allUserEngagementRates db (allPostsIn db s e)))%nat
    /\ JS.findIndex (fun rate => JS.ge rate (userEngagementRateOf db s e userId))
                    (allUserEngagementRates db (allPostsIn db s e))
       = Some i.
Proof.
  intros Hnd Hid Hne.
  destruct (userPostsIn db s e userId) as [|p ps] eqn:E.
  - exists 0%nat. unfold userEngagementRateOf. cbv zeta. rewrite E.
    pose proof (rates_nonneg db (allPostsIn db s e)) as Hpos.
    destruct (allUserEngagementRates db (allPostsIn db s e)) as [|r rates];
      [done|].
    apply Forall_cons in Hpos as [(q & -> & Hq) _].
    split; [simpl; lia|]. simpl.
    assert (Qle_bool (inject_Z 0) q = true) as ->; [|done].
    apply Qle_bool_iff. exact Hq.
  - destruct (poster_position db s e userId Hnd Hid) as [Hfind Hlt].
    { by rewrite E. }
    eexists. split; [exact Hlt|exact Hfind].
Qed.

(** C5, on the code.  The rates are in ascending order and, for the
    position [i] of the first rate that is [>=] the target's rate, the
    reported percentile is [i / length * 100] to two decimals: so far
    the claim holds.  But the list holds the target's own rate.  In a
    store with unique post ids the scan for a target with a non-empty id
    always finds such a position, so that the branch which the code
    marks "Top performer" is never taken; and for a target who posted in
    the window and whose rate exceeds the rate of every other author,
    the scan stops at the target's own rate, the last of the [n] rates,
    and the percentile is [(n - 1) / n * 100]: a number below 100,
    reported as less than 100 for fewer than 20000 authors, and not the
    100 of that branch. *)
Theorem top_performer_is_ranked_below_100 (host : JS.Host) (db : Db)
    (endDate startDate0 : JS.Date) (userId : string)
    (qPeriod : option string) (body : ComparisonResponse) :
  getUserEngagementComparison host db endDate startDate0 userId qPeriod
  = Ok body ->
  let u := userEngagementRateOf db (cr_from body) (cr_to body) userId in
  let authors := groupByUser db (allPostsIn db (cr_from body) (cr_to body)) in
  let rates :=
    allUserEngagementRates db (allPostsIn db (cr_from body) (cr_to body)) in
  let n := length rates in
  StronglySorted (fun a b => JS.ge b a = true) rates
  /\ (forall i, firstAtLeast u rates i ->
                percentileRank body
                = JS.toFixed2
                    (JS.mul (JS.div (JS.of_nat i) (JS.of_nat n))
                            (JS.of_Z 100)))
  /\ (uniquePostIds db -> userId <> "" -> rates <> [] ->
      exists i, (i < n)%nat /\ firstAtLeast u rates i)
  /\ (uniquePostIds db -> userId <> "" -> (0 < cr_totalPosts body)%nat ->
      (forall a e v, (a, (e, v)) ∈ authors -> a <> userId ->
                     JS.ge (rateOf e v) u = false) ->
      n = length authors
      /\ firstAtLeast u rates (n - 1)
      /\ percentileRank body
         = JS.toFixed2
             (JS.mul (JS.div (JS.of_nat (n - 1)) (JS.of_nat n))
                     (JS.of_Z 100))
      /\ (exists q, percentileOf u rates = JS.Fin q /\ (q < 100)%Q)
      /\ (Z.of_nat n < 20000 ->
          ~ sameNumber (percentileRank body) (JS.of_Z 100))).
Proof.
  intros Hbody.
  destruct (comparison_body _ _ _ _ _ _ Hbody) as (_ & Hn & Hrank).
  cbv zeta.
  set (s := cr_from body) in *. set (e := cr_to body) in *.
  set (u := userEngagementRateOf db s e userId) in *.
  set (authors := groupByUser db (allPostsIn db s e)).
  set (rates := allUserEngagementRates db (allPostsIn db s e)) in *.
  split; [apply rates_sorted|]. split; [|split].
  - intros i Hi. rewrite Hrank. f_equal. apply percentileOf_found.
    by apply findIndex_first.
  - intros Hnd Hid Hne.
    destruct (scan_stops db s e userId Hnd Hid Hne) as (i & Hi & Hfind).
    exists i. split; [exact Hi|]. by apply findIndex_first.
  - intros Hnd Hid Hposts Hothers.
    assert (userPostsIn db s e userId <> []) as Hne.
    { intros E. rewrite E in Hn. simpl in Hn. lia. }
    pose proof (target_totals db s e userId Hnd Hid Hne) as Hentry.
    fold authors in Hentry.
    destruct (userRate_finite db s e userId) as [qu Hqu]. fold u in Hqu.
    assert (length rates = length authors) as Hlen.
    { unfold rates, allUserEngagementRates.
      by rewrite sort_length, length_map. }
    assert (strictlyBelow u rates = (length authors - 1)%nat) as Hbelow.
    { unfold rates, allUserEngagementRates. rewrite strictlyBelow_sort.
      eapply strictlyBelow_all_but_one;
        [apply groupByUser_NoDup|exact Hentry| |exact Hothers].
      simpl. change (rateOf _ _) with u. rewrite Hqu. apply ge_Fin. lra. }
    destruct (poster_position db s e userId Hnd Hid Hne) as [Hfind Hlt].
    fold u rates in Hfind, Hlt. rewrite Hbelow, <- Hlen in Hfind.
    assert (0 < length rates)%nat as Hpos by lia.
    destruct (share_value (length rates - 1) (length rates) Hpos)
      as (q & Hq & Eq & Hq0 & Hqn).
    specialize (Hqn ltac:(lia)).
    assert (0 < 100 / inject_Z (Z.of_nat (length rates)))%Q as Hstep.
    { apply Qlt_shift_div_l; [|lra].
      change 0%Q with (inject_Z 0). rewrite <- Zlt_Qlt. lia. }
    split; [done|]. split; [by apply findIndex_first|].
    rewrite Hrank, (percentileOf_found _ _ _ Hfind). split; [done|].
    split; [exists q; split; [done|lra]|].
    intros Hsmall. rewrite Hq. simpl. intros E.
    assert (1 # 200 < 100 / inject_Z (Z.of_nat (length rates)))%Q as Hbig.
    { apply Qlt_shift_div_l.
      - change 0%Q with (inject_Z 0). rewrite <- Zlt_Qlt. lia.
      - assert (inject_Z (Z.of_nat (length rates)) <= 19999)%Q as Hle
          by (change 19999%Q with (inject_Z 19999); rewrite <- Zle_Qle; lia).
        lra. }
    assert (JS.round2 q < 100)%Q as Hround
      by (apply round2_below_100; [done|lra]).
    change (inject_Z 100) with 100%Q in E. rewrite E in Hround.
    by apply Qlt_irrefl in Hround.
Qed.

(** Two authors: the target u1 has rate 50 and the only other author has
    rate 10, so the target's rate exceeds every other computed rate; its
    own rate is the last of the two sorted rates and the reported
    percentile is 50, not 100. *)
Lemma top_performer_is_ranked_below_100_witness :
  exists body,
    getUserEngagementComparison utcHost twoAuthors clock clock "u1" None
    = Ok body
    /\ percentileRank body
       = JS.toFixed2 (JS.mul (JS.div (JS.of_nat 1) (JS.of_nat 2)) (JS.of_Z 100))
    /\ sameNumber (percentileRank body) (JS.of_Z 50)
    /\ ~ sameNumber (percentileRank body) (JS.of_Z 100).
Proof.
  eexists. split; [vm_compute; reflexivity|].
  edestruct (proj2 (proj2 (proj2 (top_performer_is_ranked_below_100
                                    utcHost twoAuthors clock clock "u1" None _
                                    ltac:(vm_compute; reflexivity)))))
    as (_ & _ & Hrank & _ & Hnot).
  - unfold uniquePostIds. simpl. repeat constructor; set_solver.
  - discriminate.
  - vm_compute. lia.
  - intros a e v Hin Hne. vm_compute in Hin.
    apply elem_of_cons in Hin as [[= -> _ _]|Hin]; [done|].
    apply list_elem_of_singleton in Hin as [= -> -> ->].
    vm_compute. reflexivity.
  - split; [exact Hrank|]. split; [vm_compute; reflexivity|].
    apply Hnot. vm_compute. reflexivity.
Defined.

(** The branch marked "Top performer" is taken when the list holds no
    rate of the target: the grouping loop skips an author whose id is
    the empty string, and with one other author of a lower rate such a
    target is at 100. *)
Example unlisted_target_is_at_100 :
  exists body,
    getUserEngagementComparison utcHost unlistedAuthor clock clock "" None
    = Ok body
    /\ groupByUser unlistedAuthor
         (allPostsIn unlistedAuthor (cr_from body) (cr_to body))
       = [("u2", (1, 10))]%nat
    /\ sameNumber (percentileRank body) (JS.of_Z 100).
Proof.
  eexists. split; [vm_compute; reflexivity|].
  vm_compute. split; reflexivity.
Qed.

End Percentile.

(** ** Comparison with the platform average *)

Section Comparison.
Import Engagement.

Lemma foldl_add_shift {A} (f : A -> nat) (l : list A) (a : nat) :
  foldl (fun acc p => (acc + f p)%nat) a l
  = (a + foldl (fun acc p => (acc + f p)%nat) 0%nat l)%nat.
Proof.
  revert a. induction l as [|x l IH]; intros a; simpl; [lia|].
  rewrite (IH (a + f x)%nat), (IH (f x)). lia.
Qed.

(** A total over the posts selected by a stronger filter is not larger. *)
Lemma total_filter_le {A} (f : A -> nat) (g h : A -> bool) (l : list A) :
  (forall x, g x = true -> h x = true) ->
  (foldl (fun acc p => (acc + f p)%nat) 0%nat (List.filter g l)
   <= foldl (fun acc p => (acc + f p)%nat) 0%nat (List.filter h l))%nat.
Proof.
  intros Hgh. induction l as [|x l IH]; simpl; [lia|].
  destruct (g x) eqn:Hg.
  - rewrite (Hgh x Hg). simpl.
    rewrite (foldl_add_shift f (List.filter g l)),
            (foldl_add_shift f (List.filter h l)). lia.
  - destruct (h x); [|done]. simpl.
    rewrite (foldl_add_shift f (List.filter h l)). lia.
Qed.

Lemma user_totals_le (db : Db) (startDate endDate : JS.Date) (userId : string) :
  (sumEngagements (userPostsIn db startDate endDate userId)
   <= sumEngagements (allPostsIn db startDate endDate))%nat
  /\ (sumViews (userPostsIn db startDate endDate userId)
      <= sumViews (allPostsIn db startDate endDate))%nat.
Proof.
  unfold sumEngagements, sumViews, userPostsIn, allPostsIn.
  split; apply total_filter_le; intros p Hp;
    by apply andb_true_iff in Hp as [_ ?].
Qed.

(** A rate is zero exactly when there is no view or no engagement. *)
Lemma rateOf_is_zero (e v : nat) :
  sameNumber (rateOf e v) (JS.of_Z 0) <-> v = 0%nat \/ e = 0%nat.
Proof.
  destruct v as [|v].
  - rewrite rateOf_zero. simpl. split; [by left|reflexivity].
  - rewrite rateOf_pos by lia. simpl. split.
    + intros H. right.
      destruct e as [|e]; [done|]. exfalso.
      assert (0 < inject_Z (Z.of_nat (S e)) / inject_Z (Z.of_nat (S v))
                  * inject_Z 100)%Q as Hpos;
        [|rewrite H in Hpos; exact (Qlt_irrefl _ Hpos)].
      apply Qmult_lt_0_compat; [|done].
      apply Qlt_shift_div_l.
      * change 0%Q with (inject_Z 0). rewrite <- Zlt_Qlt. lia.
      * rewrite Qmult_0_l. change 0%Q with (inject_Z 0).
        rewrite <- Zlt_Qlt. lia.
    + intros [H| ->]; [lia|]. simpl. unfold Qdiv. ring.
Qed.

Lemma div_zero_by_zero (x y : JS.number) :
  sameNumber x (JS.of_Z 0) -> sameNumber y (JS.of_Z 0) -> JS.div x y = JS.NaN.
Proof.
  destruct x as [a| | |], y as [b| | |]; simpl; try done.
  intros Ha Hb.
  assert (Qeq_bool b 0 = true) as -> by (by apply Qeq_bool_iff).
  assert (Qeq_bool a 0 = true) as -> by (by apply Qeq_bool_iff).
  done.
Qed.

(** C6, on the code.  Whenever the platform engagement rate of the window
    is 0, the user's rate is 0 as well, the unguarded division is [0 / 0]
    and the reported [comparison] is NaN, not 0. *)
Theorem comparison_is_NaN_when_platform_rate_is_zero (host : JS.Host)
    (db : Db) (endDate startDate0 : JS.Date) (userId : string)
    (qPeriod : option string) (body : ComparisonResponse) :
  getUserEngagementComparison host db endDate startDate0 userId qPeriod
  = Ok body ->
  sameNumber (platformEngagementRateOf db (cr_from body) (cr_to body))
             (JS.of_Z 0) ->
  comparison body = JS.NaN
  /\ ~ sameNumber (comparison body) (JS.of_Z 0).
Proof.
  unfold getUserEngagementComparison.
  destruct (List.find _ (db_users db)) as [user|]; [|done].
  intros [= <-]. cbn [cr_from cr_to comparison].
  set (startDate :=
         getUserEngagementComparison_startDate host (orDefault qPeriod "month")
                                               endDate startDate0).
  intros Hzero.
  assert (sameNumber (userEngagementRateOf db startDate endDate userId)
                     (JS.of_Z 0)) as Huser.
  { unfold platformEngagementRateOf, userEngagementRateOf in *.
    cbv zeta in *. apply rateOf_is_zero in Hzero. apply rateOf_is_zero.
    destruct (user_totals_le db startDate endDate userId) as [He Hv].
    destruct Hzero; [left|right]; lia. }
  unfold comparisonOf. rewrite (div_zero_by_zero _ _ Huser Hzero).
  simpl. split; [done|tauto].
Qed.

Lemma comparison_is_NaN_when_platform_rate_is_zero_witness :
  exists body,
    getUserEngagementComparison utcHost unseenPost clock clock "u1" None
    = Ok body
    /\ comparison body = JS.NaN.
Proof.
  eexists. split; [vm_compute; reflexivity|].
  refine (proj1 (comparison_is_NaN_when_platform_rate_is_zero
                   utcHost unseenPost clock clock "u1" None _ _ _)).
  - vm_compute. reflexivity.
  - vm_compute. reflexivity.
Defined.

(** Rounding to two decimals keeps the sign and does not go below an
    integer bound. *)
Lemma round2_nonneg (x : Q) : (0 <= x)%Q -> (0 <= JS.round2 x)%Q.
Proof.
  intros Hx. unfold JS.round2.
  assert (Qle_bool 0 x = true) as -> by (by apply Qle_bool_iff).
  unfold JS.round2_pos.
  assert (0 <= Qfloor (x * 100 + (1 # 2)))%Z as Hfloor.
  { change 0%Z with (Qfloor 0). apply Qfloor_resp_le. lra. }
  apply Qle_shift_div_l; [done|]. rewrite Qmult_0_l.
  change 0%Q with (inject_Z 0). by rewrite <- Zle_Qle.
Qed.

Lemma round2_pos_le (x : Q) (n : Z) :
  (x <= inject_Z n)%Q -> (JS.round2_pos x <= inject_Z n)%Q.
Proof.
  intros Hx. unfold JS.round2_pos.
  assert (Qfloor (x * 100 + (1 # 2)) <= n * 100)%Z as Hfloor.
  { assert (Qfloor (x * 100 + (1 # 2)) < n * 100 + 1)%Z; [|lia].
    rewrite Zlt_Qlt. eapply Qle_lt_trans; [apply Qfloor_le|].
    rewrite inject_Z_plus, inject_Z_mult.
    change (inject_Z 100) with 100%Q. change (inject_Z 1) with 1%Q. lra. }
  apply Qle_shift_div_r; [done|].
  change 100%Q with (inject_Z 100). rewrite <- inject_Z_mult.
  by rewrite <- Zle_Qle.
Qed.

Lemma round2_nonpos (x : Q) : (x <= 0)%Q -> (JS.round2 x <= 0)%Q.
Proof.
  intros Hx. unfold JS.round2.
  destruct (Qle_bool 0 x) eqn:E.
  - apply Qle_bool_iff in E. apply (round2_pos_le x 0). exact Hx.
  - assert (0 <= JS.round2 (- x))%Q as H by (apply round2_nonneg; lra).
    unfold JS.round2 in H.
    assert (Qle_bool 0 (- x) = true) as E' by (apply Qle_bool_iff; lra).
    rewrite E' in H. lra.
Qed.

Lemma round2_ge (x : Q) (n : Z) :
  (n <= 0)%Z -> (inject_Z n <= x)%Q -> (inject_Z n <= JS.round2 x)%Q.
Proof.
  intros Hn Hx. unfold JS.round2.
  destruct (Qle_bool 0 x) eqn:E.
  - apply Qle_bool_iff in E.
    assert (0 <= JS.round2 x)%Q as H by (by apply round2_nonneg).
    unfold JS.round2 in H.
    assert (Qle_bool 0 x = true) as E' by (by apply Qle_bool_iff).
    rewrite E' in H.
    assert (inject_Z n <= 0)%Q
      by (change 0%Q with (inject_Z 0); by rewrite <- Zle_Qle).
    lra.
  - pose proof (round2_pos_le (- x) (- n)) as H.
    rewrite inject_Z_opp in H. specialize (H ltac:(lra)). lra.
Qed.

(** When the platform rate is not 0 the division is defined:
    [comparison] is a finite number, at least -100; it is not negative
    when the user's rate is at least the platform's, not positive when
    it is at most the platform's, and -100 when the user's rate is 0. *)
Theorem comparison_sign (host : JS.Host) (db : Db)
    (endDate startDate0 : JS.Date) (userId : string)
    (qPeriod : option string) (body : ComparisonResponse) :
  getUserEngagementComparison host db endDate startDate0 userId qPeriod
  = Ok body ->
  ~ sameNumber (platformEngagementRateOf db (cr_from body) (cr_to body))
               (JS.of_Z 0) ->
  exists qu qp qc,
    userEngagementRateOf db (cr_from body) (cr_to body) userId = JS.Fin qu
    /\ platformEngagementRateOf db (cr_from body) (cr_to body) = JS.Fin qp
    /\ comparison body = JS.Fin qc
    /\ (0 <= qu)%Q /\ (0 < qp)%Q
    /\ (-100 <= qc)%Q
    /\ ((qp <= qu)%Q -> (0 <= qc)%Q)
    /\ ((qu <= qp)%Q -> (qc <= 0)%Q)
    /\ ((qu == 0)%Q -> (qc == -100)%Q).
Proof.
  unfold getUserEngagementComparison.
  destruct (List.find _ (db_users db)) as [user|]; [|done].
  intros [= <-]. cbn [cr_from cr_to comparison].
  set (startDate :=
         getUserEngagementComparison_startDate host (orDefault qPeriod "month")
                                               endDate startDate0).
  unfold userEngagementRateOf, platformEngagementRateOf. cbv zeta.
  destruct (rateOf_finite (sumEngagements (userPostsIn db startDate endDate
                                                       userId))
                          (sumViews (userPostsIn db startDate endDate userId)))
    as (qu & -> & Hqu).
  destruct (rateOf_finite (sumEngagements (allPostsIn db startDate endDate))
                          (sumViews (allPostsIn db startDate endDate)))
    as (qp & -> & Hqp).
  intros Hnz. simpl in Hnz.
  assert (0 < qp)%Q as Hpos.
  { apply Qnot_le_lt. intros Hle. apply Hnz.
    change (inject_Z 0) with 0%Q. lra. }
  exists qu, qp. unfold comparisonOf. simpl.
  destruct (Qeq_bool qp 0) eqn:E.
  { apply Qeq_bool_iff in E. rewrite E in Hpos. by apply Qlt_irrefl in Hpos. }
  simpl. eexists. do 5 (split; [done|]).
  change (inject_Z 100) with 100%Q.
  assert (0 <= qu / qp)%Q as Hdiv.
  { apply Qle_shift_div_l; [done|]. by rewrite Qmult_0_l. }
  split; [|split; [|split]].
  - apply (round2_ge _ (-100)); [done|].
    change (inject_Z (-100)) with (-100)%Q. lra.
  - intros Hle. apply round2_nonneg.
    assert (1 <= qu / qp)%Q
      by (apply Qle_shift_div_l; [done|]; by rewrite Qmult_1_l).
    lra.
  - intros Hle. apply round2_nonpos.
    assert (qu / qp <= 1)%Q
      by (apply Qle_shift_div_r; [done|]; by rewrite Qmult_1_l).
    lra.
  - intros Hz.
    rewrite (round2_proper _ (-100)%Q); [reflexivity|].
    rewrite Hz. unfold Qdiv. ring.
Qed.

(** With the two authors of [twoAuthors], u1 has rate 50 and the
    platform 30: the comparison is a number that is not negative. *)
Lemma comparison_sign_witness :
  exists body qc,
    getUserEngagementComparison utcHost twoAuthors clock clock "u1" None
    = Ok body
    /\ comparison body = JS.Fin qc /\ (0 <= qc)%Q.
Proof.
  destruct (comparison_sign utcHost twoAuthors clock clock "u1" None _
                            ltac:(vm_compute; reflexivity))
    as (qu & qp & qc & Hu & Hp & Hc & _ & _ & _ & Hge & _).
  - vm_compute. discriminate.
  - eexists. exists qc. split; [vm_compute; reflexivity|].
    split; [exact Hc|]. apply Hge.
    vm_compute in Hu, Hp. injection Hu as <-. injection Hp as <-.
    vm_compute. discriminate.
Defined.

End Comparison.

(** ** Window resolution *)

Section Window.
Import Engagement.

(** C10, on the code.  In [getUserEngagementComparison] the period
    ["all"] falls into the default branch of the [switch]: on every host
    the window starts one calendar month before now, as for ["month"],
    whereas the [switch] of [getPopularPosts] starts the ["all"] window
    at the epoch.  On a host in UTC at 2023-11-14T22:13:20Z the window
    of ["all"] starts at 2023-10-14T22:13:20Z and a post of 2020 is left
    out. *)
Theorem comparison_window_all_is_one_month :
  (forall host endDate startDate0,
     getUserEngagementComparison_startDate host "all" endDate startDate0
     = JS.setMonth host startDate0 (JS.getMonth host endDate - 1))
  /\ (forall host endDate startDate0,
        getUserEngagementComparison_startDate host "all" endDate startDate0
        = getUserEngagementComparison_startDate
            host "month" endDate startDate0)
  /\ (forall host endDate startDate0,
        getPopularPosts_startDate host "all" endDate startDate0 = 0)
  /\ getUserEngagementComparison_startDate utcHost "all" clock clock
     = 1697321600000
  /\ exists body,
      getUserEngagementComparison utcHost oldPost clock clock "u1" (Some "all")
      = Ok body
      /\ cr_period body = "all"
      /\ cr_from body = 1697321600000
      /\ cr_from body <> 0
      /\ cr_to body = clock
      /\ cr_totalPosts body = 0%nat.
Proof.
  assert (forall host endDate startDate0,
            getUserEngagementComparison_startDate host "all" endDate startDate0
            = JS.setMonth host startDate0 (JS.getMonth host endDate - 1))
    as Hall.
  { intros. unfold getUserEngagementComparison_startDate.
    repeat case_decide; done. }
  split; [exact Hall|]. split; [|split; [|split]].
  - intros. rewrite Hall. unfold getUserEngagementComparison_startDate.
    repeat case_decide; done.
  - intros. unfold getPopularPosts_startDate. repeat case_decide; done.
  - vm_compute. reflexivity.
  - eexists. split; [vm_compute; reflexivity|].
    vm_compute. repeat split; discriminate.
Qed.

End Window.

(** * Further properties of the code *)

(** ** Aggregation: latest posts, user names, top users *)

Section AggregationMore.
Import DataService.

Lemma byTimestampDesc_inOrder {host : JS.Host} (a b : Post) :
  validTimestamp host a -> validTimestamp host b ->
  JS.inOrder (byTimestampDesc host) a b <-> postTime host b <= postTime host a.
Proof.
  intros [ta Ha] [tb Hb]. unfold JS.inOrder, byTimestampDesc, JS.Date_getTime,
    postTime. rewrite Ha, Hb. simpl. rewrite Qle_bool_iff.
  unfold Qminus. rewrite <- inject_Z_opp, <- inject_Z_plus.
  change 0%Q with (inject_Z 0). rewrite <- Zle_Qle. lia.
Qed.

(** [latestPosts] has [min 5 n] entries for [n] posts; every entry is a
    post of the snapshot with the number of comments that refer to it;
    and when the timestamp of every post is a date for the host, the
    entries are in non-increasing order of time.  (With a timestamp
    that is not a date the comparator returns NaN and the order is the
    engine's.) *)
Theorem latestPosts_bounded_sorted (host : JS.Host) (c : CacheData) :
  let latest := latestPosts (computed (computeLatestPosts host c)) in
  length latest = (5 `min` length (posts (rawData c)))%nat
  /\ Forall (fun e => pws_post e ∈ posts (rawData c)
                      /\ commentCount e
                         = commentsOn (rawData c) (post_id (pws_post e)))
            latest
  /\ (Forall (validTimestamp host) (posts (rawData c)) ->
      StronglySorted
        (fun a b => postTime host (pws_post b) <= postTime host (pws_post a))
        latest).
Proof.
  cbv zeta. unfold computeLatestPosts, set_latestPosts. simpl.
  set (sorted := JS.sort (byTimestampDesc host) (posts (rawData c))).
  split; [|split].
  - rewrite length_map, length_take. unfold sorted. by rewrite sort_length.
  - apply Forall_fmap, Forall_forall. intros p Hp. simpl. split.
    + apply subseteq_take in Hp. unfold sorted in Hp.
      by rewrite sort_Permutation in Hp.
    + apply countBy_lookup.
  - intros Hvalid.
    assert (StronglySorted (fun a b => postTime host b <= postTime host a)
                           sorted) as Hs.
    { apply (StronglySorted_mono_on (validTimestamp host)
                                    (JS.inOrder (byTimestampDesc host))).
      - intros a b Ia Ib. by apply byTimestampDesc_inOrder.
      - unfold sorted. by rewrite sort_Permutation.
      - apply (sort_StronglySorted (byTimestampDesc host)
                                   (validTimestamp host)); [| |done].
        + intros a b Ia Ib. rewrite !byTimestampDesc_inOrder by done. lia.
        + intros a b d Ia Ib Id. rewrite !byTimestampDesc_inOrder by done.
          lia. }
    apply (StronglySorted_take _ 5) in Hs.
    induction Hs as [|x l _ IH Hx]; simpl; constructor; [done|].
    apply Forall_fmap. eapply Forall_impl; [exact Hx|]. done.
Qed.

(** Seven posts whose timestamps have the different forms of the format:
    the five latest are listed, newest first. *)
Lemma latestPosts_bounded_sorted_witness :
  let latest :=
    latestPosts (computed (computeLatestPosts utcHost (cacheOf sevenPosts))) in
  length latest = 5%nat
  /\ StronglySorted
       (fun a b =>
          postTime utcHost (pws_post b) <= postTime utcHost (pws_post a))
       latest
  /\ map (fun e => post_id (pws_post e)) latest = ["p2"; "p4"; "p3"; "p5"; "p1"]
  /\ map (fun e => postTime utcHost (pws_post e)) latest
     = [1704585600000; 1704544200000; 1704524400500; 1704499200000;
        1704448800000].
Proof.
  destruct (latestPosts_bounded_sorted utcHost (cacheOf sevenPosts))
    as (Hlen & _ & Hsorted).
  cbv zeta. split; [exact Hlen|]. split.
  - apply Hsorted. simpl. repeat constructor; vm_compute; eauto.
  - vm_compute. split; reflexivity.
Defined.

(** The user map keeps, for every id, the last user of the snapshot with
    that id. *)
Lemma buildUserMap_foldl (us : list User) (m : gmap string User) (k : string) :
  foldl (fun m u => <[user_id u := u]> m) m us !! k
  = match last (filter (fun u => user_id u = k) us) with
    | Some u => Some u
    | None => m !! k
    end.
Proof.
  revert m. induction us as [|u us IH]; intros m; simpl; [done|].
  rewrite IH, filter_cons. destruct (decide (user_id u = k)) as [<-|Hne].
  - rewrite last_cons. destruct (last (filter _ us)); [done|].
    by rewrite lookup_insert_eq.
  - destruct (last (filter _ us)); [done|]. by rewrite lookup_insert_ne.
Qed.

Lemma buildUserMap_lookup (us : list User) (k : string) :
  buildUserMap us !! k = last (filter (fun u => user_id u = k) us).
Proof.
  unfold buildUserMap. rewrite buildUserMap_foldl, lookup_empty.
  by destruct (last _).
Qed.

(** In [latestPosts] and [popularPosts] the [userName] of an entry is the
    name of the last snapshot user whose id is the post's [userId], and
    is absent when the snapshot has no such user. *)
Theorem userName_is_last_matching_user (host : JS.Host) (c : CacheData) :
  let named e :=
    userName e
    = user_name <$> last (filter (fun u => user_id u = post_userId (pws_post e))
                                 (users (rawData c))) in
  Forall named (latestPosts (computed (computeLatestPosts host c)))
  /\ Forall named (popularPosts (computed (computePopularPosts c))).
Proof.
  cbv zeta. unfold computeLatestPosts, computePopularPosts, set_latestPosts,
    set_popularPosts. simpl.
  split; apply Forall_fmap, Forall_forall; intros p _; simpl;
    by rewrite buildUserMap_lookup.
Qed.

(** Every entry of [topUsers] is a snapshot user with the number of posts
    that carry its id; no snapshot user left out has strictly more posts
    than an entry; and with at most five users all of them are listed. *)
Theorem topUsers_are_the_most_active (c : CacheData) :
  let top := topUsers (computed (computeTopUsers c)) in
  let stats u := {| uws_user := u;
                    postCount := postsBy (rawData c) (user_id u) |} in
  Forall (fun e => uws_user e ∈ users (rawData c)
                   /\ postCount e = postsBy (rawData c) (user_id (uws_user e)))
         top
  /\ (forall u e, u ∈ users (rawData c) -> e ∈ top ->
                  (postCount e < postsBy (rawData c) (user_id u))%nat ->
                  stats u ∈ top)
  /\ length top = (5 `min` length (users (rawData c)))%nat
  /\ ((length (users (rawData c)) <= 5)%nat ->
      top ≡ₚ map stats (users (rawData c))).
Proof.
  cbv zeta. rewrite topUsers_unfold.
  set (stats := fun u => {| uws_user := u;
                            postCount := postsBy (rawData c) (user_id u) |}).
  set (sorted := JS.sort byPostCountDesc (map stats (users (rawData c)))).
  assert (sorted ≡ₚ map stats (users (rawData c))) as Hperm
    by apply sort_Permutation.
  split; [|split; [|split]].
  - apply Forall_forall. intros e He. apply subseteq_take in He.
    rewrite Hperm in He. apply list_elem_of_fmap in He as (u & -> & Hu). done.
  - intros u e Hu He Hlt.
    assert (stats u ∈ sorted) as Hin
      by (rewrite Hperm; apply list_elem_of_fmap; eauto).
    assert (StronglySorted (JS.inOrder byPostCountDesc) sorted) as Hs.
    { apply (sort_StronglySorted _ (fun _ => True)).
      - intros a b _ _. rewrite !byPostCountDesc_inOrder. lia.
      - intros a b d _ _ _. rewrite !byPostCountDesc_inOrder. lia.
      - by apply Forall_true. }
    rewrite <- (take_drop 5 sorted) in Hin, Hs.
    apply elem_of_app in Hin as [Hin|Hin]; [done|]. exfalso.
    pose proof (StronglySorted_app_1_elem_of _ _ _ e (stats u) Hs He Hin) as H.
    apply byPostCountDesc_inOrder in H. simpl in H. lia.
  - rewrite length_take. unfold sorted.
    by rewrite sort_length, length_map.
  - intros Hlen. rewrite take_ge; [done|].
    unfold sorted. rewrite sort_length, length_map. lia.
Qed.

Lemma topUsers_are_the_most_active_witness :
  topUsers (computed (computeTopUsers (cacheOf tiedSnapshot)))
  ≡ₚ map (fun u => {| uws_user := u;
                      postCount := postsBy tiedSnapshot (user_id u) |})
         (users tiedSnapshot).
Proof.
  apply (topUsers_are_the_most_active (cacheOf tiedSnapshot)). simpl. lia.
Defined.

End AggregationMore.

Section PopularMore.
Import DataService.

(** When the snapshot has posts and every comment refers to one of them,
    [popularPosts] is not empty. *)
Theorem popularPosts_nonempty (c : CacheData) :
  posts (rawData c) <> [] -> commentsReferToPosts (rawData c) ->
  popularPosts (computed (computePopularPosts c)) <> [].
Proof.
  intros Hne Href. rewrite popularPosts_unfold, maxComments_agree by done.
  unfold maxCommentsOverPosts.
  assert (map (fun p => commentsOn (rawData c) (post_id p)) (posts (rawData c))
          <> []) as Hne' by (by destruct (posts (rawData c))).
  apply max_list_elem_of in Hne'.
  apply list_elem_of_fmap in Hne' as (p & Hp & Hin).
  intros Hnil. apply fmap_nil_inv in Hnil.
  assert (p ∈ filter (fun p => commentsOn (rawData c) (post_id p)
                               = max_list (map (fun p => commentsOn (rawData c)
                                                           (post_id p))
                                               (posts (rawData c))))
                     (posts (rawData c))) as Hp'
    by (apply list_elem_of_filter; split; [by symmetry|done]).
  rewrite Hnil in Hp'. by apply not_elem_of_nil in Hp'.
Qed.

Lemma popularPosts_nonempty_witness :
  popularPosts (computed (computePopularPosts (cacheOf tiedSnapshot))) <> [].
Proof.
  apply popularPosts_nonempty.
  - simpl. discriminate.
  - unfold commentsReferToPosts. simpl. repeat constructor; set_solver.
Defined.

End PopularMore.

(** ** Refresh coordinator: coherence, freshness, recovery *)

Section CoordinatorMore.
Import DataService.

Lemma recompute_spec {host : JS.Host} (c : CacheData) :
  recompute host c
  = {| rawData := rawData c; computed := viewsOf host (rawData c);
       lastFetched := lastFetched c |}.
Proof. reflexivity. Qed.

Lemma performRefresh_body_ok {host : JS.Host} us ps cs (t : Z) (c : CacheData) :
  performRefresh_body host (FetchOk us ps cs) t c
  = ({| rawData := fetchedData us ps cs;
        computed := viewsOf host (fetchedData us ps cs);
        lastFetched := t |}, Fulfilled).
Proof. reflexivity. Qed.

Lemma step_invariant {host : JS.Host}
    (P : World -> Prop) (evs : list Event) (w w' : World) :
  (forall w e w', P w -> step host w e = Some w' -> P w') ->
  P w -> run host w evs = Some w' -> P w'.
Proof.
  intros Hstep. revert w. induction evs as [|e evs IH]; intros w Hw Hrun;
    simpl in Hrun.
  - by injection Hrun as <-.
  - destruct (step host w e) as [w1|] eqn:E; [|done]. simpl in Hrun.
    eapply IH; [|exact Hrun]. eapply Hstep; eauto.
Qed.

Lemma step_cache {host : JS.Host} (w w' : World) (e : Event) :
  step host w e = Some w' ->
  cache w' = cache w
  \/ exists p us ps cs t,
       e = FetchSettles p (FetchOk us ps cs) t
       /\ cache w' = {| rawData := fetchedData us ps cs;
                        computed := viewsOf host (fetchedData us ps cs);
                        lastFetched := t |}
       /\ exists r, refreshes w' !! p = Some r /\ state r = Done Fulfilled.
Proof.
  destruct e as [force now|p res now|p]; simpl; intros Hstep.
  - injection Hstep as <-. left. unfold refreshData.
    destruct (negb force && isCacheFresh now (cache w)); [done|].
    by destruct (refreshPromise w).
  - destruct (refreshes w !! p) as [[st rs]|] eqn:Hp; [|done].
    destruct st; [|done]. injection Hstep as <-.
    destruct res as [us ps cs|err].
    + right. exists p, us, ps, cs, now. split; [done|].
      unfold performRefresh_settle. rewrite performRefresh_body_ok, Hp.
      simpl. split; [done|]. eexists. split.
      * apply list_lookup_insert_eq. by eapply lookup_lt_Some.
      * done.
    + left. unfold performRefresh_settle. simpl. done.
  - destruct (refreshes w !! p) as [[st rs]|] eqn:Hp; [|done].
    destruct st as [|s]; [done|]. destruct rs; [done|].
    injection Hstep as <-. by left.
Qed.

(** In every reachable state the three computed views are the views of
    the raw data that the cache holds: no view comes from another
    snapshot. *)
Theorem views_coherent (host : JS.Host) (w : World) :
  reachable host w -> computed (cache w) = viewsOf host (rawData (cache w)).
Proof.
  intros [evs Hrun].
  apply (step_invariant (host:=host)
           (fun w => computed (cache w) = viewsOf host (rawData (cache w)))
           evs newService w); [|reflexivity|done].
  clear. intros w e w' Hw Hstep.
  destruct (step_cache w w' e Hstep) as [->|(p & us & ps & cs & t & _ & -> & _)];
    done.
Qed.

Lemma views_coherent_witness :
  computed (cache warmWorld) = viewsOf utcHost (rawData (cache warmWorld)).
Proof. apply views_coherent. exists warmUp. vm_compute. reflexivity. Defined.

(** Until a fetch has succeeded the cache is the empty cache of the
    constructor, whatever calls and failures happened, and no call of
    [refreshData] is answered from the cache. *)
Theorem no_cache_before_first_success (host : JS.Host) (w : World) :
  reachable host w -> neverFetched w ->
  cache w = initialCache
  /\ forall force now, (refreshData force now w).2 <> Returned.
Proof.
  intros [evs Hrun] Hnever.
  assert (cache w = initialCache) as Hc.
  { revert Hnever.
    apply (step_invariant (host:=host)
             (fun w => neverFetched w -> cache w = initialCache)
             evs newService w); [|done|done].
    clear. intros w e w' IH Hstep Hnever.
    assert (neverFetched w) as Hw.
    { intros p r Hp Hst.
      destruct (done_stable_step w w' e p r Fulfilled Hp Hst Hstep)
        as (r' & Hr' & Hst').
      by apply (Hnever p r'). }
    destruct (step_cache w w' e Hstep)
      as [->|(p & us & ps & cs & t & _ & _ & r & Hr & Hst)]; [by apply IH|].
    by destruct (Hnever p r Hr). }
  split; [done|]. intros force now. unfold refreshData. rewrite Hc.
  unfold isCacheFresh. simpl. rewrite andb_false_r.
  by destruct (refreshPromise w).
Qed.

Lemma no_cache_before_first_success_witness :
  (refreshData false 1500
     (default newService
        (run utcHost newService [Call false 1000;
                         FetchSettles 0 (FetchErr "upstream down") 1300;
                         Resume 0]))).2
  <> Returned.
Proof.
  apply (no_cache_before_first_success utcHost).
  - exists [Call false 1000; FetchSettles 0 (FetchErr "upstream down") 1300;
            Resume 0].
    vm_compute. reflexivity.
  - intros p r Hp. vm_compute in Hp.
    destruct p as [|p]; [|discriminate].
    injection Hp as <-. discriminate.
Defined.

(** After a refresh that completed successfully at time [t > 0] the cache
    holds the fetched data, its views and [t]; a call that is not forced
    is answered from the cache exactly when it is made before
    [t + 10000]. *)
Theorem fresh_for_ten_seconds (host : JS.Host)
    (w : World) (p : nat) us ps cs (t : Z) :
  inFlight w p -> 0 < t ->
  let w' := performRefresh_settle host p (FetchOk us ps cs) t w in
  cache w' = {| rawData := fetchedData us ps cs;
                computed := viewsOf host (fetchedData us ps cs);
                lastFetched := t |}
  /\ forall now, (refreshData false now w').2 = Returned <-> now < t + 10000.
Proof.
  intros (r & Hr & Hst) Ht. cbv zeta.
  assert (cache (performRefresh_settle host p (FetchOk us ps cs) t w)
          = {| rawData := fetchedData us ps cs;
               computed := viewsOf host (fetchedData us ps cs);
               lastFetched := t |}) as Hc.
  { unfold performRefresh_settle. rewrite performRefresh_body_ok.
    by rewrite Hr. }
  split; [done|]. intros now. unfold refreshData. rewrite Hc.
  unfold isCacheFresh, getCacheExpiry, CACHE_DURATION.
  cbn [lastFetched negb andb].
  destruct (Z.ltb_spec 0 t) as [_|]; [|lia].
  destruct (Z.ltb_spec now (t + 10 * 1000)) as [Hlt|Hge]; cbn [andb].
  - split; [lia|done].
  - split; [|lia].
    destruct (refreshPromise _); intros H; discriminate H.
Qed.

Lemma fresh_for_ten_seconds_witness :
  (refreshData false 15999
     (performRefresh_settle utcHost 1 (FetchOk None None None) 6000
                            busyWorld)).2
  = Returned.
Proof.
  apply (fresh_for_ten_seconds utcHost busyWorld 1 None None None 6000).
  - exists {| state := Pending; resumed := false |}.
    split; vm_compute; reflexivity.
  - lia.
  - lia.
Defined.

(** A refresh that was started, whatever its outcome, leaves the
    coordinator idle once its starter has resumed: the next call that
    passes the freshness gate starts a new fetch. *)
Theorem coordinator_recovers (host : JS.Host)
    (w w1 : World) (force : bool) (now t : Z)
    (p : nat) (res : FetchResult) :
  coordinated w ->
  refreshData force now w = (w1, Started p) ->
  let w3 := refreshData_finally p (performRefresh_settle host p res t w1) in
  refreshPromise w3 = None
  /\ coordinated w3
  /\ forall force' now',
       triggers w3 (force', now') = true ->
       (refreshData force' now' w3).2 = Started (S p)
       /\ fetchCalls (refreshData force' now' w3).1 = S (S (fetchCalls w)).
Proof.
  intros Hw Hcall. cbv zeta.
  pose proof (coordinated_call w force now Hw) as Hw1.
  rewrite Hcall in Hw1. simpl in Hw1.
  unfold refreshData in Hcall.
  destruct (negb force && isCacheFresh now (cache w)); [done|].
  destruct (refreshPromise w) eqn:Hnone; [done|]. simpl in Hcall.
  injection Hcall as <- <-.
  set (w1 := {| cache := cache w;
                refreshPromise := Some (length (refreshes w));
                refreshes := refreshes w ++ [{| state := Pending;
                                                resumed := false |}];
                fetchCalls := S (fetchCalls w) |}) in *.
  assert (refreshes w1 !! length (refreshes w)
          = Some {| state := Pending; resumed := false |}) as Hp
    by (by apply list_lookup_middle).
  pose proof (coordinated_settle (host:=host) w1 _ _ res t Hw1 Hp) as Hw2.
  set (w2 := performRefresh_settle host (length (refreshes w)) res t w1) in *.
  assert (exists s, refreshes w2 !! length (refreshes w)
                    = Some {| state := Done s; resumed := false |})
    as [s Hp2].
  { unfold w2, performRefresh_settle.
    destruct (performRefresh_body host res t (cache w1)) as [c s].
    rewrite Hp. simpl. exists s.
    apply list_lookup_insert_eq. by eapply lookup_lt_Some. }
  pose proof (coordinated_finally w2 _ _ s Hw2 Hp2 eq_refl eq_refl) as Hw3.
  split; [done|]. split; [done|].
  intros force' now' Htrig. unfold triggers in Htrig. simpl in Htrig.
  unfold refreshData.
  destruct (negb force' && isCacheFresh now' _); [done|].
  assert (length (refreshes (refreshData_finally (length (refreshes w)) w2))
          = S (length (refreshes w))) as Hlen.
  { unfold refreshData_finally. rewrite Hp2. simpl. rewrite length_insert.
    unfold w2, performRefresh_settle.
    destruct (performRefresh_body host res t (cache w1)) as [c s'].
    rewrite Hp. simpl. rewrite length_insert. unfold w1. simpl.
    rewrite length_app. simpl. lia. }
  change (refreshPromise (refreshData_finally (length (refreshes w)) w2))
    with (@None nat).
  unfold performRefresh_call. cbn [fst snd fetchCalls]. rewrite Hlen.
  split; [done|].
  unfold refreshData_finally. cbn [fetchCalls].
  unfold w2, performRefresh_settle.
  destruct (performRefresh_body host res t (cache w1)) as [c s'].
  reflexivity.
Qed.

Lemma coordinator_recovers_witness :
  (refreshData false 30000
     (refreshData_finally 1
        (performRefresh_settle utcHost 1 (FetchErr "upstream down") 5500
                               busyWorld))).2
  = Started 2.
Proof.
  refine (proj1 (proj2 (proj2 (coordinator_recovers
            utcHost warmWorld busyWorld true 5000 5500 1
            (FetchErr "upstream down") _ _)) false 30000 _)).
  - apply (reachable_coordinated (host:=utcHost)).
    exists warmUp. vm_compute. reflexivity.
  - vm_compute. reflexivity.
  - vm_compute. reflexivity.
Defined.

Lemma inFlight_unique_witness :
  ~ inFlight busyWorld 0.
Proof.
  intros H0.
  assert (0 = 1)%nat; [|discriminate].
  apply (inFlight_unique utcHost busyWorld 0 1); [ |exact H0| ].
  - exists (warmUp ++ [Call true 5000]). vm_compute. reflexivity.
  - exists {| state := Pending; resumed := false |}.
    split; vm_compute; reflexivity.
Defined.

Lemma burst_one_fetch_witness :
  fetchCalls (callAll warmWorld [(false, 20000); (false, 20001); (true, 20002)]).1
  = 2%nat.
Proof.
  refine (proj1 (burst_one_fetch warmWorld (false, 20000)
                                 [(false, 20001); (true, 20002)] _ _ _)).
  - apply (reachable_coordinated (host:=utcHost)).
    exists warmUp. vm_compute. reflexivity.
  - vm_compute. reflexivity.
  - vm_compute. reflexivity.
Defined.

End CoordinatorMore.

(** ** Engagement controller: responses *)

Section ResponsesMore.
Import Engagement.

Lemma slice0_subseteq {A} (n : Z) (l : list A) : JS.slice0 n l ⊆ l.
Proof. unfold JS.slice0. destruct (0 <=? n); apply subseteq_take. Qed.

Lemma prisma_take_subseteq {A} (n : Z) (l : list A) : prisma_take n l ⊆ l.
Proof.
  unfold prisma_take. destruct (0 <=? n); [apply subseteq_take|].
  apply subseteq_drop.
Qed.

Lemma total_rate_finite (l : list PostWithEngagement) (a : Q) :
  Forall finiteRate l ->
  exists q, foldl (fun acc p => JS.add acc (engagementRate (engagementMetrics p)))
                  (JS.Fin a) l = JS.Fin q.
Proof.
  intros Hl. revert a. induction Hl as [|x l [q Hq] _ IH]; intros a; simpl.
  - by eexists.
  - rewrite Hq. simpl. apply IH.
Qed.

(** Every post that [getPopularPosts] returns is a stored post created
    inside the reported window that passes the user filter, with the
    metrics of [withEngagement]; [totalPosts] is their number; and the
    average rate is a finite number, 0 for an empty page. *)
Theorem getPopularPosts_response (host : JS.Host)
    (db : Db) (endDate startDate0 : JS.Date)
    (qUserId qPeriod : option string) (qLimit : option Z) :
  let r := getPopularPosts host db endDate startDate0 qUserId qPeriod qLimit in
  pp_totalPosts r = length (pp_posts r)
  /\ pp_to r = endDate
  /\ Forall (fun e => post e ∈ db_posts db
                      /\ inWindow (pp_from r) (pp_to r) (post e) = true
                      /\ matchesUser qUserId (post e) = true
                      /\ e = withEngagement (post e))
            (pp_posts r)
  /\ JS.is_finite (averageEngagementRate r) = true
  /\ (pp_posts r = [] -> averageEngagementRate r = JS.of_Z 0).
Proof.
  cbv zeta. unfold getPopularPosts. cbn [pp_totalPosts pp_posts pp_to pp_from
    averageEngagementRate].
  set (startDate := getPopularPosts_startDate host _ endDate startDate0).
  set (cands := prisma_take _ _).
  assert (Forall (fun e => post e ∈ db_posts db
                           /\ inWindow startDate endDate (post e) = true
                           /\ matchesUser qUserId (post e) = true
                           /\ e = withEngagement (post e))
                 (rankPosts (limitOrDefault qLimit) cands)) as Hall.
  { apply Forall_forall. intros e He. unfold rankPosts in He.
    apply slice0_subseteq in He. rewrite sort_Permutation in He.
    apply list_elem_of_fmap in He as (p & -> & Hp).
    unfold cands in Hp. apply prisma_take_subseteq in Hp.
    apply list_elem_of_In, filter_In in Hp as [Hp Hf].
    apply andb_true_iff in Hf as [Hw Hu].
    by rewrite list_elem_of_In. }
  split; [done|]. split; [done|]. split; [done|].
  assert (Forall finiteRate (rankPosts (limitOrDefault qLimit) cands)) as Hfin.
  { eapply Forall_impl; [exact Hall|]. intros e (_ & _ & _ & ->).
    apply withEngagement_finiteRate. }
  split.
  - destruct (Nat.ltb_spec 0 (length (rankPosts (limitOrDefault qLimit) cands)))
      as [Hpos|]; [|done].
    destruct (total_rate_finite _ (inject_Z 0) Hfin) as [q Hq].
    unfold JS.of_Z at 1. rewrite Hq. unfold JS.of_nat, JS.of_Z. simpl.
    destruct (Qeq_bool (inject_Z (Z.of_nat (length _))) 0) eqn:E; [|done].
    apply of_nat_is_zero in E. lia.
  - intros ->. done.
Qed.

(** [getUserEngagementComparison] answers "User not found" exactly when
    no stored user has the requested id; otherwise the body repeats the
    id, reports the window end and counts the user's posts in the
    window. *)
Theorem comparison_user_lookup (host : JS.Host)
    (db : Db) (endDate startDate0 : JS.Date)
    (userId : string) (qPeriod : option string) :
  let r :=
    getUserEngagementComparison host db endDate startDate0 userId qPeriod in
  (Forall (fun u => user_id u <> userId) (db_users db)
   <-> r = NotFound "User not found")
  /\ (forall u, u ∈ db_users db -> user_id u = userId ->
       exists body,
         r = Ok body /\ cr_userId body = userId /\ cr_to body = endDate
         /\ cr_totalPosts body
            = length (userPostsIn db (cr_from body) endDate userId)).
Proof.
  cbv zeta. unfold getUserEngagementComparison.
  destruct (List.find _ (db_users db)) as [user|] eqn:E.
  - apply find_some in E as [Hin Hid]. apply bool_decide_eq_true in Hid.
    split.
    + split; [|done]. intros Hall. rewrite Forall_forall in Hall.
      apply list_elem_of_In in Hin. by destruct (Hall user Hin).
    + intros u _ _. eexists. split; [reflexivity|]. done.
  - split.
    + split; [done|]. intros _. apply Forall_forall. intros u Hu Hid.
      apply list_elem_of_In in Hu.
      pose proof (find_none _ _ E u Hu) as H. simpl in H.
      by apply bool_decide_eq_false in H.
    + intros u Hu Hid. apply list_elem_of_In in Hu.
      pose proof (find_none _ _ E u Hu) as H. simpl in H.
      by apply bool_decide_eq_false in H.
Qed.

Lemma comparison_user_lookup_witness :
  getUserEngagementComparison utcHost twoAuthors clock clock "u9" None
  = NotFound "User not found"
  /\ exists body,
      getUserEngagementComparison utcHost twoAuthors clock clock "u2" None
      = Ok body
      /\ cr_totalPosts body = 1%nat.
Proof.
  destruct (comparison_user_lookup utcHost twoAuthors clock clock "u9" None)
    as [H1 _].
  destruct (comparison_user_lookup utcHost twoAuthors clock clock "u2" None)
    as [_ H2].
  split.
  - apply H1. simpl. repeat constructor; discriminate.
  - destruct (H2 (mkDbUser "u2" "bob")) as (body & Hb & _ & _ & Hn).
    + simpl. set_solver.
    + reflexivity.
    + exists body. split; [exact Hb|]. rewrite Hn.
      vm_compute in Hb. injection Hb as <-. vm_compute. reflexivity.
Defined.

End ResponsesMore.

(** ** Percentile: what the linear scan computes *)

Section PercentileMore.
Import Engagement.

Lemma getPopularPosts_response_witness :
  averageEngagementRate
    (getPopularPosts utcHost oldPost clock clock None None None)
  = JS.of_Z 0.
Proof.
  apply (getPopularPosts_response utcHost oldPost clock clock None None None).
  vm_compute. reflexivity.
Defined.

(** For a non-empty list of rates the reported percentile is
    [100 * (number of authors whose rate is strictly below the target's)
    / (number of authors)], to two decimals. *)
Theorem percentile_is_share_of_lower_rates (host : JS.Host) (db : Db)
    (endDate startDate0 : JS.Date) (userId : string)
    (qPeriod : option string) (body : ComparisonResponse) :
  getUserEngagementComparison host db endDate startDate0 userId qPeriod
  = Ok body ->
  let u := userEngagementRateOf db (cr_from body) (cr_to body) userId in
  let rates :=
    allUserEngagementRates db (allPostsIn db (cr_from body) (cr_to body)) in
  rates <> [] ->
  sameNumber
    (percentileRank body)
    (JS.toFixed2
       (JS.mul (JS.div (JS.of_nat (strictlyBelow u rates))
                       (JS.of_nat (length rates)))
               (JS.of_Z 100))).
Proof.
  unfold getUserEngagementComparison.
  destruct (List.find _ (db_users db)) as [user|]; [|done].
  intros [= <-]. cbn [cr_from cr_to percentileRank].
  set (startDate :=
         getUserEngagementComparison_startDate host (orDefault qPeriod "month")
                                               endDate startDate0).
  set (u := userEngagementRateOf db startDate endDate userId).
  set (rates := allUserEngagementRates db (allPostsIn db startDate endDate)).
  cbv zeta. intros Hne.
  pose proof (findIndex_counts_lower u rates
                (userRate_finite db startDate endDate userId)
                (rates_finite db _) (rates_sorted db _)) as Hcount.
  unfold percentileOf.
  assert ((0 <? length rates)%nat = true) as ->
    by (apply Nat.ltb_lt; destruct rates; [done|simpl; lia]).
  destruct (JS.findIndex _ rates) as [i|].
  - destruct Hcount as [-> _]. apply sameNumber_refl.
  - rewrite Hcount. unfold JS.of_nat, JS.of_Z. simpl.
    destruct (Qeq_bool (inject_Z (Z.of_nat (length rates))) 0) eqn:E.
    + apply of_nat_is_zero in E. by destruct rates.
    + simpl. apply round2_proper. field.
      intros H. apply Qeq_bool_neq in E. done.
Qed.

Lemma percentile_is_share_of_lower_rates_witness :
  exists body,
    getUserEngagementComparison utcHost twoAuthors clock clock "u1" None
    = Ok body
    /\ sameNumber (percentileRank body)
                  (JS.toFixed2 (JS.mul (JS.div (JS.of_nat 1) (JS.of_nat 2))
                                       (JS.of_Z 100))).
Proof.
  eexists. split; [vm_compute; reflexivity|].
  refine (percentile_is_share_of_lower_rates utcHost twoAuthors clock clock
                                             "u1" None _ _ _).
  - vm_compute. reflexivity.
  - vm_compute. discriminate.
Defined.

(** In a store with unique post ids, the scan of a user with a non-empty
    id who posted in the window never reaches the branch of 100: it
    stops at position [below], the number of rates strictly below the
    user's, which is less than [n] because the user's own rate is in the
    list.  The percentile is [below / n * 100], a number below 100
    before it is rounded, however far the user's rate exceeds the
    others. *)
Theorem poster_is_ranked_below_100 (host : JS.Host) (db : Db)
    (endDate startDate0 : JS.Date) (userId : string)
    (qPeriod : option string) (body : ComparisonResponse) :
  getUserEngagementComparison host db endDate startDate0 userId qPeriod
  = Ok body ->
  uniquePostIds db -> userId <> "" -> (0 < cr_totalPosts body)%nat ->
  let u := userEngagementRateOf db (cr_from body) (cr_to body) userId in
  let rates :=
    allUserEngagementRates db (allPostsIn db (cr_from body) (cr_to body)) in
  let n := length rates in
  let below := strictlyBelow u rates in
  u ∈ rates
  /\ JS.findIndex (fun rate => JS.ge rate u) rates = Some below
  /\ (below < n)%nat
  /\ percentileRank body
     = JS.toFixed2
         (JS.mul (JS.div (JS.of_nat below) (JS.of_nat n)) (JS.of_Z 100))
  /\ exists q,
       JS.mul (JS.div (JS.of_nat below) (JS.of_nat n)) (JS.of_Z 100) = JS.Fin q
       /\ (0 <= q)%Q /\ (q < 100)%Q.
Proof.
  intros Hbody Hnd Hid Hposts.
  destruct (comparison_body _ _ _ _ _ _ Hbody) as (_ & Hn & Hrank).
  cbv zeta.
  set (s := cr_from body) in *. set (e := cr_to body) in *.
  set (u := userEngagementRateOf db s e userId) in *.
  set (rates := allUserEngagementRates db (allPostsIn db s e)) in *.
  assert (userPostsIn db s e userId <> []) as Hne.
  { intros E. rewrite E in Hn. simpl in Hn. lia. }
  destruct (poster_position db s e userId Hnd Hid Hne) as [Hfind Hlt].
  fold u rates in Hfind, Hlt.
  split; [by apply target_rate_is_listed|]. split; [done|]. split; [done|].
  split; [by rewrite Hrank, (percentileOf_found _ _ _ Hfind)|].
  assert (0 < length rates)%nat as Hpos by lia.
  destruct (share_value (strictlyBelow u rates) (length rates) Hpos)
    as (q & Hq & Eq & Hq0 & Hqn).
  specialize (Hqn Hlt).
  assert (0 < 100 / inject_Z (Z.of_nat (length rates)))%Q as Hstep.
  { apply Qlt_shift_div_l; [|lra].
    change 0%Q with (inject_Z 0). rewrite <- Zlt_Qlt. lia. }
  exists q. repeat split; [done|done|lra].
Qed.

(** With the two authors of [twoAuthors], u2 (rate 10) is below u1
    (rate 50): no rate is strictly below u2's, the scan stops at
    position 0 of 2 and the percentile is [0 / 2 * 100]. *)
Lemma poster_is_ranked_below_100_witness :
  exists body,
    getUserEngagementComparison utcHost twoAuthors clock clock "u2" None
    = Ok body
    /\ percentileRank body
       = JS.toFixed2 (JS.mul (JS.div (JS.of_nat 0) (JS.of_nat 2)) (JS.of_Z 100)).
Proof.
  destruct (poster_is_ranked_below_100
              utcHost twoAuthors clock clock "u2" None _
              ltac:(vm_compute; reflexivity))
    as (_ & _ & _ & Hrank & _).
  - unfold uniquePostIds. simpl. repeat constructor; set_solver.
  - discriminate.
  - vm_compute. lia.
  - eexists. split; [vm_compute; reflexivity|]. exact Hrank.
Defined.

End PercentileMore.

(** ** Trending topics *)

Section TopicsMore.
Import Topics.

(** The scenario of the specification. *)
Example topics_scenario :
  map (fun t => (text t, count t, engagementScore t))
      (trendingTopics 10
         [{| content := codeUnits "great day #sunny #sunny @bob";
             tags := None; likes := 4; comments := 3; shares := 3 |}])
  = [(codeUnits "#sunny", 2, 20); (codeUnits "@bob", 1, 10)]%nat.
Proof. vm_compute. reflexivity. Qed.

Example scan_examples :
  hashtagsOf (codeUnits "##a #b#c # #") = map codeUnits ["#a"; "#b"; "#c"]
  /\ mentionsOf (codeUnits "mail me@example.com @x_1!") 
     = map codeUnits ["@example"; "@x_1"].
Proof. vm_compute. split; reflexivity. Qed.

Lemma emit_shape (marker : N) (cls : N -> bool) (cur : option Text) :
  (forall run, cur = Some run -> Forall (fun x => cls x = true) run) ->
  Forall (wellFormedToken marker cls) (emit marker cur).
Proof.
  intros H. destruct cur as [[|c run]|]; simpl; try constructor; [|constructor].
  exists c, run. split; [done|]. by apply H.
Qed.

Lemma scan_shape (marker : N) (cls : N -> bool) (s : Text) (cur : option Text) :
  (forall run, cur = Some run -> Forall (fun x => cls x = true) run) ->
  Forall (wellFormedToken marker cls) (scan marker cls cur s).
Proof.
  revert cur. induction s as [|c s IH]; intros cur Hcur; simpl.
  - by apply emit_shape.
  - destruct cur as [run|].
    + destruct (cls c) eqn:Hc.
      * apply IH. intros run' [= <-]. apply Forall_app. split; [by apply Hcur|].
        by repeat constructor.
      * apply Forall_app. split; [by apply emit_shape|].
        apply IH. intros run'. destruct (c =? marker)%N; [|done].
        intros [= <-]. constructor.
    + apply IH. intros run'. destruct (c =? marker)%N; [|done].
      intros [= <-]. constructor.
Qed.

Lemma emit_partOf (marker : N) (cur : option Text) (full pre post : Text) :
  (forall run, cur = Some run -> full = pre ++ marker :: run ++ post) ->
  Forall (fun tok => partOf tok full) (emit marker cur).
Proof.
  intros H. destruct cur as [[|c run]|]; simpl; try constructor; [|constructor].
  exists pre, post. exact (H (c :: run) eq_refl).
Qed.

Lemma scan_partOf (marker : N) (cls : N -> bool) (full s : Text)
    (cur : option Text) (pre : Text) :
  match cur with
  | Some run => full = pre ++ marker :: run ++ s
  | None => full = pre ++ s
  end ->
  Forall (fun tok => partOf tok full) (scan marker cls cur s).
Proof.
  revert cur pre. induction s as [|c s IH]; intros cur pre Hfull; simpl.
  - apply (emit_partOf marker cur full pre []).
    intros run ->. exact Hfull.
  - destruct cur as [run|].
    + destruct (cls c) eqn:Hc.
      * apply (IH (Some (run ++ [c])) pre). rewrite Hfull.
        by rewrite <- (app_assoc run [c] s).
      * apply Forall_app. split.
        -- apply (emit_partOf marker (Some run) full pre (c :: s)).
           by intros run' [= <-].
        -- destruct (N.eqb_spec c marker) as [->|Hne].
           ++ apply (IH (Some []) (pre ++ marker :: run)). rewrite Hfull.
              by rewrite <- app_assoc.
           ++ apply (IH None (pre ++ marker :: run ++ [c])). rewrite Hfull.
              rewrite <- !app_assoc. simpl. by rewrite <- app_assoc.
    + destruct (N.eqb_spec c marker) as [->|Hne].
      * apply (IH (Some []) pre). exact Hfull.
      * apply (IH None (pre ++ [c])). rewrite Hfull. by rewrite <- app_assoc.
Qed.

(** Every extracted hashtag is [#] followed by at least one hashtag
    character, every extracted mention is [@] followed by at least one
    word character, and each is a contiguous part of the content. *)
Theorem extracted_tokens_shape (content : Text) :
  Forall (fun tok => wellFormedToken hash isHashtagChar tok
                     /\ partOf tok content)
         (hashtagsOf content)
  /\ Forall (fun tok => wellFormedToken at_sign isWord tok
                        /\ partOf tok content)
            (mentionsOf content).
Proof.
  unfold hashtagsOf, mentionsOf.
  split; apply Forall_and; split;
    try (apply scan_shape; done);
    apply (scan_partOf _ _ content content None []); done.
Qed.

(** *** The topics map *)

Lemma processPosts_bumpAll (posts : list TopicPost) (m : list Topic) :
  foldl processPost m posts = bumpAll m (occurrencesOf posts).
Proof.
  revert m. induction posts as [|p posts IH]; intros m; simpl; [done|].
  rewrite IH. unfold bumpAll, occurrencesOf. simpl. rewrite foldl_app.
  f_equal. unfold processPost. generalize (tokensOf p). clear.
  intros toks. revert m. induction toks as [|tok toks IH]; intros m; simpl;
    [done|]. apply IH.
Qed.

Lemma bump_keys (k : Text) (ty : TopicType) (e : nat) (m : list Topic) :
  map text (bump k ty e m)
  = if decide (k ∈ map text m) then map text m else map text m ++ [k].
Proof.
  induction m as [|t m IH].
  - destruct (decide (k ∈ map text [])) as [H|H]; [|done].
    by apply not_elem_of_nil in H.
  - cbn [bump map]. destruct (decide (text t = k)) as [E|Hne].
    + cbn [map text]. destruct (decide (k ∈ text t :: map text m)) as [H|H];
        [done|]. destruct H. rewrite E. left.
    + cbn [map]. rewrite IH.
      destruct (decide (k ∈ map text m)) as [Hin|Hnin];
        destruct (decide (k ∈ text t :: map text m)) as [H|H]; try done.
      * destruct H. by right.
      * apply elem_of_cons in H as [H|H]; congruence.
Qed.

Lemma bump_NoDup (k : Text) (ty : TopicType) (e : nat) (m : list Topic) :
  NoDup (map text m) -> NoDup (map text (bump k ty e m)).
Proof.
  intros Hnd. rewrite bump_keys. destruct (decide (k ∈ map text m)); [done|].
  apply NoDup_app. split; [done|]. split; [|apply NoDup_singleton].
  intros x Hx ->%list_elem_of_singleton. done.
Qed.

Lemma bumpAll_NoDup (occs : list (Text * TopicType * nat)) (m : list Topic) :
  NoDup (map text m) -> NoDup (map text (bumpAll m occs)).
Proof.
  revert m. induction occs as [|o occs IH]; intros m Hnd; simpl; [done|].
  apply IH. by apply bump_NoDup.
Qed.

Lemma bump_topicOf (k key : Text) (ty : TopicType) (e : nat) (m : list Topic) :
  topicOf k (bump key ty e m)
  = if decide (k = key)
    then Some (match topicOf key m with
               | Some t => {| text := text t; type := type t;
                              count := count t + 1;
                              engagementScore := engagementScore t + e |}
               | None => {| text := key; type := ty; count := 1;
                            engagementScore := e |}
               end)
    else topicOf k m.
Proof.
  unfold topicOf. destruct (decide (k = key)) as [->|Hne].
  - induction m as [|t m IH]; simpl.
    + by rewrite bool_decide_eq_true_2.
    + destruct (decide (text t = key)) as [E|E]; simpl.
      * by rewrite !bool_decide_eq_true_2.
      * rewrite !bool_decide_eq_false_2 by done. exact IH.
  - induction m as [|t m IH]; simpl.
    + by rewrite bool_decide_eq_false_2 by congruence.
    + destruct (decide (text t = key)) as [E|E]; simpl.
      * rewrite !bool_decide_eq_false_2 by congruence. done.
      * destruct (bool_decide (text t = k)); [done|exact IH].
Qed.

Lemma bumpAll_topicOf (k : Text) (occs : list (Text * TopicType * nat))
    (m : list Topic) :
  topicOf k (bumpAll m occs)
  = match topicOf k m, filter (fun o => o.1.1 = k) occs with
    | None, [] => None
    | None, o :: os =>
        Some {| text := k; type := o.1.2; count := 1 + length os;
                engagementScore := o.2 + sum_list (map snd os) |}
    | Some t, os =>
        Some {| text := text t; type := type t;
                count := count t + length os;
                engagementScore := engagementScore t + sum_list (map snd os) |}
    end.
Proof.
  revert m. induction occs as [|[[key ty] e] occs IH]; intros m; simpl.
  - destruct (topicOf k m) as [[]|]; [|done]. simpl. do 2 f_equal; lia.
  - rewrite IH, bump_topicOf, filter_cons. simpl.
    destruct (decide (key = k)) as [->|Hne].
    + rewrite decide_True by done.
      destruct (topicOf k m) as [t|]; simpl; do 2 f_equal; lia.
    + rewrite decide_False by congruence. done.
Qed.

Lemma topicOf_elem (m : list Topic) (t : Topic) :
  NoDup (map text m) -> t ∈ m -> topicOf (text t) m = Some t.
Proof.
  unfold topicOf. induction m as [|y m IH]; simpl; intros Hnd Ht.
  - by apply not_elem_of_nil in Ht.
  - apply NoDup_cons in Hnd as [Hy Hnd].
    apply elem_of_cons in Ht as [->|Ht].
    + by rewrite bool_decide_eq_true_2.
    + rewrite bool_decide_eq_false_2; [by apply IH|].
      intros E. apply Hy. rewrite E. apply list_elem_of_fmap. eauto.
Qed.

Lemma byScoreDesc_inOrder (a b : Topic) :
  JS.inOrder byScoreDesc a b <-> (engagementScore b <= engagementScore a)%nat.
Proof. apply nonpositive_sub_of_nat. Qed.

(** The trending topics are sorted by non-increasing engagement score,
    their texts are pairwise different, and every topic carries the
    number of occurrences of its text over all posts and the sum, over
    these occurrences, of the engagement of the post; a limit that is not
    negative bounds their number. *)
Theorem trendingTopics_aggregate (limit : Z) (posts : list TopicPost) :
  let out := trendingTopics limit posts in
  StronglySorted (fun a b => (engagementScore b <= engagementScore a)%nat) out
  /\ NoDup (map text out)
  /\ Forall (fun t =>
               (0 < count t)%nat
               /\ count t = length (occurrencesOfText (text t) posts)
               /\ engagementScore t
                  = sum_list (map snd (occurrencesOfText (text t) posts)))
            out
  /\ (0 <= limit -> Z.of_nat (length out) <= limit).
Proof.
  cbv zeta. unfold trendingTopics. rewrite processPosts_bumpAll.
  set (m := bumpAll [] (occurrencesOf posts)).
  assert (NoDup (map text m)) as Hnd by (apply bumpAll_NoDup; constructor).
  destruct (slice0_take limit (JS.sort byScoreDesc m)) as [k Hk].
  split; [|split; [|split]].
  - rewrite Hk. apply StronglySorted_take.
    eapply StronglySorted_mono; [intros a b; apply byScoreDesc_inOrder|].
    apply (sort_StronglySorted _ (fun _ => True)).
    + intros a b _ _. rewrite !byScoreDesc_inOrder. lia.
    + intros a b d _ _ _. rewrite !byScoreDesc_inOrder. lia.
    + by apply Forall_true.
  - rewrite Hk.
    assert (NoDup (map text (JS.sort byScoreDesc m))) as Hs
      by (by rewrite sort_Permutation).
    rewrite <- (take_drop k (JS.sort byScoreDesc m)), map_app in Hs.
    by apply NoDup_app in Hs as [? _].
  - apply Forall_forall. intros t Ht. apply slice0_subseteq in Ht.
    rewrite sort_Permutation in Ht.
    pose proof (topicOf_elem m t Hnd Ht) as Hlook.
    unfold m in Hlook. rewrite bumpAll_topicOf in Hlook.
    change (topicOf (text t) []) with (@None Topic) in Hlook.
    unfold occurrencesOfText.
    destruct (filter _ (occurrencesOf posts)) as [|o os]; [done|].
    injection Hlook as <-. simpl. split; [lia|]. split; [done|]. done.
  - apply slice0_length.
Qed.

Lemma trendingTopics_aggregate_witness :
  Z.of_nat
    (length (trendingTopics 1
               [{| content := codeUnits "great day #sunny #sunny @bob";
                   tags := Some [codeUnits "sunny"];
                   likes := 4; comments := 3; shares := 3 |}]))
  <= 1.
Proof.
  apply (trendingTopics_aggregate 1). lia.
Defined.

(** Every token of every post has an entry in the topics map, and the
    map has no other entry. *)
Theorem topics_map_keys (posts : list TopicPost) (k : Text) :
  k ∈ map text (foldl processPost [] posts)
  <-> exists o, o ∈ occurrencesOf posts /\ o.1.1 = k.
Proof.
  rewrite processPosts_bumpAll.
  set (m := bumpAll [] (occurrencesOf posts)).
  assert (is_Some (topicOf k m) <-> k ∈ map text m) as <-.
  { unfold topicOf. split.
    - intros [t Ht]. apply find_some in Ht as [Hin Hk].
      apply bool_decide_eq_true in Hk. subst k.
      apply list_elem_of_fmap. exists t. by rewrite list_elem_of_In.
    - intros (t & -> & Hin)%list_elem_of_fmap.
      destruct (List.find _ m) eqn:E; [by eexists|].
      apply list_elem_of_In in Hin.
      pose proof (find_none _ _ E t Hin) as H. simpl in H.
      by rewrite bool_decide_eq_true_2 in H. }
  unfold m. rewrite bumpAll_topicOf.
  change (topicOf k []) with (@None Topic).
  destruct (filter _ (occurrencesOf posts)) as [|o os] eqn:E.
  - split; [by intros [? ?]|]. intros (o & Ho & Hk).
    assert (o ∈ filter (fun o => o.1.1 = k) (occurrencesOf posts)) as H
      by (by apply list_elem_of_filter).
    rewrite E in H. by apply not_elem_of_nil in H.
  - split; [|by eexists]. intros _.
    assert (o ∈ filter (fun o => o.1.1 = k) (occurrencesOf posts)) as H
      by (rewrite E; left).
    apply list_elem_of_filter in H as [Hk Ho]. eauto.
Qed.

End TopicsMore.

(** ** Calendar arithmetic and the time windows *)

Section Calendar.

Lemma yoe_range (doe : Z) :
  0 <= doe <= 146096 ->
  let yoe := (doe - doe / 1460 + doe / 36524 - doe / 146096) / 365 in
  0 <= yoe <= 399 /\ 0 <= doe - (365 * yoe + yoe / 4 - yoe / 100) <= 365.
Proof. intros H. cbv zeta. Z.div_mod_to_equations. lia. Qed.

(** The civil date of a day number is a date, and converting it back
    gives the day number. *)
Theorem civil_round_trip (z : Z) :
  JS.days_from_civil (JS.civil_from_days z).1.1 (JS.civil_from_days z).1.2
                     (JS.civil_from_days z).2 = z
  /\ 1 <= (JS.civil_from_days z).1.2 <= 12
  /\ 1 <= (JS.civil_from_days z).2 <= 31.
Proof.
  unfold JS.civil_from_days, JS.days_from_civil. cbv zeta. simpl.
  set (z' := z + 719468).
  set (era := z' / 146097).
  set (doe := z' - era * 146097).
  assert (0 <= doe <= 146096) as Hdoe
    by (unfold doe, era; Z.div_mod_to_equations; lia).
  pose proof (yoe_range doe Hdoe) as Hy. cbv zeta in Hy.
  set (yoe := (doe - doe / 1460 + doe / 36524 - doe / 146096) / 365) in *.
  set (doy := doe - (365 * yoe + yoe / 4 - yoe / 100)) in *.
  destruct Hy as [Hyoe Hdoy].
  set (mp := (5 * doy + 2) / 153).
  assert (0 <= mp <= 11) as Hmp by (unfold mp; Z.div_mod_to_equations; lia).
  set (d := doy - (153 * mp + 2) / 5 + 1).
  assert (1 <= d <= 31) as Hd by (unfold d, mp; Z.div_mod_to_equations; lia).
  destruct (Z.ltb_spec mp 10) as [H10|H10].
  - destruct (Z.leb_spec (mp + 3) 2); [lia|].
    destruct (Z.ltb_spec 2 (mp + 3)); [|lia].
    replace (mp + 3 - 3) with mp by lia.
    assert ((yoe + era * 400) / 400 = era) as ->
      by (Z.div_mod_to_equations; lia).
    replace (yoe + era * 400 - era * 400) with yoe by lia.
    split; [|lia]. unfold d, doy, doe, z'. lia.
  - destruct (Z.leb_spec (mp - 9) 2); [|lia].
    destruct (Z.ltb_spec 2 (mp - 9)); [lia|].
    replace (mp - 9 + 9) with mp by lia.
    replace (yoe + era * 400 + 1 - 1) with (yoe + era * 400) by lia.
    assert ((yoe + era * 400) / 400 = era) as ->
      by (Z.div_mod_to_equations; lia).
    replace (yoe + era * 400 - era * 400) with yoe by lia.
    split; [|lia]. unfold d, doy, doe, z'. lia.
Qed.

Lemma days_from_civil_day (y m d : Z) :
  JS.days_from_civil y m d = JS.days_from_civil y m 1 + d - 1.
Proof. unfold JS.days_from_civil. cbv zeta. lia. Qed.

(** Replacing the day of the month moves a local time by whole days. *)
Lemma MakeDate_other_day (lt dt : Z) :
  JS.MakeDate (JS.MakeDay (JS.YearFromTime lt) (JS.MonthFromTime lt) dt)
              (JS.TimeWithinDay lt)
  = lt - (JS.DateFromTime lt - dt) * JS.msPerDay.
Proof.
  unfold JS.MakeDate, JS.MakeDay, JS.YearFromTime, JS.MonthFromTime,
    JS.DateFromTime, JS.TimeWithinDay.
  destruct (civil_round_trip (JS.Day lt)) as (Hrt & Hm & Hd).
  set (y := (JS.civil_from_days (JS.Day lt)).1.1) in *.
  set (m := (JS.civil_from_days (JS.Day lt)).1.2) in *.
  set (d := (JS.civil_from_days (JS.Day lt)).2) in *.
  assert ((m - 1) / 12 = 0) as -> by (Z.div_mod_to_equations; lia).
  assert ((m - 1) mod 12 = m - 1) as -> by (Z.div_mod_to_equations; lia).
  replace (y + 0) with y by lia. replace (m - 1 + 1) with m by lia.
  rewrite (days_from_civil_day y m d) in Hrt.
  unfold JS.Day, JS.msPerDay in *. Z.div_mod_to_equations. lia.
Qed.

Lemma localBefore_shift (host : JS.Host) (t len : Z) :
  JS.UTC host (JS.LocalTime host t - len) = t - len + zoneShift host t len.
Proof. unfold zoneShift, JS.UTC, JS.LocalTime. lia. Qed.

Lemma setDate_back (host : JS.Host) (endDate startDate0 n : Z) :
  JS.getDate host startDate0 = JS.getDate host endDate ->
  JS.setDate host startDate0 (JS.getDate host endDate - n)
  = startDate0 - n * 86400000 + zoneShift host startDate0 (n * 86400000).
Proof.
  intros Hsame. unfold JS.setDate. cbv zeta. rewrite MakeDate_other_day.
  rewrite <- Hsame. unfold JS.getDate, JS.msPerDay.
  rewrite <- localBefore_shift. f_equal. lia.
Qed.

(** With two readings of the clock on the same day of the month (in
    local time), the window of ["day"] starts at the instant whose local
    time is one day before the local time of the second reading, and
    the window of ["week"] (and, in [getPopularPosts], of any unknown
    period) seven days before it, in both controllers.  Counted in
    milliseconds the window is one day (seven days) long, corrected by
    the change of the zone offset inside it: it is exactly 86400000 ms
    (604800000 ms) on a host whose offset is the same at both ends,
    and an hour longer or shorter across a daylight-saving
    transition. *)
Theorem day_and_week_windows (host : JS.Host) (endDate startDate0 : JS.Date) :
  JS.getDate host startDate0 = JS.getDate host endDate ->
  let back n :=
    startDate0 - n * 86400000 + zoneShift host startDate0 (n * 86400000) in
  Engagement.getPopularPosts_startDate host "day" endDate startDate0 = back 1
  /\ Engagement.getPopularPosts_startDate host "week" endDate startDate0
     = back 7
  /\ Engagement.getUserEngagementComparison_startDate
       host "day" endDate startDate0
     = back 1
  /\ Engagement.getUserEngagementComparison_startDate
       host "week" endDate startDate0
     = back 7
  /\ (forall period,
        period <> "day" -> period <> "week" -> period <> "month" ->
        period <> "year" -> period <> "all" ->
        Engagement.getPopularPosts_startDate host period endDate startDate0
        = back 7)
  /\ (fixedOffset host -> forall n, back n = startDate0 - n * 86400000).
Proof.
  intros Hsame. cbv zeta.
  unfold Engagement.getPopularPosts_startDate,
    Engagement.getUserEngagementComparison_startDate.
  repeat split; intros; repeat case_decide; try done;
    try (by apply setDate_back).
  unfold zoneShift. rewrite (H startDate0 (JS.LocalTime host startDate0
                                           - n * 86400000) true false). lia.
Qed.

(** At 2023-11-14T22:13:20Z on the UTC host the week starts 604800000 ms
    earlier; at 2023-11-05T12:00:00Z in New York, hours after the clocks
    were set back, the day is 25 hours long. *)
Lemma day_and_week_windows_witness :
  Engagement.getPopularPosts_startDate utcHost "week" clock clock
  = clock - 604800000
  /\ Engagement.getPopularPosts_startDate
       newYork2023 "day" 1699185600000 1699185600000
     = 1699185600000 - 90000000.
Proof.
  split.
  - rewrite (proj1 (proj2 (day_and_week_windows utcHost clock clock eq_refl))).
    reflexivity.
  - rewrite (proj1 (day_and_week_windows newYork2023 1699185600000
                                         1699185600000 eq_refl)).
    reflexivity.
Defined.

Lemma prev_month_length (y m : Z) :
  1 <= m <= 12 ->
  28 <= JS.days_from_civil y m 1
        - JS.days_from_civil (y + (m - 2) / 12) ((m - 2) mod 12 + 1) 1
     <= 31.
Proof.
  intros Hm.
  assert (m = 1 \/ m = 2 \/ m = 3 \/ m = 4 \/ m = 5 \/ m = 6 \/ m = 7
          \/ m = 8 \/ m = 9 \/ m = 10 \/ m = 11 \/ m = 12) as H by lia.
  repeat destruct H as [->|H]; try subst m;
    unfold JS.days_from_civil; simpl; Z.div_mod_to_equations; lia.
Qed.

Lemma prev_year_length (y m : Z) :
  1 <= m <= 12 ->
  365 <= JS.days_from_civil y m 1
         - JS.days_from_civil (y - 1 + (m - 1) / 12) ((m - 1) mod 12 + 1) 1
      <= 366.
Proof.
  intros Hm.
  assert (m = 1 \/ m = 2 \/ m = 3 \/ m = 4 \/ m = 5 \/ m = 6 \/ m = 7
          \/ m = 8 \/ m = 9 \/ m = 10 \/ m = 11 \/ m = 12) as H by lia.
  repeat destruct H as [->|H]; try subst m;
    unfold JS.days_from_civil; simpl; Z.div_mod_to_equations; lia.
Qed.

(** Setting the month to the one before moves a local time back by the
    number of days of a month: the day of the month is kept, and a day
    that the previous month does not have is carried over. *)
Lemma MakeDate_previous_month (lt : Z) :
  exists days,
    28 <= days <= 31
    /\ JS.MakeDate (JS.MakeDay (JS.YearFromTime lt) (JS.MonthFromTime lt - 1)
                               (JS.DateFromTime lt))
                   (JS.TimeWithinDay lt)
       = lt - days * JS.msPerDay.
Proof.
  unfold JS.MakeDate, JS.MakeDay, JS.YearFromTime, JS.MonthFromTime,
    JS.DateFromTime, JS.TimeWithinDay.
  destruct (civil_round_trip (JS.Day lt)) as (Hrt & Hm & Hd).
  set (y := (JS.civil_from_days (JS.Day lt)).1.1) in *.
  set (m := (JS.civil_from_days (JS.Day lt)).1.2) in *.
  set (d := (JS.civil_from_days (JS.Day lt)).2) in *.
  replace (m - 1 - 1) with (m - 2) by lia.
  pose proof (prev_month_length y m Hm) as Hlen.
  rewrite (days_from_civil_day y m d) in Hrt.
  set (prev := JS.days_from_civil (y + (m - 2) / 12) ((m - 2) mod 12 + 1) 1)
    in *.
  exists (JS.days_from_civil y m 1 - prev). split; [done|].
  clearbody prev. unfold JS.Day, JS.msPerDay in *.
  assert (lt = lt / 86400000 * 86400000 + lt mod 86400000) as Ht
    by (Z.div_mod_to_equations; lia).
  set (q := lt / 86400000) in *. set (r := lt mod 86400000) in *.
  clearbody q r. lia.
Qed.

Lemma MakeDate_previous_year (lt : Z) :
  exists days,
    365 <= days <= 366
    /\ JS.MakeDate (JS.MakeDay (JS.YearFromTime lt - 1) (JS.MonthFromTime lt)
                               (JS.DateFromTime lt))
                   (JS.TimeWithinDay lt)
       = lt - days * JS.msPerDay.
Proof.
  unfold JS.MakeDate, JS.MakeDay, JS.YearFromTime, JS.MonthFromTime,
    JS.DateFromTime, JS.TimeWithinDay.
  destruct (civil_round_trip (JS.Day lt)) as (Hrt & Hm & Hd).
  set (y := (JS.civil_from_days (JS.Day lt)).1.1) in *.
  set (m := (JS.civil_from_days (JS.Day lt)).1.2) in *.
  set (d := (JS.civil_from_days (JS.Day lt)).2) in *.
  pose proof (prev_year_length y m Hm) as Hlen.
  rewrite (days_from_civil_day y m d) in Hrt.
  set (prev := JS.days_from_civil (y - 1 + (m - 1) / 12) ((m - 1) mod 12 + 1) 1)
    in *.
  exists (JS.days_from_civil y m 1 - prev). split; [done|].
  clearbody prev. unfold JS.Day, JS.msPerDay in *.
  assert (lt = lt / 86400000 * 86400000 + lt mod 86400000) as Ht
    by (Z.div_mod_to_equations; lia).
  set (q := lt / 86400000) in *. set (r := lt mod 86400000) in *.
  clearbody q r. lia.
Qed.

Lemma setMonth_back (host : JS.Host) (endDate startDate0 : Z) :
  JS.getMonth host startDate0 = JS.getMonth host endDate ->
  exists days,
    28 <= days <= 31
    /\ JS.setMonth host startDate0 (JS.getMonth host endDate - 1)
       = startDate0 - days * 86400000
         + zoneShift host startDate0 (days * 86400000).
Proof.
  intros Hsame. rewrite <- Hsame. unfold JS.setMonth, JS.getMonth. cbv zeta.
  destruct (MakeDate_previous_month (JS.LocalTime host startDate0))
    as (days & Hdays & ->).
  exists days. split; [done|]. unfold JS.msPerDay. apply localBefore_shift.
Qed.

Lemma setFullYear_back (host : JS.Host) (endDate startDate0 : Z) :
  JS.getFullYear host startDate0 = JS.getFullYear host endDate ->
  exists days,
    365 <= days <= 366
    /\ JS.setFullYear host startDate0 (JS.getFullYear host endDate - 1)
       = startDate0 - days * 86400000
         + zoneShift host startDate0 (days * 86400000).
Proof.
  intros Hsame. rewrite <- Hsame. unfold JS.setFullYear, JS.getFullYear.
  cbv zeta.
  destruct (MakeDate_previous_year (JS.LocalTime host startDate0))
    as (days & Hdays & ->).
  exists days. split; [done|]. unfold JS.msPerDay. apply localBefore_shift.
Qed.

(** With two readings of the clock in the same month of the same year
    (in local time), the window of ["month"] starts at the instant whose
    local time is 28 to 31 days (the length of a month) before the local
    time of the second reading, and the window of ["year"] 365 or 366
    days before it, in both controllers; in
    [getUserEngagementComparison] every period other than ["day"],
    ["week"] and ["year"] gets the window of ["month"].  Counted in
    milliseconds the window is that number of days, corrected by the
    change of the zone offset inside it, which is nothing on a host
    with a fixed offset. *)
Theorem month_and_year_windows (host : JS.Host)
    (endDate startDate0 : JS.Date) :
  JS.getMonth host startDate0 = JS.getMonth host endDate ->
  JS.getFullYear host startDate0 = JS.getFullYear host endDate ->
  let back lo hi start :=
    exists days,
      lo <= days <= hi
      /\ start = startDate0 - days * 86400000
                 + zoneShift host startDate0 (days * 86400000)
      /\ (fixedOffset host -> start = startDate0 - days * 86400000) in
  back 28 31 (Engagement.getPopularPosts_startDate
                host "month" endDate startDate0)
  /\ back 365 366 (Engagement.getPopularPosts_startDate
                     host "year" endDate startDate0)
  /\ back 365 366 (Engagement.getUserEngagementComparison_startDate
                     host "year" endDate startDate0)
  /\ forall period,
       period <> "day" -> period <> "week" -> period <> "year" ->
       back 28 31 (Engagement.getUserEngagementComparison_startDate
                     host period endDate startDate0).
Proof.
  intros Hm Hy. cbv zeta.
  destruct (setMonth_back host endDate startDate0 Hm) as (dm & Hdm & Em).
  destruct (setFullYear_back host endDate startDate0 Hy) as (dy & Hdy & Ey).
  assert (forall days, fixedOffset host ->
                       zoneShift host startDate0 days = 0) as Hfixed.
  { intros days Hfix. unfold zoneShift.
    rewrite (Hfix startDate0 (JS.LocalTime host startDate0 - days) true false).
    lia. }
  unfold Engagement.getPopularPosts_startDate,
    Engagement.getUserEngagementComparison_startDate.
  split; [|split; [|split]]; intros; repeat case_decide; try done;
    first [ exists dm; split; [done|]; split; [done|];
            intros Hfix; rewrite Em, (Hfixed _ Hfix); lia
          | exists dy; split; [done|]; split; [done|];
            intros Hfix; rewrite Ey, (Hfixed _ Hfix); lia ].
Qed.

(** On the UTC host at 2023-11-14T22:13:20Z the window of ["all"] in
    [getUserEngagementComparison] is the 31 days of October; in New York
    on 2023-03-29 the window of ["month"] starts on 2023-03-01, 28 days
    less one hour earlier. *)
Lemma month_and_year_windows_witness :
  Engagement.getUserEngagementComparison_startDate utcHost "all" clock clock
  = clock - 31 * 86400000
  /\ Engagement.getPopularPosts_startDate
       newYork2023 "month" 1680091200000 1680091200000
     = 1680091200000 - 28 * 86400000 + 3600000.
Proof.
  split.
  - destruct (proj2 (proj2 (proj2 (month_and_year_windows
                utcHost clock clock eq_refl eq_refl))) "all")
      as (days & _ & _ & _); [discriminate..|].
    vm_compute. reflexivity.
  - destruct (proj1 (month_and_year_windows
                newYork2023 1680091200000 1680091200000 eq_refl eq_refl))
      as (days & _ & _ & _).
    vm_compute. reflexivity.
Defined.

End Calendar.

(** ** The authenticating client *)

Section Authentication.
Import ApiClient.

(** A successful authentication at time [now] stores the token; the token
    then counts as valid exactly until 60 seconds before
    [now + lifetime * 1000], where the lifetime is [expires_in], or 3600
    when that is missing or 0.  With a lifetime of at most 60 seconds the
    token never counts as valid from [now] on. *)
Theorem token_validity_window (now : Z) (d : AuthResponse) (c : Client) :
  truthy (access_token d) = true ->
  let c' := (authenticate now (PostReturns (Some d)) c).1 in
  (authenticate now (PostReturns (Some d)) c).2 = None
  /\ authToken c' = access_token d
  /\ (forall t, isTokenValid t c' = true
                <-> t < now + lifetime d * 1000 - 60000)
  /\ (lifetime d <= 60 -> forall t, now <= t -> isTokenValid t c' = false).
Proof.
  intros Htok. cbv zeta. unfold authenticate. rewrite Htok. simpl.
  split; [done|]. split; [done|].
  assert (forall t,
            isTokenValid t {| authToken := access_token d;
                              tokenExpiry := now + lifetime d * 1000 |} = true
            <-> t < now + lifetime d * 1000 - 60000) as Hvalid.
  { intros t. unfold isTokenValid. simpl. rewrite Htok. simpl.
    apply Z.ltb_lt. }
  split; [exact Hvalid|]. intros Hshort t Ht.
  apply not_true_is_false. intros H%Hvalid. lia.
Qed.

Lemma token_validity_window_witness :
  isTokenValid 3540999
    (authenticate 1000 (PostReturns (Some {| token_type := "Bearer";
                                             access_token := Some "abc";
                                             expires_in := Some 0 |}))
                  newClient).1 = true
  /\ isTokenValid 1000
       (authenticate 1000 (PostReturns (Some {| token_type := "Bearer";
                                                access_token := Some "abc";
                                                expires_in := Some 60 |}))
                     newClient).1 = false.
Proof.
  split.
  - apply (token_validity_window 1000
             {| token_type := "Bearer"; access_token := Some "abc";
                expires_in := Some 0 |} newClient); [reflexivity|].
    vm_compute. reflexivity.
  - apply (token_validity_window 1000
             {| token_type := "Bearer"; access_token := Some "abc";
                expires_in := Some 60 |} newClient); [reflexivity| |lia].
    vm_compute. discriminate.
Defined.

(** [authenticate] throws exactly when the request fails, the response
    has no data or the access token is missing or empty; it then leaves
    the stored token and expiry as they were.  When [ensureAuthenticated]
    returns without throwing, the client holds a non-empty token. *)
Theorem authentication_failure_keeps_token (now : Z) (r : PostResult)
    (c : Client) :
  (is_Some (authenticate now r c).2
   <-> match r with
       | PostFails _ | PostReturns None => True
       | PostReturns (Some d) => truthy (access_token d) = false
       end)
  /\ (is_Some (authenticate now r c).2 -> (authenticate now r c).1 = c)
  /\ ((ensureAuthenticated now r c).2 = None ->
      truthy (authToken (ensureAuthenticated now r c).1) = true).
Proof.
  split; [|split].
  - destruct r as [e|[d|]]; simpl; [by split; eauto| |by split; eauto].
    destruct (truthy (access_token d)); simpl; split;
      try done; by intros [? ?].
  - destruct r as [e|[d|]]; simpl; try done.
    destruct (truthy (access_token d)); simpl; [by intros [? ?]|done].
  - unfold ensureAuthenticated.
    destruct (isTokenValid now c) eqn:Hv; simpl.
    + intros _. unfold isTokenValid in Hv.
      by apply andb_true_iff in Hv as [? _].
    + destruct r as [e|[d|]]; simpl; try done.
      destruct (truthy (access_token d)) eqn:Ht; simpl; done.
Qed.

Lemma authentication_failure_keeps_token_witness :
  (authenticate 5000 (PostReturns (Some {| token_type := "Bearer";
                                           access_token := Some "";
                                           expires_in := Some 3600 |}))
                {| authToken := Some "old"; tokenExpiry := 9000000 |}).1
  = {| authToken := Some "old"; tokenExpiry := 9000000 |}.
Proof.
  apply (authentication_failure_keeps_token 5000). simpl. eauto.
Defined.

End Authentication.

(** ** [truncateText] *)

Section Truncation.
Import Utils.

(** For a maximum length that is not negative: a text that fits is
    returned unchanged; a longer text becomes its first [maxLength]
    characters followed by three dots, so the result can be up to two
    characters longer than the text; the result always starts like the
    text, and truncating it again changes nothing. *)
Theorem truncateText_properties (text : list N) (maxLength : Z) :
  0 <= maxLength ->
  let n := Z.to_nat maxLength in
  ((length text <= n)%nat -> truncateText text maxLength = text)
  /\ ((n < length text)%nat ->
      truncateText text maxLength = take n text ++ ellipsis
      /\ length (truncateText text maxLength) = (n + 3)%nat)
  /\ take n (truncateText text maxLength) = take n text
  /\ truncateText (truncateText text maxLength) maxLength
     = truncateText text maxLength.
Proof.
  intros Hmax. cbv zeta.
  assert (forall t : list N,
            truncateText t maxLength
            = if decide (length t <= Z.to_nat maxLength)%nat then t
              else take (Z.to_nat maxLength) t ++ ellipsis) as Hdef.
  { intros t. unfold truncateText, JS.slice0.
    destruct (Z.leb_spec (Z.of_nat (length t)) maxLength);
      destruct (decide (length t <= Z.to_nat maxLength)%nat); try lia; [done|].
    destruct (Z.leb_spec 0 maxLength); [done|lia]. }
  rewrite !Hdef.
  destruct (decide (length text <= Z.to_nat maxLength)%nat) as [Hfit|Hlong].
  - split; [done|]. split; [lia|]. split; [done|]. by rewrite decide_True.
  - assert (take (Z.to_nat maxLength)
                 (take (Z.to_nat maxLength) text ++ ellipsis)
            = take (Z.to_nat maxLength) text) as Htake.
    { rewrite take_app_le by (rewrite length_take; lia).
      rewrite take_take. f_equal. lia. }
    split; [lia|]. split; [|split].
    + intros _. split; [done|]. rewrite length_app, length_take. simpl. lia.
    + exact Htake.
    + rewrite decide_False by (rewrite length_app, length_take; simpl; lia).
      by rewrite Htake.
Qed.

Lemma truncateText_properties_witness :
  truncateText (codeUnits "hello") 3 = codeUnits "hel..."
  /\ truncateText (codeUnits "hello") 5 = codeUnits "hello".
Proof.
  destruct (truncateText_properties (codeUnits "hello") 3) as (_ & H3 & _);
    [lia|].
  destruct (truncateText_properties (codeUnits "hello") 5) as (H5 & _);
    [lia|].
  split.
  - destruct H3 as [H3 _]; [simpl; lia|]. rewrite H3. reflexivity.
  - apply H5. simpl. lia.
Defined.

End Truncation.

(** ** Percentile: range and monotonicity *)

Section PercentileOrder.
Import Engagement.

Lemma percentileOf_share (u : JS.number) (rates : list JS.number) :
  finiteNumber u -> Forall finiteNumber rates -> rates <> [] ->
  StronglySorted (fun a b => JS.ge b a = true) rates ->
  exists q,
    percentileOf u rates = JS.Fin q
    /\ (q == inject_Z (Z.of_nat (strictlyBelow u rates))
             / inject_Z (Z.of_nat (length rates)) * 100)%Q.
Proof.
  intros Hu Hfin Hne Hs.
  pose proof (findIndex_counts_lower u rates Hu Hfin Hs) as Hcount.
  unfold percentileOf.
  assert ((0 <? length rates)%nat = true) as ->
    by (apply Nat.ltb_lt; destruct rates; [done|simpl; lia]).
  assert (~ (inject_Z (Z.of_nat (length rates)) == 0)%Q) as Hlen.
  { intros E. apply Qeq_bool_iff, of_nat_is_zero in E. by destruct rates. }
  destruct (JS.findIndex _ rates) as [i|].
  - destruct Hcount as [-> _]. unfold JS.of_nat, JS.of_Z. simpl.
    destruct (Qeq_bool (inject_Z (Z.of_nat (length rates))) 0) eqn:E.
    { by apply Qeq_bool_iff in E. }
    simpl. eexists. split; [done|]. reflexivity.
  - rewrite Hcount. eexists. split; [done|]. simpl. field. done.
Qed.

Lemma strictlyBelow_mono (u u' : Q) (rates : list JS.number) :
  (u <= u')%Q -> Forall finiteNumber rates ->
  (strictlyBelow (JS.Fin u) rates <= strictlyBelow (JS.Fin u') rates)%nat.
Proof.
  intros Hle Hfin. unfold strictlyBelow.
  induction Hfin as [|r l [q ->] _ IH]; simpl; [done|].
  rewrite !filter_cons.
  destruct (decide (JS.ge (JS.Fin q) (JS.Fin u) = false)) as [H|H];
    destruct (decide (JS.ge (JS.Fin q) (JS.Fin u') = false)) as [H'|H'];
    simpl; try lia.
  exfalso. apply H'. apply ge_false_Fin. apply ge_false_Fin in H. lra.
Qed.

Lemma strictlyBelow_le_length (u : JS.number) (rates : list JS.number) :
  (strictlyBelow u rates <= length rates)%nat.
Proof. unfold strictlyBelow. apply length_filter. Qed.

(** The percentile read from the sorted list of rates lies between 0 and
    100, and a higher rate of the target never gives a lower
    percentile. *)
Theorem percentile_range_and_order (db : Db) (allPosts : list DbPost)
    (u u' : Q) :
  allUserEngagementRates db allPosts <> [] -> (u <= u')%Q ->
  exists q q',
    percentileOf (JS.Fin u) (allUserEngagementRates db allPosts) = JS.Fin q
    /\ percentileOf (JS.Fin u') (allUserEngagementRates db allPosts) = JS.Fin q'
    /\ (0 <= q)%Q /\ (q <= q')%Q /\ (q' <= 100)%Q.
Proof.
  intros Hne Hle.
  set (rates := allUserEngagementRates db allPosts) in *.
  pose proof (rates_finite db allPosts) as Hfin. fold rates in Hfin.
  pose proof (rates_sorted db allPosts) as Hs. fold rates in Hs.
  destruct (percentileOf_share (JS.Fin u) rates) as (q & Hq & Eq);
    [by eexists|done..|].
  destruct (percentileOf_share (JS.Fin u') rates) as (q' & Hq' & Eq');
    [by eexists|done..|].
  exists q, q'. split; [done|]. split; [done|].
  pose proof (strictlyBelow_mono u u' rates Hle Hfin) as Hmono.
  pose proof (strictlyBelow_le_length (JS.Fin u') rates) as Hbound.
  assert (0 < inject_Z (Z.of_nat (length rates)))%Q as Hpos.
  { change 0%Q with (inject_Z 0). rewrite <- Zlt_Qlt.
    destruct rates; [done|simpl; lia]. }
  set (n := inject_Z (Z.of_nat (length rates))) in *.
  set (a := inject_Z (Z.of_nat (strictlyBelow (JS.Fin u) rates))) in *.
  set (b := inject_Z (Z.of_nat (strictlyBelow (JS.Fin u') rates))) in *.
  assert (0 <= a)%Q as Ha
    by (unfold a; change 0%Q with (inject_Z 0); rewrite <- Zle_Qle; lia).
  assert (a <= b)%Q as Hab by (unfold a, b; rewrite <- Zle_Qle; lia).
  assert (b <= n)%Q as Hbn by (unfold b, n; rewrite <- Zle_Qle; lia).
  assert (forall x y, (x <= y)%Q -> (x / n <= y / n)%Q) as Hdiv.
  { intros x y Hxy. apply Qle_shift_div_l; [done|].
    unfold Qdiv. rewrite <- Qmult_assoc, (Qmult_comm (/ n)), Qmult_inv_r,
      Qmult_1_r; [done|]. intros E. rewrite E in Hpos. by apply Qlt_irrefl in Hpos. }
  assert (n / n == 1)%Q as Hnn.
  { unfold Qdiv. apply Qmult_inv_r. intros E. rewrite E in Hpos.
    by apply Qlt_irrefl in Hpos. }
  assert (0 / n == 0)%Q as H0n by (unfold Qdiv; ring).
  pose proof (Hdiv 0%Q a Ha) as H1. pose proof (Hdiv a b Hab) as H2.
  pose proof (Hdiv b n Hbn) as H3. rewrite H0n in H1. rewrite Hnn in H3.
  rewrite Eq, Eq'. repeat split; lra.
Qed.

Lemma percentile_range_and_order_witness :
  exists q q',
    percentileOf (JS.Fin 5) (allUserEngagementRates twoAuthors
                                                    (db_posts twoAuthors))
    = JS.Fin q
    /\ percentileOf (JS.Fin 20) (allUserEngagementRates twoAuthors
                                                        (db_posts twoAuthors))
       = JS.Fin q'
    /\ (0 <= q)%Q /\ (q <= q')%Q /\ (q' <= 100)%Q.
Proof.
  apply (percentile_range_and_order twoAuthors (db_posts twoAuthors) 5 20).
  - vm_compute. discriminate.
  - unfold Qle. simpl. lia.
Defined.

End PercentileOrder.

Section MoreWitnesses.

Lemma topics_map_keys_witness :
  codeUnits "#sunny"
  ∈ map Topics.text
      (foldl Topics.processPost []
         [{| Topics.content := codeUnits "great day #sunny #sunny @bob";
             Topics.tags := None; Topics.likes := 4; Topics.comments := 3;
             Topics.shares := 3 |}]).
Proof.
  apply (proj2 (topics_map_keys _ (codeUnits "#sunny"))).
  exists (codeUnits "#sunny", Topics.hashtag, 10%nat).
  split; [|reflexivity]. vm_compute. left.
Defined.

End MoreWitnesses.
